(** * fastGplus backend: a shallow embedding of the gateway's core handlers

    The first part follows the Python sources module by module:
    - [PyStr]      the string primitives the handlers rely on
                   ([str.strip], [str.lower], [str.find], slicing, ...);
    - [Db]         identifiers, instants, the [users] table, handler replies;
    - [Re]         the fragment of Python's backtracking [re] engine that the
                   patterns of the repository need;
    - [Sql]        [backend/endpoints/sql.py]: statement splitter, CREATE/DROP
                   extraction and reconciliation with the table registry;
    - [Tokens]     [backend/security.py] and [endpoints/users.py]: refresh
                   token validation, rotation and the refresh endpoint;
    - [Auth]       [backend/security.py]: required and optional resolvers;
    - [Rows]       [endpoints/tables.py]: the statements of row PATCH and
                   DELETE, and what the handlers answer;
    - [Users]      [endpoints/users.py]: user creation;
    - [Files]      [endpoints/files.py]: duplicate file name resolution;
    - [Storage]    [storage/endpoints/files.py]: the worker's atomic upload;
    - [Functions]  [backend/endpoints/functions.py]: execution callbacks;
    - [Sessions]   [endpoints/users.py]: login and logout;
    - [Validators] [backend/utils/validation.py] and the validators of
                   [backend/models]: search terms, passwords, names of
                   buckets, functions and tables;
    - [SqlText]    plain splitting at semicolons, to compare the statement
                   splitter with;
    - [SqlGuard]   [backend/endpoints/sql.py]: the security check of the
                   console;
    - [FunctionHistory] the counters of a function against its execution
                   rows;
    - [Blobs]      [storage/endpoints/files.py]: the worker's download and
                   delete;
    - [Statements] the shapes of the CREATE TABLE and DROP TABLE statements
                   that the properties of the console speak about.

    The second part states and proves the properties, one module of facts
    per module of code.

    Conventions.  Text is a list of characters; a character is a code point
    below 256 (Latin-1), which is where the character classes below are
    exact.  A database table is the list of its rows, a [SELECT ... ]
    followed by [fetchone()] is [List.find].  What the handlers cannot
    decide themselves (SHA-256, JWT decoding, random identifiers, the clock,
    failures of the network or the disk, what the database answers to a
    statement the handler builds as text) is an argument of the model.
    A Python float is an IEEE 754 binary64 value, with the operations of
    [SpecFloat] at precision 53. *)

From Stdlib Require Import ZArith QArith Ascii String List Bool Lia.
From Stdlib Require Import DecimalString DecimalN SpecFloat.
From stdpp Require Import gmap strings list.

Import ListNotations.
Local Open Scope list_scope.
Local Open Scope nat_scope.

(* ===================================================================== *)
(** ** Python string primitives *)
(* ===================================================================== *)

Module PyStr.

Definition str := list ascii.

(** A literal: [py "abc"] is the text abc. *)
Definition py (s : string) : str := list_ascii_of_string s.

Definition code (c : ascii) : nat := nat_of_ascii c.

Definition DQ : ascii := ascii_of_nat 34.   (* the double quote *)
Definition SQ : ascii := ascii_of_nat 39.   (* the single quote *)
Definition NL : ascii := ascii_of_nat 10.   (* line feed *)
Definition BSL : ascii := ascii_of_nat 92.  (* backslash *)

Definition chr_eqb (a b : ascii) : bool := Ascii.eqb a b.

Fixpoint str_eqb (a b : str) : bool :=
  match a, b with
  | [], [] => true
  | x :: a', y :: b' => chr_eqb x y && str_eqb a' b'
  | _, _ => false
  end.

(** [str.isspace] on one character: TAB..CR, FS..US, space, NEL, NBSP. *)
Definition is_space (c : ascii) : bool :=
  let n := code c in
  ((9 <=? n) && (n <=? 13)) || ((28 <=? n) && (n <=? 32))
  || (n =? 133) || (n =? 160).

Definition is_digit (c : ascii) : bool :=
  let n := code c in (48 <=? n) && (n <=? 57).

Definition is_upper_ascii (c : ascii) : bool :=
  let n := code c in (65 <=? n) && (n <=? 90).

Definition is_lower_ascii (c : ascii) : bool :=
  let n := code c in (97 <=? n) && (n <=? 122).

(** Latin-1 characters that [str.isalnum] accepts above 127. *)
Definition is_alnum_hi (c : ascii) : bool :=
  let n := code c in
  (n =? 170) || (n =? 178) || (n =? 179) || (n =? 181) || (n =? 185)
  || (n =? 186) || ((188 <=? n) && (n <=? 190))
  || ((192 <=? n) && (n <=? 214)) || ((216 <=? n) && (n <=? 246))
  || ((248 <=? n) && (n <=? 255)).

(** The class [\w] of a [str] pattern. *)
Definition is_word (c : ascii) : bool :=
  is_digit c || is_upper_ascii c || is_lower_ascii c || (code c =? 95)
  || is_alnum_hi c.

(** [str.lower] on one character. *)
Definition lower_chr (c : ascii) : ascii :=
  let n := code c in
  if is_upper_ascii c then ascii_of_nat (n + 32)
  else if ((192 <=? n) && (n <=? 214)) || ((216 <=? n) && (n <=? 222))
       then ascii_of_nat (n + 32)
  else c.

Definition lower (s : str) : str := map lower_chr s.

Fixpoint lstrip (s : str) : str :=
  match s with
  | c :: s' => if is_space c then lstrip s' else s
  | [] => []
  end.

Definition rstrip (s : str) : str := rev (lstrip (rev s)).

(** [s.strip()] *)
Definition strip (s : str) : str := rstrip (lstrip s).

(** [s[a:b]] for [0 <= a], [0 <= b]. *)
Definition slice (q : str) (a b : nat) : str := firstn (b - a) (skipn a q).

(** [s[i]] where the caller has checked [i < len(s)]. *)
Definition char_at (q : str) (i : nat) : ascii := nth i q Ascii.zero.

Fixpoint startswith (s p : str) : bool :=
  match p, s with
  | [], _ => true
  | x :: p', y :: s' => chr_eqb x y && startswith s' p'
  | _ :: _, [] => false
  end.

Fixpoint find_aux (sub s : str) (pos : nat) : option nat :=
  if startswith s sub then Some pos
  else match s with
       | [] => None
       | _ :: s' => find_aux sub s' (S pos)
       end.

(** [q.find(sub, start)]; [None] stands for [-1]. *)
Definition find (q sub : str) (start : nat) : option nat :=
  if length q <? start then None else find_aux sub (skipn start q) start.

(** [sub in q] *)
Definition contains (q sub : str) : bool :=
  match find q sub 0 with Some _ => true | None => false end.

(** [s.rsplit(sep, 1)] for a one-character separator: [None] when the
    separator does not occur (the list of length one), otherwise the text
    before and after its last occurrence. *)
Fixpoint rsplit1 (sep : ascii) (s : str) : option (str * str) :=
  match s with
  | [] => None
  | c :: s' =>
      match rsplit1 sep s' with
      | Some (a, b) => Some (c :: a, b)
      | None => if chr_eqb c sep then Some ([], s') else None
      end
  end.

(** [s.split(sep)[-1]] for a one-character separator. *)
Definition last_segment (sep : ascii) (s : str) : str :=
  match rsplit1 sep s with Some (_, b) => b | None => s end.

(** [str(n)] for a natural number. *)
Definition dec (n : N) : str :=
  list_ascii_of_string (NilZero.string_of_uint (N.to_uint n)).

(** [int(s)] on a non-empty text of ASCII digits. *)
Definition int_of_digits (s : str) : N :=
  fold_left (fun acc c => (10 * acc + N.of_nat (code c - 48))%N) s 0%N.

Fixpoint dict_get {V : Type} (k : str) (d : list (str * V)) : option V :=
  match d with
  | [] => None
  | (k', v) :: d' => if str_eqb k k' then Some v else dict_get k d'
  end.

(** [d[k] = v] on an insertion-ordered dict. *)
Fixpoint dict_set {V : Type} (k : str) (v : V) (d : list (str * V))
  : list (str * V) :=
  match d with
  | [] => [(k, v)]
  | (k', v') :: d' =>
      if str_eqb k k' then (k', v) :: d' else (k', v') :: dict_set k v d'
  end.

(** [sep.join(parts)] *)
Fixpoint join (sep : str) (parts : list str) : str :=
  match parts with
  | [] => []
  | [x] => x
  | x :: rest => x ++ sep ++ join sep rest
  end.

(** The longest prefix of characters of a class, and what follows it. *)
Fixpoint take_while (p : ascii -> bool) (s : str) : str :=
  match s with
  | c :: s' => if p c then c :: take_while p s' else []
  | [] => []
  end.

Fixpoint drop_while (p : ascii -> bool) (s : str) : str :=
  match s with
  | c :: s' => if p c then drop_while p s' else s
  | [] => []
  end.

(** A text is trimmed on the left when it is empty or starts with a
    character that is not whitespace. *)
Definition no_leading_space (s : str) : Prop :=
  match s with
  | [] => True
  | c :: _ => is_space c = false
  end.

Definition no_trailing_space (s : str) : Prop := no_leading_space (rev s).

(** A text as [strip] leaves it when something is left: trimmed and not
    empty. *)
Definition trimmed (stmt : str) : Prop := strip stmt = stmt /\ stmt <> [].

End PyStr.

Import PyStr.

(* ===================================================================== *)
(** ** Shared data model *)
(* ===================================================================== *)

Module Db.

(** Identifiers are 128-bit UUIDs. *)
Definition UUID : Type := N.

(** Instants, in microseconds since the epoch. *)
Definition instant : Type := Z.

Bind Scope N_scope with UUID.
Bind Scope Z_scope with instant.

Inductive role : Type := USER | ADMIN.

Definition role_eqb (a b : role) : bool :=
  match a, b with
  | USER, USER | ADMIN, ADMIN => true
  | _, _ => false
  end.

(** A row of [users] (models/user.py, [UserInDB]). *)
Record user_row : Type := mkUser {
  u_id : UUID;
  u_email : str;
  u_password : str;
  u_first_name : str;
  u_last_name : str;
  u_role : role;
  u_is_active : bool
}.

(** [SELECT * FROM users WHERE id = %s] followed by [fetchone()]. *)
Definition user_by_id (id : UUID) (users : list user_row) : option user_row :=
  List.find (fun u => N.eqb (u_id u) id) users.

(** [SELECT * FROM users WHERE email = %s] followed by [fetchone()]. *)
Definition user_by_email (email : str) (users : list user_row)
  : option user_row :=
  List.find (fun u => str_eqb (u_email u) email) users.

(** What a handler does: it returns a value or raises [HTTPException]. *)
Inductive reply (A : Type) : Type :=
| Return (a : A)
| HTTPException (status_code : nat) (detail : str).
Arguments Return {A} a.
Arguments HTTPException {A} status_code detail.

End Db.

Import Db.

(* ===================================================================== *)
(** ** The fragment of Python's [re] used by the handlers *)
(* ===================================================================== *)

Module Re.

(** Patterns.  Repetition only ever applies to a character class in the
    patterns of the repository, so [Star] takes a class. *)
Inductive re : Type :=
| Eps
| Chr (p : ascii -> bool)
| Cat (r1 r2 : re)
| Alt (r1 r2 : re)
| Opt (r : re)
| Star (p : ascii -> bool)
| Grp (n : nat) (r : re)
| Eol.

(** Captured groups, most recent binding first. *)
Definition caps := list (nat * str).

Fixpoint group (n : nat) (c : caps) : option str :=
  match c with
  | [] => None
  | (k, v) :: c' => if Nat.eqb k n then Some v else group n c'
  end.

(** Greedy [p*]: the longest run first, then shorter ones. *)
Fixpoint star_k {A : Type} (p : ascii -> bool) (s : str)
         (k : str -> option A) : option A :=
  match s with
  | x :: s' =>
      if p x
      then match star_k p s' k with Some r => Some r | None => k s end
      else k s
  | [] => k []
  end.

(** [$] without MULTILINE: at the end, or before a final line feed. *)
Definition at_end (s : str) : bool :=
  match s with
  | [] => true
  | [c] => chr_eqb c NL
  | _ => false
  end.

(** Backtracking matcher in continuation-passing style: [k] receives the
    text that is left and the groups captured so far. *)
Fixpoint run {A : Type} (r : re) (s : str) (c : caps)
         (k : str -> caps -> option A) : option A :=
  match r with
  | Eps => k s c
  | Chr p =>
      match s with
      | x :: s' => if p x then k s' c else None
      | [] => None
      end
  | Cat r1 r2 => run r1 s c (fun s1 c1 => run r2 s1 c1 k)
  | Alt r1 r2 =>
      match run r1 s c k with Some x => Some x | None => run r2 s c k end
  | Opt r1 =>
      match run r1 s c k with Some x => Some x | None => k s c end
  | Star p => star_k p s (fun s' => k s' c)
  | Grp n r1 =>
      run r1 s c
          (fun s' c' => k s' ((n, firstn (length s - length s') s) :: c'))
  | Eol => if at_end s then k s c else None
  end.

(** [re.match(r, s)]: the rest after the match and the groups. *)
Definition rmatch (r : re) (s : str) : option (str * caps) :=
  run r s [] (fun s' c => Some (s', c)).

(** [re.search(r, s)]: leftmost match; the rest after it and the groups. *)
Fixpoint search (r : re) (s : str) : option (str * caps) :=
  match rmatch r s with
  | Some x => Some x
  | None => match s with
            | [] => None
            | _ :: s' => search r s'
            end
  end.

(** [re.sub(r, '', s)]: every non-overlapping match removed. *)
Fixpoint sub_empty_aux (r : re) (fuel : nat) (s : str) : str :=
  match fuel with
  | 0 => s
  | S f =>
      match s with
      | [] => []
      | x :: s' =>
          match rmatch r s with
          | Some (rest, _) =>
              if length rest <? length s then sub_empty_aux r f rest
              else x :: sub_empty_aux r f s'
          | None => x :: sub_empty_aux r f s'
          end
      end
  end.

Definition sub_empty (r : re) (s : str) : str :=
  sub_empty_aux r (length s) s.

(** Pattern builders. *)
Definition chr (x : ascii) : re := Chr (chr_eqb x).
Definition ichr (x : ascii) : re :=
  Chr (fun c => chr_eqb (lower_chr c) (lower_chr x)).

Fixpoint seq (rs : list re) : re :=
  match rs with
  | [] => Eps
  | [r] => r
  | r :: rs' => Cat r (seq rs')
  end.

(** A literal, as [re.escape] produces it. *)
Definition lit (s : str) : re := seq (map chr s).
(** A literal under [re.IGNORECASE]. *)
Definition ilit (s : string) : re := seq (map ichr (py s)).

Definition plus (p : ascii -> bool) : re := Cat (Chr p) (Star p).
(** Whitespace, at least one whitespace, a word, an optional quote of
    either kind. *)
Definition sp : re := Star is_space.
Definition sp1 : re := plus is_space.
Definition word1 : re := plus is_word.
Definition quote_opt : re :=
  Opt (Chr (fun c => chr_eqb c DQ || chr_eqb c SQ)).

End Re.

(* ===================================================================== *)
(** ** backend/endpoints/sql.py *)
(* ===================================================================== *)

Module Sql.

Import Re.

Definition SYSTEM_TABLES : list str :=
  map py [ "system_config"; "users"; "tables"; "sql_history"; "sql_snippets";
           "buckets"; "files"; "functions"; "function_executions";
           "function_logs"; "webhooks"; "webhook_deliveries";
           "refresh_tokens"; "pg_catalog"; "information_schema" ]%string.

Definition mem (x : str) (l : list str) : bool := existsb (str_eqb x) l.

Definition PG_TYPE_MAPPING : list (str * str) :=
  map (fun p => (py (fst p), py (snd p)))
    [ ("text", "TEXT"); ("varchar", "TEXT"); ("character varying", "TEXT");
      ("char", "TEXT"); ("character", "TEXT"); ("int", "INTEGER");
      ("int4", "INTEGER"); ("integer", "INTEGER"); ("int8", "BIGINT");
      ("bigint", "BIGINT"); ("smallint", "INTEGER"); ("int2", "INTEGER");
      ("serial", "INTEGER"); ("bigserial", "BIGINT"); ("decimal", "DECIMAL");
      ("numeric", "DECIMAL"); ("real", "FLOAT"); ("float", "FLOAT");
      ("float4", "FLOAT"); ("float8", "FLOAT"); ("double precision", "FLOAT");
      ("boolean", "BOOLEAN"); ("bool", "BOOLEAN"); ("date", "DATE");
      ("time", "TIMESTAMP"); ("timestamp", "TIMESTAMP");
      ("timestamp with time zone", "TIMESTAMP");
      ("timestamp without time zone", "TIMESTAMP");
      ("timestamptz", "TIMESTAMP"); ("json", "JSON"); ("jsonb", "JSONB");
      ("uuid", "UUID"); ("bytea", "TEXT") ]%string.

(** *** split_sql_statements *)

(** The local variables of the [while] loop. *)
Record split_state : Type := mkSplit {
  statements : list str;
  current : str;
  in_string : bool;
  string_char : option ascii;
  idx : nat
}.

Definition is_string_char (sc : option ascii) (c : ascii) : bool :=
  match sc with Some q => chr_eqb c q | None => false end.

Definition dollar : ascii := ascii_of_nat 36.
Definition semicolon : ascii := ascii_of_nat 59.

(** One iteration of the loop body, entered with [idx < len(query)]. *)
Definition split_step (query : str) (s : split_state) : split_state :=
  let char := char_at query (idx s) in
  (* the dollar-quoting block: it may [continue], or fall through with
     [current] and [i] already advanced *)
  let '(cur, i, continued) :=
    if chr_eqb char dollar && negb (in_string s) then
      match find query [dollar] (idx s + 1) with
      | Some end_idx =>
          let dollar_tag := slice query (idx s) (end_idx + 1) in
          let cur1 := current s ++ dollar_tag in
          let i1 := end_idx + 1 in
          match find query dollar_tag i1 with
          | Some close_idx =>
              (cur1 ++ slice query i1 (close_idx + length dollar_tag),
               close_idx + length dollar_tag, true)
          | None => (cur1, i1, false)
          end
      | None => (current s, idx s, false)
      end
    else (current s, idx s, false) in
  if continued then
    mkSplit (statements s) cur (in_string s) (string_char s) i
  else if (chr_eqb char SQ || chr_eqb char DQ) && negb (in_string s) then
    mkSplit (statements s) (cur ++ [char]) true (Some char) (i + 1)
  else if is_string_char (string_char s) char && in_string s then
    if (i + 1 <? length query)
       && is_string_char (string_char s) (char_at query (i + 1))
    then mkSplit (statements s) (cur ++ [char; char]) (in_string s)
                 (string_char s) (i + 2)
    else mkSplit (statements s) (cur ++ [char]) false None (i + 1)
  else if chr_eqb char semicolon && negb (in_string s) then
    let stmt := strip cur in
    mkSplit (match stmt with [] => statements s | _ => statements s ++ [stmt] end)
            [] (in_string s) (string_char s) (i + 1)
  else
    mkSplit (statements s) (cur ++ [char]) (in_string s) (string_char s) (i + 1).

(** [while i < len(query)]: every iteration advances [i], so [len(query)]
    iterations are enough (see [split_loop_done]). *)
Fixpoint split_loop (fuel : nat) (query : str) (s : split_state)
  : split_state :=
  match fuel with
  | 0 => s
  | S f =>
      if idx s <? length query then split_loop f query (split_step query s)
      else s
  end.

Definition split_sql_statements (query : str) : list str :=
  let s := split_loop (length query) query (mkSplit [] [] false None 0) in
  match strip (current s) with
  | [] => statements s
  | stmt => statements s ++ [stmt]
  end.

(** *** parse_single_create_table *)

(** [CREATE\s+TABLE\s+(?:IF\s+NOT\s+EXISTS\s+)?[quote]?(\w+)[quote]?\s*\(]
    under IGNORECASE. *)
Definition create_pattern : re :=
  seq [ ilit "CREATE"; sp1; ilit "TABLE"; sp1;
        Opt (seq [ilit "IF"; sp1; ilit "NOT"; sp1; ilit "EXISTS"; sp1]);
        quote_opt; Grp 1 word1; quote_opt; sp; chr "(" ].

(** [CREATE\s+TABLE] under IGNORECASE. *)
Definition create_table_kw : re := seq [ilit "CREATE"; sp1; ilit "TABLE"].

(** [^\s*(PRIMARY\s+KEY|FOREIGN\s+KEY|UNIQUE|CHECK|CONSTRAINT)] *)
Definition constraint_pattern : re :=
  Cat sp (Grp 1 (Alt (seq [ilit "PRIMARY"; sp1; ilit "KEY"])
                (Alt (seq [ilit "FOREIGN"; sp1; ilit "KEY"])
                (Alt (ilit "UNIQUE") (Alt (ilit "CHECK") (ilit "CONSTRAINT")))))).

(** [\s*\([^)]*\)] *)
Definition size_suffix : re :=
  seq [ sp; chr "("; Star (fun c => negb (chr_eqb c ")")); chr ")" ].

(** [[quote]?(\w+)[quote]?\s+(\w+(?:\s*\([^)]*\))?)] *)
Definition column_pattern : re :=
  seq [ quote_opt; Grp 1 word1; quote_opt; sp1;
        Grp 2 (Cat word1 (Opt size_suffix)) ].

(** [DROP\s+TABLE\s+(?:IF\s+EXISTS\s+)?[quote]?(\w+)[quote]?] *)
Definition drop_pattern : re :=
  seq [ ilit "DROP"; sp1; ilit "TABLE"; sp1;
        Opt (seq [ilit "IF"; sp1; ilit "EXISTS"; sp1]);
        quote_opt; Grp 1 word1; quote_opt ].

(** The [for i in range(start_paren, len(stmt))] loop: the index of the
    parenthesis closing the one at [start_paren]. *)
Fixpoint find_closing (s : str) (i : nat) (paren_depth : Z) : option nat :=
  match s with
  | [] => None
  | c :: s' =>
      if chr_eqb c "(" then find_closing s' (S i) (paren_depth + 1)
      else if chr_eqb c ")" then
        if (paren_depth - 1 =? 0)%Z then Some i
        else find_closing s' (S i) (paren_depth - 1)
      else find_closing s' (S i) paren_depth
  end.

(** The [for char in columns_str] loop: split on top-level commas. *)
Fixpoint split_columns (s : str) (paren_depth : Z) (cur : str)
         (columns : list str) : list str * str :=
  match s with
  | [] => (columns, cur)
  | c :: s' =>
      if chr_eqb c "(" then split_columns s' (paren_depth + 1) (cur ++ [c]) columns
      else if chr_eqb c ")" then
        split_columns s' (paren_depth - 1) (cur ++ [c]) columns
      else if chr_eqb c "," && (paren_depth =? 0)%Z then
        split_columns s' paren_depth [] (columns ++ [strip cur])
      else split_columns s' paren_depth (cur ++ [c]) columns
  end.

(** A column of the extracted schema: mapped type and nullability. *)
Definition column_info : Type := (str * bool)%type.
Definition schema_dict : Type := list (str * column_info).

(** The body of [for col_def in columns]. *)
Definition parse_column (schema : schema_dict) (col_def0 : str) : schema_dict :=
  let col_def := strip col_def0 in
  match rmatch constraint_pattern col_def with
  | Some _ => schema
  | None =>
      match rmatch column_pattern col_def with
      | Some (_, g) =>
          match group 1 g, group 2 g with
          | Some g1, Some g2 =>
              let col_name := lower g1 in
              let col_type_raw := lower g2 in
              let base_type := strip (sub_empty size_suffix col_type_raw) in
              let mapped_type :=
                match dict_get base_type PG_TYPE_MAPPING with
                | Some t => t
                | None => py "TEXT"
                end in
              let nullable := negb (contains (lower col_def) (py "not null")) in
              dict_set col_name (mapped_type, nullable) schema
          | _, _ => schema
          end
      | None => schema
      end
  end.

Definition parse_single_create_table (stmt : str)
  : option (str * schema_dict) :=
  match search create_pattern stmt with
  | None => None
  | Some (rest, g) =>
      match group 1 g with
      | None => None
      | Some g1 =>
          let table_name := lower g1 in
          if mem table_name SYSTEM_TABLES then None
          else
            let match_end := length stmt - length rest in
            let start_paren := match_end - 1 in
            let columns_start := start_paren + 1 in
            match find_closing (skipn start_paren stmt) start_paren 0 with
            | None => None
            | Some columns_end =>
                let columns_str := slice stmt columns_start columns_end in
                let '(columns0, cur) := split_columns columns_str 0 [] [] in
                let columns :=
                  match strip cur with
                  | [] => columns0
                  | _ => columns0 ++ [strip cur]
                  end in
                let schema := fold_left parse_column columns [] in
                match schema with
                | [] => None
                | _ => Some (table_name, schema)
                end
            end
      end
  end.

Definition parse_create_table_statements (query : str)
  : list (str * schema_dict) :=
  flat_map
    (fun stmt =>
       match search create_table_kw stmt with
       | Some _ =>
           match parse_single_create_table stmt with
           | Some r => [r]
           | None => []
           end
       | None => []
       end)
    (split_sql_statements query).

Definition parse_drop_table_statements (query : str) : list str :=
  flat_map
    (fun stmt =>
       match search drop_pattern stmt with
       | Some (_, g) =>
           match group 1 g with
           | Some g1 =>
               let table_name := lower g1 in
               if mem table_name SYSTEM_TABLES then [] else [table_name]
           | None => []
           end
       | None => []
       end)
    (split_sql_statements query).

(** *** The table registry and its reconciliation *)

(** A row of [tables]; [id], [metadata] and the two timestamps play no part
    in reconciliation and are left out. *)
Record table_row : Type := mkTable {
  t_name : str;
  t_schema : schema_dict;
  t_public : bool;
  t_owner : UUID;
  t_description : str;
  t_row_count : Z
}.

Definition registry : Type := list table_row.

(** [SELECT ... FROM tables WHERE name = %s] followed by [fetchone()]. *)
Definition find_table (name : str) (reg : registry) : option table_row :=
  List.find (fun r => str_eqb (t_name r) name) reg.

(** The row [register_table_metadata] inserts: private, owned by the
    caller. *)
Definition fresh_row (name : str) (sc : schema_dict) (owner : UUID) : table_row :=
  mkTable name sc false owner (py "Table created via SQL Editor") 0.

(** [register_table_metadata]; [raised] tells whether one of its statements
    or its commit raised, in which case the helper rolls back. *)
Definition register_table_metadata (raised : bool) (reg : registry)
           (table_name : str) (table_schema : schema_dict) (owner_id : UUID)
  : registry :=
  if raised then reg
  else
    match find_table table_name reg with
    | Some _ => reg
    | None => reg ++ [fresh_row table_name table_schema owner_id]
    end.

(** [unregister_table_metadata], with [raised] as above. *)
Definition unregister_table_metadata (raised : bool) (reg : registry)
           (table_name : str) : registry :=
  if raised then reg
  else List.filter (fun r => negb (str_eqb (t_name r) table_name)) reg.

Definition is_read_only_query (query : str) : bool :=
  let query_stripped := lower (strip query) in
  existsb (fun p => startswith query_stripped (py p))
          [ "select"; "explain"; "show"; "describe"; "with" ]%string.

(** What the [try] block did up to the two loops, and the rows of [tables]
    it left behind.  Either [cur.execute(query)], the fetch or the commit
    raised, and [tables] holds the rows that are committed once the handler
    has answered; or [cur.execute(query)] ran and left the cursor with or
    without a result description and with a row count, and [tables] as the
    statements of the query left it. *)
Inductive exec_outcome : Type :=
| ExecRaised (error_msg : str) (tables : registry)
| ExecRan (has_description : bool) (rowcount : Z) (tables : registry).

(** The rows of [tables] once the query's own statements have run. *)
Definition tables_left (outcome : exec_outcome) : registry :=
  match outcome with
  | ExecRaised _ tables => tables
  | ExecRan _ _ tables => tables
  end.

(** The fields of [SqlExecutionResult] that the handler decides. *)
Inductive sql_response : Type :=
| SqlError (status : nat) (detail : str)
| SqlOk (is_read_only : bool) (row_count : Z).

(** [for table_name, table_schema in create_table_infos: ...]; [raises i]
    tells whether the call number [i] to one of the two helpers raises,
    calls being counted from [call] on. *)
Fixpoint register_all (raises : nat -> bool) (call : nat) (owner : UUID)
         (l : list (str * schema_dict)) (reg : registry) : registry :=
  match l with
  | [] => reg
  | (table_name, table_schema) :: l' =>
      register_all raises (S call) owner l'
        (register_table_metadata (raises call) reg table_name table_schema
                                 owner)
  end.

(** [for dropped_table in dropped_tables: ...] *)
Fixpoint unregister_all (raises : nat -> bool) (call : nat) (l : list str)
         (reg : registry) : registry :=
  match l with
  | [] => reg
  | dropped_table :: l' =>
      unregister_all raises (S call) l'
        (unregister_table_metadata (raises call) reg dropped_table)
  end.

(** The two reconciliation loops of [execute_query]. *)
Definition reconcile (raises : nat -> bool) (query : str) (owner : UUID)
           (reg : registry) : registry :=
  let create_table_infos := parse_create_table_statements query in
  unregister_all raises (length create_table_infos)
                 (parse_drop_table_statements query)
                 (register_all raises 0 owner create_table_infos reg).

(** [execute_query] from [cur.execute] on, for a query that passed
    [validate_query_security]; [fetched] is [len(data)] of a read.  The
    second component is [tables] when the request is over. *)
Definition execute_query (request_query : str) (current_user : UUID)
           (outcome : exec_outcome) (fetched : Z) (raises : nat -> bool)
  : sql_response * registry :=
  let query := strip request_query in
  let is_read_only := is_read_only_query query in
  match outcome with
  | ExecRaised error_msg tables => (SqlError 400 error_msg, tables)
  | ExecRan has_description rowcount tables =>
      if is_read_only && has_description then (SqlOk true fetched, tables)
      else
        let row_count := if (0 <=? rowcount)%Z then rowcount else 0%Z in
        (SqlOk false row_count, reconcile raises query current_user tables)
  end.

End Sql.

(* ===================================================================== *)
(** ** backend/security.py and endpoints/users.py: refresh tokens *)
(* ===================================================================== *)

Module Tokens.

(** A row of [refresh_tokens]. *)
Record token_row : Type := mkToken {
  rt_user_id : UUID;
  rt_token_hash : str;
  rt_expires_at : instant;
  rt_revoked_at : option instant
}.

Record database : Type := mkDb {
  refresh_tokens : list token_row;
  users : list user_row
}.

(** The claims of an access token ([create_access_token]). *)
Record access_token : Type := mkAccess {
  at_sub : UUID;
  at_role : role;
  at_exp : instant
}.

Record TokenPair : Type := mkPair {
  tp_access_token : access_token;
  tp_refresh_token : str;
  tp_expires_in : Z
}.

Definition is_unrevoked (r : token_row) : bool :=
  match rt_revoked_at r with None => true | Some _ => false end.

Section WithSettings.

(** [hash_token]: SHA-256, hex encoded. *)
Variable hash_token : str -> str.
Variable ACCESS_TOKEN_EXPIRE_MINUTES : Z.
Variable REFRESH_TOKEN_EXPIRE_DAYS : Z.

Definition minutes (n : Z) : Z := (n * 60 * 1000000)%Z.
Definition days (n : Z) : Z := (n * 86400 * 1000000)%Z.

(** [create_refresh_token]; [raw_token] is what [generate_refresh_token]
    drew. *)
Definition create_refresh_token (d : database) (user_id : UUID)
           (raw_token : str) (now : instant) : str * database :=
  (raw_token,
   mkDb (refresh_tokens d
           ++ [mkToken user_id (hash_token raw_token)
                       (now + days REFRESH_TOKEN_EXPIRE_DAYS)%Z None])
        (users d)).

Definition validate_refresh_token (d : database) (refresh_token : str)
           (now : instant) : option UUID :=
  let token_hash := hash_token refresh_token in
  match List.find (fun r => str_eqb (rt_token_hash r) token_hash)
                  (refresh_tokens d) with
  | None => None
  | Some row =>
      match rt_revoked_at row with
      | Some _ => None
      | None =>
          if (rt_expires_at row <? now)%Z then None
          else Some (rt_user_id row)
      end
  end.

(** [UPDATE refresh_tokens SET revoked_at = CURRENT_TIMESTAMP WHERE ...]:
    the rows satisfying [cond] are stamped, the others are left alone. *)
Definition revoke_where (cond : token_row -> bool) (now : instant)
           (rows : list token_row) : list token_row :=
  map (fun r =>
         if cond r
         then mkToken (rt_user_id r) (rt_token_hash r) (rt_expires_at r)
                      (Some now)
         else r) rows.

(** The rows an UPDATE with that WHERE clause affects. *)
Definition affected (cond : token_row -> bool) (rows : list token_row)
  : list token_row := List.filter cond rows.

Definition revoke_all_user_tokens (d : database) (user_id : UUID)
           (now : instant) : nat * database :=
  let cond := fun r => N.eqb (rt_user_id r) user_id && is_unrevoked r in
  (length (affected cond (refresh_tokens d)),
   mkDb (revoke_where cond now (refresh_tokens d)) (users d)).

(** [WHERE token_hash = %s AND revoked_at IS NULL], the condition of the
    two UPDATEs that revoke one token. *)
Definition presented (refresh_token : str) (r : token_row) : bool :=
  str_eqb (rt_token_hash r) (hash_token refresh_token) && is_unrevoked r.

Definition revoke_refresh_token (d : database) (refresh_token : str)
           (now : instant) : bool * database :=
  (0 <? length (affected (presented refresh_token) (refresh_tokens d)),
   mkDb (revoke_where (presented refresh_token) now (refresh_tokens d)) (users d)).

Definition rotate_refresh_token (d : database) (old_refresh_token : str)
           (user_id : UUID) (raw_token : str) (now : instant)
  : option str * database :=
  match affected (presented old_refresh_token) (refresh_tokens d) with
  | [] =>
      (* already revoked or unknown: revoke all tokens of the user *)
      (None, snd (revoke_all_user_tokens d user_id now))
  | _ :: _ =>
      let d1 := mkDb (revoke_where (presented old_refresh_token) now
                                   (refresh_tokens d)) (users d) in
      let '(t, d2) := create_refresh_token d1 user_id raw_token now in
      (Some t, d2)
  end.

Definition create_access_token (sub : UUID) (r : role) (now : instant)
  : access_token :=
  mkAccess sub r (now + minutes ACCESS_TOKEN_EXPIRE_MINUTES)%Z.

(** [POST /users/token/refresh].  Statements of other requests may commit
    between this handler's reads and its conditional UPDATE (read
    committed): [others] is their effect, the identity for a request that
    runs alone. *)
Definition refresh_access_token (body_refresh_token : str) (raw_token : str)
           (now : instant) (others : database -> database) (d : database)
  : reply TokenPair * database :=
  match validate_refresh_token d body_refresh_token now with
  | None => (HTTPException 401 (py "Invalid or expired refresh token"), d)
  | Some user_id =>
      match user_by_id user_id (users d) with
      | None => (HTTPException 401 (py "User not found"), d)
      | Some user =>
          if negb (u_is_active user)
          then (HTTPException 400 (py "Inactive user"), d)
          else
            match rotate_refresh_token (others d) body_refresh_token user_id
                                       raw_token now with
            | (None, d') =>
                (HTTPException 401
                   (py "Token reuse detected. All sessions revoked."), d')
            | (Some new_refresh_token, d') =>
                (Return (mkPair (create_access_token (u_id user) (u_role user) now)
                                new_refresh_token
                                (ACCESS_TOKEN_EXPIRE_MINUTES * 60)%Z), d')
            end
      end
  end.

(** The refresh tokens of a user that are still live. *)
Definition live_tokens (d : database) (user_id : UUID) (now : instant)
  : list token_row :=
  List.filter (fun r => N.eqb (rt_user_id r) user_id && is_unrevoked r
                        && negb (rt_expires_at r <? now)%Z)
              (refresh_tokens d).

End WithSettings.

End Tokens.

(* ===================================================================== *)
(** ** backend/security.py: the required and the optional resolver *)
(* ===================================================================== *)

Module Auth.

(** What [jwt.decode] does with a token: it raises [InvalidTokenError]
    (malformed, badly signed, expired), raises something else, or returns
    the payload, of which the handlers read [sub]. *)
Inductive decoded : Type :=
| InvalidTokenError
| OtherDecodeError
| Payload (sub : option str).

(** Exceptions that travel through the resolvers. *)
Inductive exn : Type :=
| EHttp (status_code : nat) (detail : str)
| EInvalidToken
| EOther.

(** A computation that returns or raises. *)
Inductive comp (A : Type) : Type :=
| Ok (a : A)
| Raise (e : exn).
Arguments Ok {A} a.
Arguments Raise {A} e.

Definition bind {A B : Type} (m : comp A) (f : A -> comp B) : comp B :=
  match m with
  | Ok a => f a
  | Raise e => Raise e
  end.

Notation "'let*' x ':=' m 'in' k" := (bind m (fun x => k))
  (at level 10, x name, m at level 100, k at level 200).

Section WithJwt.

(** [jwt.decode(token, SECRET_KEY, algorithms=[ALGORITHM])] *)
Variable jwt_decode : str -> decoded.
(** [UUID(s)]: [None] when it raises [ValueError]. *)
Variable parse_uuid : str -> option UUID.

Definition decode (token : str) : comp (option str) :=
  match jwt_decode token with
  | InvalidTokenError => Raise EInvalidToken
  | OtherDecodeError => Raise EOther
  | Payload sub => Ok sub
  end.

Definition to_uuid (s : str) : comp UUID :=
  match parse_uuid s with
  | Some u => Ok u
  | None => Raise EOther
  end.

Definition credentials_exception : exn :=
  EHttp 401 (py "Could not validate credentials").

(** [get_current_user]: only [InvalidTokenError] is caught, around the
    decoding. *)
Definition get_current_user (token : str) (users : list user_row)
  : comp user_row :=
  let* user_id :=
    match (let* sub := decode token in
           match sub with
           | None => Raise credentials_exception
           | Some user_id => Ok user_id
           end) with
    | Raise EInvalidToken => Raise credentials_exception
    | r => r
    end in
  let* id := to_uuid user_id in
  match user_by_id id users with
  | None => Raise credentials_exception
  | Some record => Ok record
  end.

Definition get_current_active_user (token : str) (users : list user_row)
  : comp user_row :=
  let* user := get_current_user token users in
  if negb (u_is_active user) then Raise (EHttp 400 (py "Inactive user"))
  else Ok user.

(** [get_optional_current_user]: the whole body sits in a [try] whose
    handler catches [Exception]. *)
Definition get_optional_current_user (token : option str)
           (users : list user_row) : comp (option user_row) :=
  match token with
  | None | Some [] => Ok None
  | Some tok =>
      match (let* sub := decode tok in
             match sub with
             | None => Ok None
             | Some user_id =>
                 let* id := to_uuid user_id in
                 match user_by_id id users with
                 | None => Ok None
                 | Some user =>
                     if negb (u_is_active user) then Ok None
                     else Ok (Some user)
                 end
             end) with
      | Ok r => Ok r
      | Raise _ => Ok None
      end
  end.

End WithJwt.

End Auth.

(* ===================================================================== *)
(** ** endpoints/tables.py: row PATCH and DELETE *)
(* ===================================================================== *)

Module Rows.

(** A column value: NULL or a text. *)
Definition value : Type := option str.

(** A row of a dynamic table, column name to value. *)
Definition row : Type := list (str * value).

(** One conjunct [column = %s] of a WHERE clause with its parameter;
    [w_quoted] tells whether the f-string wraps the column in double
    quotes. *)
Record where_item : Type := mkWhere {
  w_column : str;
  w_quoted : bool;
  w_param : str
}.

Inductive statement : Type :=
| Update (table : str) (sets : list (str * value)) (where_ : list where_item)
| Delete (table : str) (where_ : list where_item).

Definition where_of (s : statement) : list where_item :=
  match s with
  | Update _ _ w => w
  | Delete _ w => w
  end.

Definition quoted (s : str) : str := [DQ] ++ s ++ [DQ].

Definition render_where (w : list where_item) : str :=
  join (py " AND ")
       (map (fun i => (if w_quoted i then quoted (w_column i) else w_column i)
                      ++ py " = %s") w).

(** The SQL text the handler's f-string produces. *)
Definition render (s : statement) : str :=
  match s with
  | Update t sets w =>
      py "UPDATE " ++ quoted t ++ py " SET "
      ++ join (py ", ") (map (fun kv => quoted (fst kv) ++ py " = %s") sets)
      ++ py " WHERE " ++ render_where w ++ py " RETURNING *"
  | Delete t w =>
      py "DELETE FROM " ++ quoted t ++ py " WHERE " ++ render_where w
  end.

(** The parameter tuple passed along with the text. *)
Definition params (s : statement) : list value :=
  match s with
  | Update _ sets w => map snd sets ++ map (fun i => Some (w_param i)) w
  | Delete _ w => map (fun i => Some (w_param i)) w
  end.

(** What [db.execute] does with a statement: it raises (an undefined
    column, a value that does not cast to the column's type, a syntax
    error, ...), or it runs and affects these rows: the ones
    [RETURNING *] yields for an UPDATE, [rowcount] of them for a DELETE. *)
Inductive db_result : Type :=
| DbError (message : str)
| DbDone (affected : list row).

Section WithDatabase.

(** [str(current_user.id)] *)
Variable uuid_str : UUID -> str.

(** [await db.execute(sql, params)]: the database reads the text of the
    statement, with the parameters bound to its placeholders. *)
Variable db_execute : str -> list value -> db_result.

(** [strip_name] and [strip_dict_keys] *)
Definition strip_name (name : str) : str :=
  match name with [] => name | _ => strip name end.

Definition strip_dict_keys (data : list (str * value)) : list (str * value) :=
  fold_left (fun acc kv => dict_set (strip_name (fst kv)) (snd kv) acc) data [].

(** The WHERE clause both handlers build. *)
Definition build_where (id_column row_id : str) (current_user : user_row)
  : list where_item :=
  if role_eqb (u_role current_user) ADMIN
  then [ mkWhere id_column true row_id ]
  else [ mkWhere id_column true row_id;
         mkWhere (py "user_id") false (uuid_str (u_id current_user)) ].

Definition update_statement (table_name row_id : str)
           (updates : list (str * value)) (id_column : str)
           (current_user : user_row) : statement :=
  Update table_name (strip_dict_keys updates)
         (build_where id_column row_id current_user).

Definition delete_statement (table_name row_id id_column : str)
           (current_user : user_row) : statement :=
  Delete table_name (build_where id_column row_id current_user).

Inductive row_response : Type :=
| RowUpdated (data : row)
| RowDeleted (row_id : str).

(** [PATCH /tables/{table_id}/data/{row_id}] on the table called
    [table_name]; [id_column] is the query parameter of that name, [id]
    when absent.  [bookkeeping] is the text of the exception that the
    UPDATE of [tables] or the commit raises, if one does.  The second
    component tells whether the request was committed. *)
Definition update_row (table_name row_id : str)
           (updates : list (str * value)) (id_column : str)
           (current_user : user_row) (bookkeeping : option str)
  : reply row_response * bool :=
  match updates with
  | [] => (HTTPException 400 (py "Update data cannot be empty"), false)
  | _ =>
      let s := update_statement table_name row_id updates id_column
                                current_user in
      match db_execute (render s) (params s) with
      | DbError e => (HTTPException 400 e, false)
      | DbDone [] =>
          (HTTPException 404
             (py "Row not found or you don't have permission to update it"),
           false)
      | DbDone (updated_row :: _) =>
          match bookkeeping with
          | Some e => (HTTPException 400 e, false)
          | None => (Return (RowUpdated updated_row), true)
          end
      end
  end.

(** [DELETE /tables/{table_id}/data/{row_id}] *)
Definition delete_row (table_name row_id id_column : str)
           (current_user : user_row) (bookkeeping : option str)
  : reply row_response * bool :=
  let s := delete_statement table_name row_id id_column current_user in
  match db_execute (render s) (params s) with
  | DbError e => (HTTPException 400 e, false)
  | DbDone [] =>
      (HTTPException 404
         (py "Row not found or you don't have permission to delete it"),
       false)
  | DbDone (_ :: _) =>
      match bookkeeping with
      | Some e => (HTTPException 400 e, false)
      | None => (Return (RowDeleted row_id), true)
      end
  end.

End WithDatabase.

End Rows.

(* ===================================================================== *)
(** ** endpoints/users.py: create_user *)
(* ===================================================================== *)

Module Users.

(** The body of [POST /users/] (models/user.py, [UserCreate]). *)
Record UserCreate : Type := mkCreate {
  c_email : str;
  c_first_name : str;
  c_last_name : str;
  c_password : str
}.

Inductive insert_result : Type :=
| UniqueViolation
| Inserted (users : list user_row).

(** [INSERT INTO users ...]: [id] is the primary key and [email] is
    unique. *)
Definition insert_user (u : user_row) (users : list user_row) : insert_result :=
  if existsb (fun v => N.eqb (u_id v) (u_id u) || str_eqb (u_email v) (u_email u))
             users
  then UniqueViolation
  else Inserted (users ++ [u]).

Section WithHash.

(** [get_password_hash] *)
Variable get_password_hash : str -> str.

(** [create_user]; [user_id] is what [uuid.uuid4()] drew.  The route
    answers 201 whenever the handler returns. *)
Definition create_user (user : UserCreate) (user_id : UUID)
           (users : list user_row) : reply user_row * list user_row :=
  let hashed_password := get_password_hash (c_password user) in
  match insert_user (mkUser user_id (c_email user) hashed_password
                            (c_first_name user) (c_last_name user) USER true)
                    users with
  | Inserted users' =>
      match user_by_id user_id users' with
      | Some created_record => (Return created_record, users')
      | None => (HTTPException 500 (py "created row not found"), users')
      end
  | UniqueViolation =>
      match user_by_email (c_email user) users with
      | Some existing => (Return existing, users)
      | None => (HTTPException 409 (py "Email already taken"), users)
      end
  end.

End WithHash.

End Users.

(* ===================================================================== *)
(** ** endpoints/files.py: duplicate file names *)
(* ===================================================================== *)

Module Files.

Import Re.

(** A row of [files]; the columns the name resolution reads or writes. *)
Record file_row : Type := mkFile {
  f_bucket_id : UUID;
  f_name : str;
  f_path : str;
  f_size : Z;
  f_is_latest : bool;
  f_deleted_at : option instant
}.

Record bucket_row : Type := mkBucket {
  b_id : UUID;
  b_name : str;
  b_public : bool;
  b_file_count : Z;
  b_total_size : Z
}.

(** [is_latest = TRUE AND deleted_at IS NULL] *)
Definition live (f : file_row) : bool :=
  f_is_latest f && match f_deleted_at f with None => true | Some _ => false end.

Definition live_in (bucket_id : UUID) (f : file_row) : bool :=
  N.eqb (f_bucket_id f) bucket_id && live f.

(** PostgreSQL's [LIKE] with the default escape character: [%] is any
    run, [_] any one character, a backslash makes the next character
    literal. *)
Fixpoint like (p t : str) {struct p} : bool :=
  match p with
  | [] => match t with [] => true | _ :: _ => false end
  | c :: p' =>
      if chr_eqb c "%" then
        (fix any (u : str) : bool :=
           like p' u || match u with [] => false | _ :: u' => any u' end) t
      else if chr_eqb c "_" then
        match t with _ :: t' => like p' t' | [] => false end
      else if chr_eqb c BSL then
        match p' with
        | e :: p'' =>
            match t with x :: t' => chr_eqb e x && like p'' t' | [] => false end
        | [] => false
        end
      else
        match t with x :: t' => chr_eqb c x && like p' t' | [] => false end
  end.

(** A pattern must not end with a lone escape character: PostgreSQL raises
    when its matcher gets there; here such a pattern is refused at once. *)
Fixpoint like_well_formed (p : str) : bool :=
  match p with
  | [] => true
  | c :: p' =>
      if chr_eqb c BSL then
        match p' with
        | [] => false
        | _ :: p'' => like_well_formed p''
        end
      else like_well_formed p'
  end.

(** [directory, filename] and [base_name, ext] of a path. *)
Definition split_directory (original_path : str) : str * str :=
  match rsplit1 "/" original_path with
  | Some (d, f) => (d ++ py "/", f)
  | None => ([], original_path)
  end.

Definition split_extension (filename : str) : str * str :=
  match rsplit1 "." filename with
  | Some (b, e) => (b, py "." ++ e)
  | None => (filename, [])
  end.

(** [re.escape(directory + base_name) + (?:\s*\((\d+)\))? + re.escape(ext) + $] *)
Definition name_pattern (prefix ext : str) : re :=
  seq [ lit prefix;
        Opt (seq [sp; chr "("; Grp 1 (plus is_digit); chr ")"]);
        lit ext; Eol ].

(** The number a matching path uses: its digits, or 0 for the original. *)
Definition used_number (prefix ext f : str) : option N :=
  match rmatch (name_pattern prefix ext) f with
  | Some (_, g) =>
      match group 1 g with
      | Some num => Some (int_of_digits num)
      | None => Some 0%N
      end
  | None => None
  end.

(** [while next_num in used_numbers: next_num += 1]; the set is finite, so
    one more iteration than it has elements is enough. *)
Fixpoint next_free (fuel : nat) (used : list N) (next_num : N) : N :=
  match fuel with
  | 0 => next_num
  | S f =>
      if existsb (N.eqb next_num) used then next_free f used (next_num + 1)%N
      else next_num
  end.

Definition omap_list {A B : Type} (f : A -> option B) (l : list A) : list B :=
  flat_map (fun a => match f a with Some b => [b] | None => [] end) l.

(** The paths the second query returns. *)
Definition existing_files (bucket_id : UUID) (pattern : str)
           (files : list file_row) : list str :=
  map f_path
      (List.filter (fun f => live_in bucket_id f && like pattern (f_path f)) files).

Definition used_numbers (bucket_id : UUID) (original_path : str)
           (files : list file_row) : list N :=
  let '(directory, filename) := split_directory original_path in
  let '(base_name, ext) := split_extension filename in
  omap_list (used_number (directory ++ base_name) ext)
            (existing_files bucket_id (directory ++ base_name ++ py "%" ++ ext)
                            files).

Inductive lookup_result : Type :=
| LikeError
| Found (path : str).

Definition find_next_available_filename (bucket_id : UUID)
           (original_path : str) (files : list file_row) : lookup_result :=
  if negb (existsb (fun f => live_in bucket_id f && str_eqb (f_path f) original_path)
                   files)
  then Found original_path
  else
    let '(directory, filename) := split_directory original_path in
    let '(base_name, ext) := split_extension filename in
    let pattern := directory ++ base_name ++ py "%" ++ ext in
    if negb (like_well_formed pattern) then LikeError
    else
      let used := used_numbers bucket_id original_path files in
      let next_num := next_free (S (length used)) used 1%N in
      Found (directory ++ base_name ++ py " (" ++ dec next_num ++ py ")" ++ ext).

(** [strip_name] *)
Definition strip_name (name : str) : str :=
  match name with [] => name | _ => strip name end.

Definition or_else (a b : str) : str := match a with [] => b | _ => a end.

(** [strip_name(path or filename or unnamed)]: the path a request asks
    for. *)
Definition requested_path (filename : str) (path : option str) : str :=
  strip_name (or_else (match path with Some p => p | None => [] end)
                      (or_else filename (py "unnamed"))).

Record FileUploadResponse : Type := mkUploaded {
  r_path : str;
  r_size : Z;
  r_original_path : option str
}.

(** [POST /storage/files/upload]: [storage_size] is the size the storage
    worker reports, [None] when the call to the worker raises. *)
Definition upload_file (bucket : bucket_row) (filename : str)
           (path : option str) (authenticated : bool)
           (storage_size : option Z) (files : list file_row)
  : reply FileUploadResponse * (bucket_row * list file_row) :=
  if negb (b_public bucket) && negb authenticated
  then (HTTPException 401 (py "Authentication required for private buckets"),
        (bucket, files))
  else
    let initial_path := requested_path filename path in
    match find_next_available_filename (b_id bucket) initial_path files with
    | LikeError => (HTTPException 500 (py "Internal Server Error"), (bucket, files))
    | Found target_path =>
        match storage_size with
        | None => (HTTPException 500 (py "storage upload failed"), (bucket, files))
        | Some file_size =>
            (Return (mkUploaded target_path file_size
                       (if str_eqb target_path initial_path then None
                        else Some initial_path)),
             (mkBucket (b_id bucket) (b_name bucket) (b_public bucket)
                       (b_file_count bucket + 1) (b_total_size bucket + file_size),
              files ++ [mkFile (b_id bucket) (last_segment "/" target_path)
                               target_path file_size true None]))
        end
    end.

(** *** The spelling of a numbered path *)

(** [r] is the extension, up to a final line feed. *)
Definition tail_ok (ext r : str) : bool :=
  startswith r ext && at_end (skipn (length ext) r).

(** The digits of [r], and what follows the extension, when [r] reads:
    whitespace, an opening parenthesis, digits, a closing parenthesis, the
    extension. *)
Definition numbered_suffix (ext r : str) : option (str * str) :=
  match drop_while is_space r with
  | c :: r2 =>
      if chr_eqb "(" c then
        match r2 with
        | d :: r3 =>
            if is_digit d then
              match drop_while is_digit r3 with
              | e :: r4 =>
                  if chr_eqb ")" e && tail_ok ext r4
                  then Some (d :: take_while is_digit r3, skipn (length ext) r4)
                  else None
              | [] => None
              end
            else None
        | [] => None
        end
      else None
  | [] => None
  end.

(** The optional group of [name_pattern]. *)
Definition number_group : re :=
  seq [sp; chr "("; Grp 1 (plus is_digit); chr ")"].

(** [p] is the prefix, whitespace, a parenthesised decimal spelling of [k],
    the extension and [tail]. *)
Definition numbered (prefix ext p : str) (k : N) (tail : str) : Prop :=
  exists ws ds,
    p = prefix ++ ws ++ py "(" ++ ds ++ py ")" ++ ext ++ tail
    /\ forallb is_space ws = true
    /\ ds <> []
    /\ forallb is_digit ds = true
    /\ int_of_digits ds = k.

(** A path counts for the number [k] when it is numbered [k], or when it is
    numbered [k] up to a final line feed and passes the [LIKE] filter of
    the second query. *)
Definition uses_number (prefix ext p : str) (k : N) : Prop :=
  numbered prefix ext p k []
  \/ (numbered prefix ext p k [NL]
      /\ like (prefix ++ py "%" ++ ext) p = true).

(** A text without the escape character of LIKE. *)
Definition no_backslash (s : str) : bool :=
  forallb (fun c => negb (chr_eqb c BSL)) s.

End Files.

(* ===================================================================== *)
(** ** storage/endpoints/files.py: the worker's upload *)
(* ===================================================================== *)

Module Storage.

Definition bytes : Type := list Byte.byte.

(** The blob store: regular files by absolute path, and directories. *)
Record filesystem : Type := mkFs {
  fs_files : gmap (list ascii) bytes;
  fs_dirs : gset (list ascii)
}.

(** The file-system calls the handler makes, in order. *)
Inductive syscall : Type :=
| Makedirs (d : str)
| Mkstemp (p : str)
| Write (p : str) (chunk : bytes)
| Unlink (p : str)
| Replace (src dst : str).

(** The handler's view of the world: the store and the calls so far. *)
Record world : Type := mkWorld {
  w_fs : filesystem;
  w_trace : list syscall
}.

Definition log (c : syscall) (w : world) : list syscall := w_trace w ++ [c].

(** [Path.parent] *)
Definition parent (p : str) : str :=
  match rsplit1 "/" p with
  | Some (d, _) => d
  | None => py "."
  end.

(** [Path.name] *)
Definition name_of (p : str) : str := last_segment "/" p.

(** The directory and all its ancestors. *)
Fixpoint ancestors (fuel : nat) (d : str) : list str :=
  match fuel with
  | 0 => [d]
  | S f =>
      match rsplit1 "/" d with
      | Some (up, _) => d :: ancestors f up
      | None => [d]
      end
  end.

(** [makedirs(d, exist_ok=True)] *)
Definition sys_makedirs (d : str) (w : world) : world :=
  mkWorld (mkFs (fs_files (w_fs w))
                (list_to_set (ancestors (length d) d) ∪ fs_dirs (w_fs w)))
          (log (Makedirs d) w).

(** [NamedTemporaryFile(dir=..., delete=False, suffix='.tmp')]: a new,
    empty file. *)
Definition sys_mkstemp (p : str) (w : world) : world :=
  mkWorld (mkFs (<[p := []]> (fs_files (w_fs w))) (fs_dirs (w_fs w)))
          (log (Mkstemp p) w).

(** [tmp.write(chunk)] *)
Definition sys_write (p : str) (chunk : bytes) (w : world) : world :=
  mkWorld (mkFs (alter (fun old => old ++ chunk) p (fs_files (w_fs w)))
                (fs_dirs (w_fs w)))
          (log (Write p chunk) w).

(** [os.unlink(p)]; a missing file is the caller's [FileNotFoundError]. *)
Definition sys_unlink (p : str) (w : world) : world :=
  mkWorld (mkFs (delete p (fs_files (w_fs w))) (fs_dirs (w_fs w)))
          (log (Unlink p) w).

(** [os.replace(src, dst)]: one atomic rename. *)
Definition sys_replace (src dst : str) (w : world) : world :=
  match fs_files (w_fs w) !! src with
  | Some content =>
      mkWorld (mkFs (<[dst := content]> (delete src (fs_files (w_fs w))))
                    (fs_dirs (w_fs w)))
              (log (Replace src dst) w)
  | None => mkWorld (w_fs w) (log (Replace src dst) w)
  end.

(** A call that raises: it is made, and leaves the store as it was. *)
Definition sys_failed (c : syscall) (w : world) : world :=
  mkWorld (w_fs w) (log c w).

(** [os.makedirs] that raises after having created the directories
    [created]. *)
Definition sys_makedirs_failed (d : str) (created : list str) (w : world)
  : world :=
  mkWorld (mkFs (fs_files (w_fs w)) (list_to_set created ∪ fs_dirs (w_fs w)))
          (log (Makedirs d) w).

(** The directory, or one of its ancestors, is a regular file. *)
Definition blocked (fs : filesystem) (d : str) : bool :=
  existsb (fun a => bool_decide (is_Some (fs_files fs !! a)))
          (ancestors (length d) d).

(** The path names a directory: [os.replace] onto it raises. *)
Definition is_directory (w : world) (p : str) : bool :=
  bool_decide (p ∈ fs_dirs (w_fs w)).

(** Where the disk fails during one upload, beyond what the store itself
    forces: [os.makedirs] raises after having created some directories,
    [NamedTemporaryFile] raises, [os.replace] raises. *)
Record disk : Type := mkDisk {
  makedirs_raises : option (list str);
  mkstemp_raises : bool;
  replace_raises : bool
}.

(** A request body as the handler reads it: the chunks it yields, and the
    text of the exception that reading (or writing a chunk out) raises
    after them, if one is raised. *)
Record body : Type := mkBody {
  chunks : list bytes;
  raises : option str
}.

(** Raw bytes, or a multipart form with or without its [file] field. *)
Inductive payload : Type :=
| Raw (b : body)
| Multipart (file : option body).

Record FileMetadata : Type := mkMeta {
  m_name : str;
  m_path : str;
  m_size : Z
}.

(** [async for chunk in request.stream()] *)
Fixpoint write_all (tmp : str) (cs : list bytes) (total_size : Z) (w : world)
  : Z * world :=
  match cs with
  | [] => (total_size, w)
  | chunk :: cs' =>
      write_all tmp cs' (total_size + Z.of_nat (length chunk))%Z
                (sys_write tmp chunk w)
  end.

(** [while chunk := await file.read(CHUNK_SIZE)]: stops at the first empty
    chunk. *)
Fixpoint write_until_empty (tmp : str) (cs : list bytes) (total_size : Z)
         (w : world) : Z * world * bool :=
  match cs with
  | [] => (total_size, w, false)
  | [] :: _ => (total_size, w, true)
  | chunk :: cs' =>
      write_until_empty tmp cs' (total_size + Z.of_nat (length chunk))%Z
                        (sys_write tmp chunk w)
  end.

Section WithStore.

(** [BASE_PATH] *)
Variable BASE_PATH : str.
(** [safe_join(base, part)]: the resolved path, [None] when it leaves
    [base]. *)
Variable safe_join : str -> str -> option str.
(** [str(e)] for the exception a failing call raises. *)
Variable strerror : syscall -> str.

(** The [except Exception] handler, for an exception with text [e]. *)
Definition cleanup (tmp_path : option str) (e : str) (w : world)
  : reply FileMetadata * world :=
  (HTTPException 500 (py "Upload failed: " ++ e),
   match tmp_path with
   | Some p => sys_unlink p w
   | None => w
   end).

(** [POST /files/{bucket}/{path}]; [tmp_name] is the name the temporary
    file gets, [dk] tells where the disk fails. *)
Definition upload_file (bucket path : str) (request : payload)
           (tmp_name : str) (dk : disk) (w0 : world)
  : reply FileMetadata * world :=
  let bucket_path := BASE_PATH ++ py "/" ++ bucket in
  if negb (bool_decide (bucket_path ∈ fs_dirs (w_fs w0)))
  then (HTTPException 404 (py "Bucket not found"), w0)
  else
    match safe_join bucket_path path with
    | None => (HTTPException 400 (py "Invalid path"), w0)
    | Some file_path =>
        match (if blocked (w_fs w0) (parent file_path) then Some []
               else makedirs_raises dk) with
        | Some created =>
            (* outside the [try]: the exception is not handled *)
            (HTTPException 500 (py "Internal Server Error"),
             sys_makedirs_failed (parent file_path) created w0)
        | None =>
            let w1 := sys_makedirs (parent file_path) w0 in
            let tmp_path := parent file_path ++ py "/" ++ tmp_name in
            if mkstemp_raises dk
            then cleanup None (strerror (Mkstemp tmp_path))
                         (sys_failed (Mkstemp tmp_path) w1)
            else
              let w2 := sys_mkstemp tmp_path w1 in
              let finish := fun (total_size : Z) (w : world) =>
                if (total_size =? 0)%Z then
                  (HTTPException 422 (py "File cannot be empty"),
                   sys_unlink tmp_path w)
                else if replace_raises dk || is_directory w1 file_path
                then cleanup (Some tmp_path)
                             (strerror (Replace tmp_path file_path))
                             (sys_failed (Replace tmp_path file_path) w)
                else
                  (Return (mkMeta (name_of file_path) path total_size),
                   sys_replace tmp_path file_path w) in
              match request with
              | Multipart None =>
                  (HTTPException 400 (py "No file provided in multipart form"),
                   sys_unlink tmp_path w2)
              | Multipart (Some file) =>
                  let '(total_size, w3, at_eof) :=
                    write_until_empty tmp_path (chunks file) 0 w2 in
                  match raises file with
                  | Some e =>
                      if at_eof then finish total_size w3
                      else cleanup (Some tmp_path) e w3
                  | None => finish total_size w3
                  end
              | Raw b =>
                  let '(total_size, w3) :=
                    write_all tmp_path (chunks b) 0 w2 in
                  match raises b with
                  | Some e => cleanup (Some tmp_path) e w3
                  | None => finish total_size w3
                  end
              end
        end
    end.

End WithStore.

(** *** What a request carries *)

(** The chunks of a multipart file up to its first empty read, and whether
    that read was reached. *)
Fixpoint until_empty (cs : list bytes) : list bytes * bool :=
  match cs with
  | [] => ([], false)
  | [] :: _ => ([], true)
  | c :: cs' => let '(xs, e) := until_empty cs' in (c :: xs, e)
  end.

(** The chunks of a body that arrives whole; [None] when reading it raises,
    or when a multipart form has no [file] field. *)
Definition complete_body (request : payload) : option (list bytes) :=
  match request with
  | Raw b => match raises b with Some _ => None | None => Some (chunks b) end
  | Multipart None => None
  | Multipart (Some f) =>
      let '(cs, eof) := until_empty (chunks f) in
      match raises f with
      | Some _ => if eof then Some cs else None
      | None => Some cs
      end
  end.

(** The text of the exception that breaks the body off. *)
Definition body_error (request : payload) : option str :=
  match request with
  | Raw b => raises b
  | Multipart None => None
  | Multipart (Some f) =>
      if snd (until_empty (chunks f)) then None else raises f
  end.

(** The chunks written before the body breaks off. *)
Definition written_chunks (request : payload) : list bytes :=
  match request with
  | Raw b => chunks b
  | Multipart None => []
  | Multipart (Some f) => fst (until_empty (chunks f))
  end.

Definition size_of (cs : list bytes) : Z := Z.of_nat (length (concat cs)).

(** What the handler does once the bucket exists and the path is safe,
    case by case: the reply and the calls made, in order. *)
Definition outcome_of (strerror : syscall -> str) (path : str)
           (request : payload) (tmp_name : str) (dk : disk) (w0 : world)
           (file_path : str) (out : reply FileMetadata * world) : Prop :=
  let tmp_path := parent file_path ++ py "/" ++ tmp_name in
  let mk := Makedirs (parent file_path) in
  match (if blocked (w_fs w0) (parent file_path) then Some []
         else makedirs_raises dk) with
  | Some _ =>
      fst out = HTTPException 500 (py "Internal Server Error")
      /\ w_trace (snd out) = w_trace w0 ++ [mk]
  | None =>
      let started := w_trace w0 ++ [mk; Mkstemp tmp_path] in
      if mkstemp_raises dk then
        fst out = HTTPException 500 (py "Upload failed: "
                                     ++ strerror (Mkstemp tmp_path))
        /\ w_trace (snd out) = started
      else
        match complete_body request with
        | Some cs =>
            let written := started ++ map (Write tmp_path) cs in
            if (size_of cs =? 0)%Z then
              fst out = HTTPException 422 (py "File cannot be empty")
              /\ w_trace (snd out) = written ++ [Unlink tmp_path]
            else if replace_raises dk
                    || is_directory (sys_makedirs (parent file_path) w0)
                                    file_path
            then
              fst out = HTTPException 500
                          (py "Upload failed: "
                           ++ strerror (Replace tmp_path file_path))
              /\ w_trace (snd out)
                 = written ++ [Replace tmp_path file_path; Unlink tmp_path]
            else
              fst out = Return (mkMeta (name_of file_path) path (size_of cs))
              /\ w_trace (snd out) = written ++ [Replace tmp_path file_path]
              /\ fs_files (w_fs (snd out))
                 = <[file_path := concat cs]> (fs_files (w_fs w0))
        | None =>
            fst out
            = match body_error request with
              | Some e => HTTPException 500 (py "Upload failed: " ++ e)
              | None =>
                  HTTPException 400 (py "No file provided in multipart form")
              end
            /\ w_trace (snd out)
               = started ++ map (Write tmp_path) (written_chunks request)
                         ++ [Unlink tmp_path]
        end
  end.

End Storage.

(* ===================================================================== *)
(** ** backend/endpoints/functions.py: execution callbacks *)
(* ===================================================================== *)

Module Functions.

(** A row of [functions]; the columns the callback reads or writes. *)
Record function_row : Type := mkFunction {
  fn_id : UUID;
  fn_name : str;
  fn_owner_id : UUID;
  execution_count : Z;
  execution_success_count : Z;
  execution_error_count : Z;
  avg_execution_time_ms : option Z;
  last_executed_at : option instant
}.

Record execution_row : Type := mkExecution {
  ex_id : UUID;
  ex_function_id : UUID;
  ex_trigger_type : str;
  ex_status : str;
  ex_duration_ms : Z
}.

Record log_row : Type := mkLog {
  lg_execution_id : UUID;
  lg_level : str;
  lg_message : str
}.

Record database : Type := mkDb {
  functions : list function_row;
  function_executions : list execution_row;
  function_logs : list log_row
}.

(** *** Python floats *)

(** A [float]: binary64. *)
Definition float : Type := spec_float.
Definition prec : Z := 53.
Definition emax : Z := 1024.

(** [x + y] and [x / y] on floats, rounded to nearest, ties to even. *)
Definition fadd (x y : float) : float := SFadd prec emax x y.
Definition fdiv (x y : float) : float := SFdiv prec emax x y.

(** The float [m * 2 ** e], rounded. *)
Definition float_of (m e : Z) : float := binary_normalize prec emax m e false.

(** What the arithmetic on the reported time can raise: [x / 0],
    [float(n)] for an [n] beyond the largest float, [int(inf)],
    [int(nan)]. *)
Inductive arith_error : Type :=
| ZeroDivisionError
| OverflowError_int_too_large
| OverflowError_infinity
| ValueError_nan.

Inductive computed (A : Type) : Type :=
| Value (a : A)
| Raised (e : arith_error).
Arguments Value {A} a.
Arguments Raised {A} e.

(** [float(n)], as the mixed operations do it: correctly rounded. *)
Definition float_of_int (n : Z) : computed float :=
  match float_of n 0 with
  | S754_infinity _ => Raised OverflowError_int_too_large
  | x => Value x
  end.

(** [int(x)]: truncation towards zero. *)
Definition int_of (x : float) : computed Z :=
  match x with
  | S754_zero _ => Value 0%Z
  | S754_finite s m e =>
      let magnitude := match e with
                       | Zneg k => Z.shiftr (Zpos m) (Zpos k)
                       | _ => Z.shiftl (Zpos m) e
                       end in
      Value (if s then Z.opp magnitude else magnitude)
  | S754_infinity _ => Raised OverflowError_infinity
  | S754_nan => Raised ValueError_nan
  end.

Definition is_zero (x : float) : bool :=
  match x with S754_zero _ => true | _ => false end.

(** The rational a finite float stands for. *)
Definition Q_of_float (x : float) : Q :=
  match x with
  | S754_finite s m e =>
      (inject_Z (if s then Zneg m else Zpos m) * Qpower 2 e)%Q
  | _ => 0%Q
  end.

(** The request body (models/function.py, [ExecutionResultRequest]). *)
Record ExecutionResultRequest : Type := mkResult {
  success : bool;
  logs : list str;
  execution_time_ms : float;
  delivery_id : option str
}.

Definition is_ascii (s : str) : bool := forallb (fun c => code c <? 128) s.

Definition log_level (l : str) : str :=
  if startswith l (py "[ERROR]") then py "error"
  else if startswith l (py "[WARN]") then py "warn"
  else py "info".

Inductive callback_response : Type :=
| Received (execution_id : UUID)
| ReceivedWarning (warning : str).

(** [(total_time + result.execution_time_ms) / new_count]: the two
    integers are converted to floats, then the division checks for zero. *)
Definition mean (total_time : Z) (new_time : float) (new_count : Z)
  : computed float :=
  match float_of_int total_time with
  | Raised e => Raised e
  | Value ft =>
      match float_of_int new_count with
      | Raised e => Raised e
      | Value fc =>
          if is_zero fc then Raised ZeroDivisionError
          else Value (fdiv (fadd ft new_time) fc)
      end
  end.

(** The new running average. *)
Definition new_average (fn_record : function_row)
           (result : ExecutionResultRequest) : computed Z :=
  let new_count := (execution_count fn_record + 1)%Z in
  let old_avg := match avg_execution_time_ms fn_record with
                 | Some a => a
                 | None => 0%Z
                 end in
  if (old_avg =? 0)%Z then int_of (execution_time_ms result)
  else
    let total_time := (old_avg * execution_count fn_record)%Z in
    match mean total_time (execution_time_ms result) new_count with
    | Raised e => Raised e
    | Value q => int_of q
    end.

(** [UPDATE functions SET ... WHERE id = %s] *)
Definition update_metrics (function_id : UUID)
           (new_count new_success new_error new_avg : Z) (now : instant)
           (fns : list function_row) : list function_row :=
  map (fun f =>
         if N.eqb (fn_id f) function_id
         then mkFunction (fn_id f) (fn_name f) (fn_owner_id f) new_count
                         new_success new_error (Some new_avg) (Some now)
         else f) fns.

Section WithTexts.

(** [str(e)] for the exceptions of the arithmetic. *)
Variable str_of : arith_error -> str.

(** The [except Exception] handler: the transaction is rolled back. *)
Definition failed (e : str) (d : database)
  : reply callback_response * database :=
  (HTTPException 400 (py "Failed to process execution result: " ++ e), d).

(** [POST /functions/{function_name}/execution-result]; [execution_id] is
    what [uuid.uuid4()] drew, [db_error] the text of the exception that the
    UPDATE, one of the INSERTs or the commit raises (a value out of the
    range of its column, a lost connection), if one does. *)
Definition receive_execution_result (function_name : str)
           (result : ExecutionResultRequest) (execution_id : UUID)
           (now : instant) (db_error : option str) (d : database)
  : reply callback_response * database :=
  match function_name with
  | [] => (HTTPException 404 (py "Function not found"), d)
  | _ =>
      if (255 <? length function_name)
         || existsb (chr_eqb Ascii.zero) function_name
         || negb (is_ascii function_name)
      then (HTTPException 404 (py "Function not found"), d)
      else
        match List.find (fun f => str_eqb (fn_name f) function_name) (functions d) with
        | None => (Return (ReceivedWarning (py "Function not found")), d)
        | Some fn_record =>
            let function_id := fn_id fn_record in
            let new_count := (execution_count fn_record + 1)%Z in
            let new_success :=
              (execution_success_count fn_record + (if success result then 1 else 0))%Z in
            let new_error :=
              (execution_error_count fn_record + (if success result then 0 else 1))%Z in
            match new_average fn_record result with
            | Raised e => failed (str_of e) d
            | Value new_avg =>
                match int_of (execution_time_ms result) with
                | Raised e => failed (str_of e) d
                | Value duration_ms =>
                    match db_error with
                    | Some e => failed e d
                    | None =>
                        (Return (Received execution_id),
                         mkDb (update_metrics function_id new_count new_success
                                              new_error new_avg now (functions d))
                              (function_executions d
                                 ++ [mkExecution execution_id function_id
                                       (match delivery_id result with
                                        | Some (_ :: _) => py "webhook"
                                        | _ => py "http"
                                        end)
                                       (if success result then py "completed"
                                        else py "failed")
                                       duration_ms])
                              (function_logs d
                                 ++ map (fun l => mkLog execution_id (log_level l) l)
                                        (logs result)))
                    end
                end
            end
        end
  end.

End WithTexts.

(** A path parameter that passes the handler's checks. *)
Definition accepted_name (function_name : str) : Prop :=
  function_name <> []
  /\ (255 <? length function_name) = false
  /\ existsb (chr_eqb Ascii.zero) function_name = false
  /\ is_ascii function_name = true.

End Functions.

(* ===================================================================== *)
(** ** Sample data for the closed examples *)
(* ===================================================================== *)

Module Samples.

Import Auth Rows Files Storage.

(** A stand-in for SHA-256 in the closed examples below; the handlers only
    ever compare hashes. *)
Definition plain (t : str) : str := t.

Definition alice : user_row :=
  mkUser 1%N (py "a@b.c") (py "hash") (py "A") (py "B") USER true.

(** A decoder for the closed example: one token verifies, with [sub = 7]. *)
Definition sample_decode (tok : str) : decoded :=
  if str_eqb tok (py "good") then Payload (Some (py "7")) else InvalidTokenError.

Definition sample_uuid (s : str) : option UUID := Some (int_of_digits s).

Definition bob_inactive : user_row :=
  mkUser 7 (py "bob@b.c") (py "hash") (py "Bob") (py "B") USER false.

Definition carol : user_row :=
  mkUser 3 (py "carol@b.c") (py "hash") (py "Carol") (py "C") USER true.

(** A store with the bucket [docs] and one blob, and a join that accepts
    every path. *)
Definition sample_join (base part : str) : option str :=
  Some (base ++ py "/" ++ part).

Definition sample_world : world :=
  mkWorld (mkFs {[ py "/data/docs/doc.pdf" := [Byte.x01] ]}
                {[ py "/data/docs" ]}) [].

Definition doc (p : string) : file_row := mkFile 1 (py p) (py p) 10 true None.

End Samples.

Import Samples.

(* ===================================================================== *)
(** ** endpoints/users.py: login and logout *)
(* ===================================================================== *)

Module Sessions.

Import Tokens.

(** What the session handlers read and write: the tables of
    [Tokens.database] and the flag of row 1 of [system_config], [None]
    when that row is missing. *)
Record store : Type := mkStore {
  st_db : database;
  st_initialized : option bool
}.

(** The body of [POST /users/token] (models/user.py, [LoginRequest]). *)
Record LoginRequest : Type := mkLogin {
  l_email : str;
  l_password : str
}.

(** services/backup_service.py *)
Definition get_system_initialized (s : store) : bool :=
  match st_initialized s with
  | Some b => b
  | None => false
  end.

(** [UPDATE system_config SET initialized = %s WHERE id = 1] *)
Definition set_system_initialized (s : store) (initialized : bool) : store :=
  mkStore (st_db s)
          (match st_initialized s with
           | Some _ => Some initialized
           | None => None
           end).

Section WithSettings.

Variable hash_token : str -> str.
(** [verify_password plain hashed] *)
Variable verify_password : str -> str -> bool.
Variable ACCESS_TOKEN_EXPIRE_MINUTES : Z.
Variable REFRESH_TOKEN_EXPIRE_DAYS : Z.

Definition auth_error : reply TokenPair :=
  HTTPException 401 (py "Incorrect email or password").

(** [POST /users/token]; [raw_token] is what [generate_refresh_token]
    draws. *)
Definition login_for_access_token (credentials : LoginRequest)
           (raw_token : str) (now : instant) (s : store)
  : reply TokenPair * store :=
  match user_by_email (l_email credentials) (users (st_db s)) with
  | None => (auth_error, s)
  | Some user =>
      if negb (verify_password (l_password credentials) (u_password user))
      then (auth_error, s)
      else if negb (u_is_active user)
      then (HTTPException 400 (py "Inactive user"), s)
      else
        let s1 := if negb (get_system_initialized s)
                  then set_system_initialized s true else s in
        let access_token :=
          create_access_token ACCESS_TOKEN_EXPIRE_MINUTES (u_id user)
                              (u_role user) now in
        let '(refresh_token, d2) :=
          create_refresh_token hash_token REFRESH_TOKEN_EXPIRE_DAYS
                               (st_db s1) (u_id user) raw_token now in
        (Return (mkPair access_token refresh_token
                        (ACCESS_TOKEN_EXPIRE_MINUTES * 60)%Z),
         mkStore d2 (st_initialized s1))
  end.

(** The body of [POST /users/logout] (models/token.py, [LogoutRequest]):
    absent, or with an optional [refresh_token]. *)
Definition LogoutRequest : Type := option str.

(** [POST /users/logout]; the reply is always [logged_out], what matters is
    the store. *)
Definition logout (body : option LogoutRequest) (current_user : user_row)
           (now : instant) (d : database) : database :=
  match body with
  | Some (Some (c :: t)) => snd (revoke_refresh_token hash_token d (c :: t) now)
  | _ => snd (revoke_all_user_tokens d (u_id current_user) now)
  end.

(** [POST /users/logout/all] *)
Definition logout_all_devices (current_user : user_row) (now : instant)
           (d : database) : database :=
  snd (revoke_all_user_tokens d (u_id current_user) now).

End WithSettings.

End Sessions.

(* ===================================================================== *)
(** ** utils/validation.py and the validators of models/ *)
(* ===================================================================== *)

Module Validators.

Import Re.

(** What a pydantic validator does: it returns the value or raises
    [ValueError]. *)
Inductive checked (A : Type) : Type :=
| Valid (a : A)
| ValueError (message : str).
Arguments Valid {A} a.
Arguments ValueError {A} message.

(** [r{0,n}], greedy: one more [r] first, then without it. *)
Fixpoint upto (n : nat) (r : re) : re :=
  match n with
  | 0 => Eps
  | S m => Opt (Cat r (upto m r))
  end.

(** *** utils/validation.py *)

(** The class [[\x20-\x7E]]. *)
Definition printable (c : ascii) : bool := (32 <=? code c) && (code c <=? 126).

(** [^[\x20-\x7E]*$] *)
Definition SEARCH_TERM_PATTERN : re := Cat (Star printable) Eol.

Definition validate_search_term (search : option str) : reply (option str) :=
  match search with
  | None => Return None
  | Some s =>
      match rmatch SEARCH_TERM_PATTERN s with
      | None =>
          HTTPException 400
            (py "Search term contains invalid characters. Only printable ASCII characters are allowed.")
      | Some _ => Return (Some s)
      end
  end.

(** *** models/bucket.py and storage/models/bucket.py *)

(** The classes [[a-z0-9]] and [[a-z0-9\-]]. *)
Definition lower_alnum (c : ascii) : bool := is_lower_ascii c || is_digit c.
Definition lower_alnum_hyphen (c : ascii) : bool :=
  lower_alnum c || chr_eqb c "-".

(** [^[a-z0-9][a-z0-9\-]{1,61}[a-z0-9]$] *)
Definition BUCKET_NAME_PATTERN : re :=
  seq [ Chr lower_alnum;
        Cat (Chr lower_alnum_hyphen) (upto 60 (Chr lower_alnum_hyphen));
        Chr lower_alnum; Eol ].

Definition validate_bucket_name (v : option str) : checked (option str) :=
  match v with
  | None => Valid None
  | Some s =>
      if (length s <? 3) || (63 <? length s)
      then ValueError (py "Bucket name must be between 3 and 63 characters")
      else
        match rmatch BUCKET_NAME_PATTERN s with
        | None =>
            ValueError
              (py "Bucket name must be lowercase alphanumeric, start/end with alphanumeric")
        | Some _ => Valid (Some s)
        end
  end.

(** *** models/user.py *)

(** The class [[A-Za-z0-9@$!%*?&]]. *)
Definition password_char (c : ascii) : bool :=
  is_upper_ascii c || is_lower_ascii c || is_digit c
  || existsb (chr_eqb c) (py "@$!%*?&").

(** [^[A-Za-z0-9@$!%*?&]+$] *)
Definition password_pattern : re := Cat (plus password_char) Eol.

(** [validate_password_complexity]; the argument is the secret value. *)
Definition validate_password_complexity (v : option str) : checked (option str) :=
  match v with
  | None => Valid None
  | Some value =>
      if (length value <? 8) || (72 <? length value)
      then ValueError (py "Password must be between 8 and 72 characters")
      else
        match rmatch password_pattern value with
        | None =>
            ValueError
              (py "Password contains invalid characters. Only A-Z, a-z, 0-9, @$!%*?& are allowed")
        | Some _ => Valid (Some value)
        end
  end.

(** [LoginRequest.validate_password_chars]: [ord(c) < 128 and
    c.isprintable()]; below 128 the printable characters are those from the
    space to the tilde. *)
Definition validate_password_chars (v : str) : checked str :=
  if negb (forallb (fun c => (code c <? 128) && printable c) v)
  then ValueError (py "Password contains invalid characters")
  else Valid v.

(** *** models/function.py *)

(** The classes [[a-zA-Z]] and [[a-zA-Z0-9_-]]. *)
Definition ascii_letter (c : ascii) : bool :=
  is_lower_ascii c || is_upper_ascii c.
Definition function_name_char (c : ascii) : bool :=
  ascii_letter c || is_digit c || chr_eqb c "_" || chr_eqb c "-".

(** [^[a-zA-Z][a-zA-Z0-9_-]*$] *)
Definition FUNCTION_NAME_PATTERN : re :=
  seq [ Chr ascii_letter; Star function_name_char; Eol ].

Definition validate_function_name (v : option str) : checked (option str) :=
  match v with
  | None => Valid None
  | Some s =>
      if (length s <? 1) || (255 <? length s)
      then ValueError (py "Function name must be between 1 and 255 characters")
      else
        match rmatch FUNCTION_NAME_PATTERN s with
        | None =>
            ValueError
              (py "Function name must start with a letter and only contain letters, numbers, underscores, and hyphens")
        | Some _ => Valid (Some s)
        end
  end.

(** *** models/table.py *)

(** The classes [[a-z]] and [[a-z0-9_]]. *)
Definition table_name_char (c : ascii) : bool :=
  is_lower_ascii c || is_digit c || chr_eqb c "_".

(** [^[a-z][a-z0-9_]*$] *)
Definition TABLE_NAME_PATTERN : re :=
  seq [ Chr is_lower_ascii; Star table_name_char; Eol ].

Definition reserved_words : list str :=
  map py [ "table"; "user"; "users"; "select"; "insert"; "update"; "delete";
           "from"; "where" ]%string.

Definition validate_table_name (v : option str) : checked (option str) :=
  match v with
  | None => Valid None
  | Some s =>
      if (length s <? 1) || (63 <? length s)
      then ValueError (py "Table name must be between 1 and 63 characters")
      else
        match rmatch TABLE_NAME_PATTERN s with
        | None =>
            ValueError
              (py "Table name must start with lowercase letter and only contain lowercase letters, numbers, and underscores")
        | Some _ =>
            if existsb (str_eqb (lower s)) reserved_words
            then ValueError (py "Table name " ++ [DQ] ++ s ++ [DQ]
                             ++ py " is a reserved keyword and cannot be used")
            else Valid (Some s)
        end
  end.

(** A text of the form [body] or [body] followed by one line feed: what a
    pattern ending in [$] consumes. *)
Definition up_to_newline (s body : str) : Prop := s = body \/ s = body ++ [NL].

End Validators.

(* ===================================================================== *)
(** ** backend/endpoints/sql.py: what the splitter is measured against *)
(* ===================================================================== *)

Module SqlText.

Import Sql.

(** [s.split(sep)] for a one-character separator. *)
Fixpoint split_char (sep : ascii) (s : str) : list str :=
  match s with
  | [] => [[]]
  | c :: r =>
      if chr_eqb c sep then [] :: split_char sep r
      else match split_char sep r with
           | h :: t => (c :: h) :: t
           | [] => [[c]]
           end
  end.

Definition nonempty (s : str) : bool :=
  match s with [] => false | _ :: _ => true end.

(** [[p.strip() for p in pieces if p.strip()]] *)
Definition stripped_pieces (pieces : list str) : list str :=
  List.filter nonempty (map strip pieces).

(** A character that opens neither a quoted string nor a dollar tag. *)
Definition plain_char (c : ascii) : bool :=
  negb (chr_eqb c SQ) && negb (chr_eqb c DQ) && negb (chr_eqb c dollar).

(** The pieces of a text that continues an open piece [cur]. *)
Definition with_prefix (cur : str) (pieces : list str) : list str :=
  (cur ++ List.hd [] pieces) :: List.tl pieces.

(** [before] and [after] are lists of pieces; the last piece of the one,
    [middle] and the first piece of the other form one piece. *)
Definition glue (before : list str) (middle : str) (after : list str)
  : list str :=
  List.removelast before ++ [List.last before [] ++ middle ++ List.hd [] after]
  ++ List.tl after.

End SqlText.

(* ===================================================================== *)
(** ** backend/endpoints/sql.py: validate_query_security *)
(* ===================================================================== *)

Module SqlGuard.

Import Re.

Definition is_word_opt (c : option ascii) : bool :=
  match c with
  | Some x => is_word x
  | None => false
  end.

(** [\b] between a character (or the start of the text) and what follows:
    exactly one of the two sides is a word character. *)
Definition boundary (prev : option ascii) (s : str) : bool :=
  xorb (is_word_opt prev) (is_word_opt (List.hd_error s)).

(** The patterns of the module use [\b] at their ends only: a pattern is
    a body of [Re], preceded or not by [\b], and followed or not by [\b];
    in the latter case the body ends with a literal character, recorded in
    [trailing_b]. *)
Record pattern : Type := mkPattern {
  leading_b : bool;
  body : re;
  trailing_b : option ascii
}.

(** A match that starts at the head of [s]; [prev] is the character before
    it.  The answer is the text after the match. *)
Definition match_at (p : pattern) (prev : option ascii) (s : str) : option str :=
  if leading_b p && negb (boundary prev s) then None
  else run (body p) s []
           (fun rest _ =>
              match trailing_b p with
              | Some last_char =>
                  if boundary (Some last_char) rest then Some rest else None
              | None => Some rest
              end).

(** [re.search]: the leftmost match; the answer is [s[match.end():]]. *)
Fixpoint search_from (p : pattern) (prev : option ascii) (s : str)
  : option str :=
  match match_at p prev s with
  | Some rest => Some rest
  | None =>
      match s with
      | [] => None
      | c :: s' => search_from p (Some c) s'
      end
  end.

Definition search (p : pattern) (s : str) : option str := search_from p None s.

(** [.*] *)
Definition any : re := Star (fun c => negb (chr_eqb c NL)).

(** A word under [re.IGNORECASE] between two [\b]. *)
Definition whole_word (w : string) (last_char : ascii) : pattern :=
  mkPattern true (ilit w) (Some last_char).

Definition DANGEROUS_PATTERNS : list pattern :=
  [ whole_word "pg_read_file" "e";
    whole_word "pg_write_file" "e";
    whole_word "pg_ls_dir" "r";
    whole_word "lo_import" "t";
    whole_word "lo_export" "t";
    mkPattern true
      (seq [ilit "copy"; sp1; any; sp1; ilit "to"; sp1; ilit "program"])
      (Some "m"%char);
    mkPattern true
      (seq [ilit "copy"; sp1; any; sp1; ilit "from"; sp1; ilit "program"])
      (Some "m"%char);
    mkPattern true (seq [ilit "execute"; sp1; ilit "format"]) (Some "t"%char);
    mkPattern false (seq [chr ";"; sp; lit (py "--")]) None ].

Definition PROTECTED_TABLES : list str :=
  map py [ "system_config"; "sql_history"; "sql_snippets"; "pg_catalog";
           "information_schema" ]%string.

(** [\b(insert\s+into|update|delete\s+from|drop\s+table|truncate)\s+] *)
Definition modification_pattern : pattern :=
  mkPattern true
    (seq [ Grp 1 (Alt (seq [lit (py "insert"); sp1; lit (py "into")])
                 (Alt (lit (py "update"))
                 (Alt (seq [lit (py "delete"); sp1; lit (py "from")])
                 (Alt (seq [lit (py "drop"); sp1; lit (py "table")])
                      (lit (py "truncate"))))));
           sp1 ])
    None.

Definition prohibited : reply unit :=
  HTTPException 400 (py "Query contains prohibited pattern for security reasons").

(** [validate_query_security]: it returns, or raises 400.  The loop over
    the set [PROTECTED_TABLES] runs here in the order of the source text;
    no protected name is a prefix of another, so at most one of them can
    be found and the order plays no part. *)
Definition validate_query_security (query : str) : reply unit :=
  let query_lower := lower query in
  if existsb (fun p => match search p query_lower with
                       | Some _ => true
                       | None => false
                       end) DANGEROUS_PATTERNS
  then prohibited
  else
    match search modification_pattern query_lower with
    | None => Return tt
    | Some remaining =>
        match List.find (fun protected => startswith (strip remaining) protected)
                        PROTECTED_TABLES with
        | Some protected =>
            HTTPException 400
              (py "Cannot modify protected system table: " ++ protected)
        | None => Return tt
        end
    end.

(** The five functions the first patterns name. *)
Definition dangerous_functions : list str :=
  map py [ "pg_read_file"; "pg_write_file"; "pg_ls_dir"; "lo_import";
           "lo_export" ]%string.

(** The keywords of [modification_pattern], with [gap] for the whitespace
    inside the two-word ones. *)
Definition modification_keywords (gap : str) : list str :=
  [ py "insert" ++ gap ++ py "into"; py "update";
    py "delete" ++ gap ++ py "from"; py "drop" ++ gap ++ py "table";
    py "truncate" ].

(** A text that does not end, or does not start, with a word character. *)
Definition ends_outside_word (s : str) : bool :=
  negb (is_word_opt (List.hd_error (rev s))).
Definition starts_outside_word (s : str) : bool :=
  negb (is_word_opt (List.hd_error s)).

Definition blank (s : str) : bool := forallb is_space s.

(** The texts one of which occurs in every query that the check refuses:
    the five function names, the first word of the other patterns, the
    comment mark, and the protected tables. *)
Definition trigger_words : list str :=
  dangerous_functions ++ map py [ "copy"; "execute"; "--" ]%string
  ++ PROTECTED_TABLES.

End SqlGuard.

(* ===================================================================== *)
(** ** backend/endpoints/functions.py: counters and execution history *)
(* ===================================================================== *)

Module FunctionHistory.

Import Functions.

(** [SELECT COUNT( * ) FROM function_executions WHERE function_id = %s],
    with or without [AND status = %s]. *)
Definition executions_with (status : option str) (function_id : UUID)
           (d : database) : Z :=
  Z.of_nat
    (length
       (List.filter
          (fun e => N.eqb (ex_function_id e) function_id
                    && match status with
                       | Some s => str_eqb (ex_status e) s
                       | None => true
                       end)
          (function_executions d))).

(** Every function's three counters are the numbers of its execution
    rows: all of them, the completed ones, the failed ones. *)
Definition counters_match_history (d : database) : Prop :=
  forall f, In f (functions d) ->
            execution_count f = executions_with None (fn_id f) d
            /\ execution_success_count f
               = executions_with (Some (py "completed")) (fn_id f) d
            /\ execution_error_count f
               = executions_with (Some (py "failed")) (fn_id f) d.

(** One call of the callback endpoint: the path parameter, the body, the
    identifier drawn for the execution row, the time, and the failure of
    the database, if there is one. *)
Record callback : Type := mkCallback {
  cb_function_name : str;
  cb_result : ExecutionResultRequest;
  cb_execution_id : UUID;
  cb_now : instant;
  cb_db_error : option str
}.

Section WithTexts.

Variable str_of : arith_error -> str.

Definition after_callback (d : database) (c : callback) : database :=
  snd (receive_execution_result str_of (cb_function_name c) (cb_result c)
                                (cb_execution_id c) (cb_now c)
                                (cb_db_error c) d).

(** The store after a sequence of callbacks, one after the other. *)
Definition after_callbacks (cs : list callback) (d : database) : database :=
  fold_left after_callback cs d.

End WithTexts.

End FunctionHistory.

(* ===================================================================== *)
(** ** storage/endpoints/files.py: the worker's download and delete *)
(* ===================================================================== *)

Module Blobs.

Import Storage.

(** [CHUNK_SIZE] *)
Definition CHUNK_SIZE : nat := 256 * 1024.

(** [async_file_iterator]: [f.read(chunk_size)] until it returns nothing;
    [rest] is what is left of the file. *)
Fixpoint async_file_iterator (fuel : nat) (chunk_size : nat) (rest : bytes)
  : list bytes :=
  match fuel with
  | 0 => []
  | S fuel' =>
      match firstn chunk_size rest with
      | [] => []
      | chunk =>
          chunk :: async_file_iterator fuel' chunk_size (skipn chunk_size rest)
      end
  end.

(** The [StreamingResponse] of a download: the file name of the
    [Content-Disposition] header, the [Content-Length] header, and the
    chunks of the body, [None] when opening the file raises. *)
Record StreamingResponse : Type := mkStream {
  filename : str;
  content_length : Z;
  stream : option (list bytes)
}.

Section WithStore.

Variable BASE_PATH : str.
Variable safe_join : str -> str -> option str.
(** [st_size] of a directory, as the file system reports it. *)
Variable dir_size : str -> Z.

(** [GET /files/{bucket}/{path}] *)
Definition download_file (bucket path : str) (w : world)
  : reply StreamingResponse :=
  let bucket_path := BASE_PATH ++ py "/" ++ bucket in
  if negb (bool_decide (bucket_path ∈ fs_dirs (w_fs w)))
  then HTTPException 404 (py "Bucket not found")
  else
    match safe_join bucket_path path with
    | None => HTTPException 400 (py "Invalid path")
    | Some file_path =>
        match fs_files (w_fs w) !! file_path with
        | Some content =>
            Return (mkStream (name_of file_path) (Z.of_nat (length content))
                             (Some (async_file_iterator (length content)
                                                        CHUNK_SIZE content)))
        | None =>
            if bool_decide (file_path ∈ fs_dirs (w_fs w))
            then (* [exists] and [stat] succeed, [open] raises later *)
              Return (mkStream (name_of file_path) (dir_size file_path) None)
            else HTTPException 404 (py "File not found")
        end
    end.

(** [DELETE /files/{bucket}/{path}]: [FileNotFoundError] is swallowed, the
    error of unlinking a directory is not. *)
Definition delete_file (bucket path : str) (w : world) : reply unit * world :=
  let bucket_path := BASE_PATH ++ py "/" ++ bucket in
  if negb (bool_decide (bucket_path ∈ fs_dirs (w_fs w)))
  then (HTTPException 404 (py "Bucket not found"), w)
  else
    match safe_join bucket_path path with
    | None => (HTTPException 400 (py "Invalid path"), w)
    | Some file_path =>
        match fs_files (w_fs w) !! file_path with
        | Some _ => (Return tt, sys_unlink file_path w)
        | None =>
            (if bool_decide (file_path ∈ fs_dirs (w_fs w))
             then HTTPException 500 (py "Internal Server Error")
             else Return tt,
             sys_unlink file_path w)
        end
    end.

End WithStore.

(** No path is both a blob and a directory. *)
Definition consistent (fs : filesystem) : Prop :=
  forall p, p ∈ fs_dirs fs -> fs_files fs !! p = None.

End Blobs.

(* ===================================================================== *)
(** ** Shapes of the statements of a console query *)
(* ===================================================================== *)

(** The statements that the properties of the console speak about, written
    as concatenations of their parts. *)
Module Statements.

(** The word [w] in any letter case. *)
Definition spells (w : string) (s : str) : Prop := lower s = lower (py w).




(** A text that is empty or starts outside a word. *)
Definition ends_word (post : str) : Prop :=
  match post with
  | [] => True
  | c :: _ => is_word c = false
  end.










End Statements.

(* ===================================================================== *)
(** * Properties *)
(* ===================================================================== *)

(** ** Strings *)

Module PyStrFacts.

Lemma chr_eqb_refl (c : ascii) : chr_eqb c c = true.
Proof. apply Ascii.eqb_refl. Qed.

Lemma chr_eqb_eq (a b : ascii) : chr_eqb a b = true <-> a = b.
Proof. apply Ascii.eqb_eq. Qed.

Lemma str_eqb_eq (a b : str) : str_eqb a b = true <-> a = b.
Proof.
  revert b. induction a as [|x a IH]; intros [|y b]; simpl; split;
    try congruence; try discriminate.
  - intros H. apply andb_prop in H as [Hx Hr].
    apply chr_eqb_eq in Hx. apply IH in Hr. congruence.
  - intros H. injection H as -> ->.
    rewrite chr_eqb_refl. simpl. now apply IH.
Qed.

Lemma str_eqb_refl (a : str) : str_eqb a a = true.
Proof. now apply str_eqb_eq. Qed.

Lemma str_eqb_neq (a b : str) : str_eqb a b = false <-> a <> b.
Proof.
  split.
  - intros H E. apply str_eqb_eq in E. congruence.
  - intros H. destruct (str_eqb a b) eqn:E; [|reflexivity].
    apply str_eqb_eq in E. contradiction.
Qed.

Lemma lstrip_no_leading (s : str) : no_leading_space (lstrip s).
Proof.
  induction s as [|c s IH]; simpl; [exact I|].
  destruct (is_space c) eqn:E; [exact IH | simpl; exact E].
Qed.

Lemma lstrip_fixed (s : str) : no_leading_space s -> lstrip s = s.
Proof.
  destruct s as [|c s]; simpl; [reflexivity|]. now intros ->.
Qed.

Lemma rstrip_no_trailing (s : str) : no_trailing_space (rstrip s).
Proof.
  unfold no_trailing_space, rstrip. rewrite rev_involutive.
  apply lstrip_no_leading.
Qed.

Lemma lstrip_snoc (l : str) (c : ascii) :
  is_space c = false -> exists l', lstrip (l ++ [c]) = l' ++ [c].
Proof.
  intros Hc. induction l as [|a l IH]; simpl.
  - rewrite Hc. now exists [].
  - destruct (is_space a).
    + exact IH.
    + now exists (a :: l).
Qed.

Lemma rstrip_keeps_head (s : str) :
  no_leading_space s -> no_leading_space (rstrip s).
Proof.
  destruct s as [|c s]; intros H.
  - exact I.
  - simpl in H. unfold rstrip. simpl rev.
    destruct (lstrip_snoc (rev s) c H) as [l' ->].
    rewrite rev_app_distr. simpl. exact H.
Qed.

Lemma strip_no_leading (s : str) : no_leading_space (strip s).
Proof. apply rstrip_keeps_head, lstrip_no_leading. Qed.

Lemma strip_no_trailing (s : str) : no_trailing_space (strip s).
Proof. apply rstrip_no_trailing. Qed.

Lemma rstrip_fixed (s : str) : no_trailing_space s -> rstrip s = s.
Proof.
  intros H. unfold rstrip. rewrite lstrip_fixed by exact H.
  apply rev_involutive.
Qed.

(** [strip] is idempotent: a trimmed text has nothing left to trim. *)
Lemma strip_idempotent (s : str) : strip (strip s) = strip s.
Proof.
  unfold strip at 1.
  rewrite (lstrip_fixed (strip s)) by apply strip_no_leading.
  apply rstrip_fixed, strip_no_trailing.
Qed.

Lemma find_aux_ge (sub s : str) (pos i : nat) :
  find_aux sub s pos = Some i -> pos <= i.
Proof.
  revert pos. induction s as [|a s IH]; intros pos; simpl.
  - destruct sub; intros H; inversion H; lia.
  - destruct (match sub with [] => true | _ :: _ => _ end); intros H.
    + inversion H. lia.
    + apply IH in H. lia.
Qed.

(** [find] never answers an index before [start]. *)
Lemma find_ge (q sub : str) (start i : nat) :
  find q sub start = Some i -> start <= i.
Proof.
  unfold find. destruct (length q <? start); [discriminate|].
  apply find_aux_ge.
Qed.

End PyStrFacts.

Import PyStrFacts.

(** ** The statement splitter *)

Module SplitFacts.

Import Sql.

(** Every iteration moves the index forward. *)
Lemma split_step_advances (query : str) (s : split_state) :
  idx s < idx (split_step query s).
Proof.
  unfold split_step.
  destruct (chr_eqb (char_at query (idx s)) dollar && negb (in_string s)).
  - destruct (find query [dollar] (idx s + 1)) as [end_idx|] eqn:Hf.
    + apply find_ge in Hf.
      destruct (find query (slice query (idx s) (end_idx + 1)) (end_idx + 1))
        as [close_idx|] eqn:Hc.
      * apply find_ge in Hc. simpl. lia.
      * repeat match goal with
               | |- context [if ?b then _ else _] => destruct b
               end; simpl; lia.
    + repeat match goal with
             | |- context [if ?b then _ else _] => destruct b
             end; simpl; lia.
  - repeat match goal with
           | |- context [if ?b then _ else _] => destruct b
           end; simpl; lia.
Qed.

(** The fuel of [split_loop] is enough: the loop stops because the index
    has reached the end of the query. *)
Lemma split_loop_done (fuel : nat) (query : str) (s : split_state) :
  length query <= idx s + fuel ->
  length query <= idx (split_loop fuel query s).
Proof.
  revert s. induction fuel as [|f IH]; intros s H; simpl.
  - lia.
  - destruct (idx s <? length query) eqn:E.
    + apply IH. pose proof (split_step_advances query s). lia.
    + apply Nat.ltb_ge in E. exact E.
Qed.

Lemma split_step_trimmed (query : str) (s : split_state) :
  Forall trimmed (statements s) ->
  Forall trimmed (statements (split_step query s)).
Proof.
  intros H. unfold split_step.
  match goal with
  | |- context [match ?e with (_, _) => _ end] => destruct e as [[cur i] continued]
  end.
  repeat match goal with
         | |- context [if ?b then _ else _] => destruct b eqn:?
         end; cbn [statements]; try exact H.
  apply Forall_app. split; [exact H|]. constructor; [|constructor].
  split; [|discriminate].
  match goal with
  | E : strip _ = _ |- _ => rewrite <- E
  end.
  apply strip_idempotent.
Qed.

Lemma split_loop_trimmed (fuel : nat) (query : str) (s : split_state) :
  Forall trimmed (statements s) ->
  Forall trimmed (statements (split_loop fuel query s)).
Proof.
  revert s. induction fuel as [|f IH]; intros s H; simpl; [exact H|].
  destruct (idx s <? length query); [|exact H].
  apply IH, split_step_trimmed, H.
Qed.

(** X14: every statement the splitter returns is trimmed and not empty,
    whatever the text. *)
Lemma split_statements_trimmed (query : str) :
  Forall trimmed (split_sql_statements query).
Proof.
  unfold split_sql_statements.
  set (s := split_loop _ _ _).
  assert (Hs : Forall trimmed (statements s)).
  { apply split_loop_trimmed. constructor. }
  destruct (strip (current s)) as [|c r] eqn:E; [exact Hs|].
  apply Forall_app. split; [exact Hs|]. constructor; [|constructor].
  split; [|discriminate]. rewrite <- E. apply strip_idempotent.
Qed.

(** C4: on a dollar sign whose tag is never closed, the splitter has
    already moved past the tag when it falls through to the ordinary
    branches: it appends a second dollar sign and skips the character after
    the tag.  Here that character is the quote opening ['x;y'], so the
    semicolon inside the quoted string splits the text, and the first
    statement is not a piece of the input.  The second input is valid SQL
    ([a$b] is an identifier) and is cut inside its last string literal. *)
Theorem split_unclosed_dollar_tag :
  split_sql_statements (py "$a$'x;y'") = [py "$a$$x"; py "y'"]
  /\ split_sql_statements (py "SELECT 1 AS a$b, 'it$s'; SELECT 'x;y'")
     = [py "SELECT 1 AS a$b, 'it$$'; SELECT 'x"; py "y'"].
Proof. split; vm_compute; reflexivity. Qed.

End SplitFacts.

(** ** Reconciliation of the table registry *)

Module SqlFacts.

Import Sql.








Section NoFailure.

Variable raises : nat -> bool.
Hypothesis no_failure : forall call, raises call = false.





(** The names the two extractors return are never system tables. *)
Lemma created_not_system (query name : str) (sc : schema_dict) :
  In (name, sc) (parse_create_table_statements query) ->
  mem name SYSTEM_TABLES = false.
Proof.
  unfold parse_create_table_statements. rewrite in_flat_map.
  intros [stmt [_ H]].
  destruct (Re.search create_table_kw stmt); [|contradiction].
  destruct (parse_single_create_table stmt) as [[n s]|] eqn:E; [|contradiction].
  destruct H as [H|[]]. injection H as -> ->.
  unfold parse_single_create_table in E.
  destruct (Re.search create_pattern stmt) as [[rest g]|]; [|discriminate].
  destruct (Re.group 1 g) as [g1|]; [|discriminate].
  destruct (mem (lower g1) SYSTEM_TABLES) eqn:Hm; [discriminate|].
  destruct (find_closing _ _ _); [|discriminate].
  destruct (split_columns _ _ _ _).
  destruct (fold_left parse_column _ _); [discriminate|].
  injection E as <- _. exact Hm.
Qed.

Lemma dropped_not_system (query name : str) :
  In name (parse_drop_table_statements query) ->
  mem name SYSTEM_TABLES = false.
Proof.
  unfold parse_drop_table_statements. rewrite in_flat_map.
  intros [stmt [_ H]].
  destruct (Re.search drop_pattern stmt) as [[rest g]|]; [|contradiction].
  destruct (Re.group 1 g) as [g1|]; [|contradiction].
  destruct (mem (lower g1) SYSTEM_TABLES) eqn:Hm; [contradiction|].
  destruct H as [<-|[]]. exact Hm.
Qed.


End NoFailure.

End SqlFacts.

(** ** Refresh tokens *)

Module TokenFacts.

Import Tokens.

Section Rotation.

Variable hash_token : str -> str.
Variable ACCESS_TOKEN_EXPIRE_MINUTES : Z.
Variable REFRESH_TOKEN_EXPIRE_DAYS : Z.

Abbreviation rotate := (rotate_refresh_token hash_token REFRESH_TOKEN_EXPIRE_DAYS).
Abbreviation refresh :=
  (refresh_access_token hash_token ACCESS_TOKEN_EXPIRE_MINUTES
                        REFRESH_TOKEN_EXPIRE_DAYS).
Abbreviation presented := (Tokens.presented hash_token).

Lemma revoke_where_length (cond : token_row -> bool) (now : instant)
      (rows : list token_row) :
  length (revoke_where cond now rows) = length rows.
Proof. unfold revoke_where. apply length_map. Qed.

Lemma revoke_where_revoked (cond : token_row -> bool) (now : instant)
      (rows : list token_row) (r : token_row) :
  In r (revoke_where cond now rows) ->
  cond r = false \/ rt_revoked_at r = Some now.
Proof.
  unfold revoke_where. rewrite in_map_iff. intros [r0 [E _]].
  destruct (cond r0) eqn:C.
  - right. now subst r.
  - left. now subst r.
Qed.

(** Rotation of a token that is still unrevoked: every row carrying it is
    stamped, nothing else changes, and exactly one row is added, for the
    same user. *)
Lemma rotate_live (d : database) (tok raw : str) (user_id : UUID) (now : instant) :
  existsb (presented tok) (refresh_tokens d) = true ->
  rotate d tok user_id raw now
  = (Some raw,
     mkDb (revoke_where (presented tok) now (refresh_tokens d)
             ++ [mkToken user_id (hash_token raw)
                         (now + days REFRESH_TOKEN_EXPIRE_DAYS)%Z None])
          (users d)).
Proof.
  intros H. unfold rotate_refresh_token.
  destruct (affected (presented tok) (refresh_tokens d)) as [|r rs] eqn:E.
  - exfalso. apply existsb_exists in H as [r [Hin Hr]].
    assert (Hf : In r (affected (presented tok) (refresh_tokens d))).
    { unfold affected. apply filter_In. now split. }
    rewrite E in Hf. exact Hf.
  - reflexivity.
Qed.

(** Rotation when the conditional UPDATE affects no row: no token is
    issued, and no token of the user is left unrevoked. *)
Lemma rotate_reuse (d : database) (tok raw : str) (user_id : UUID) (now : instant) :
  existsb (presented tok) (refresh_tokens d) = false ->
  fst (rotate d tok user_id raw now) = None
  /\ forall r, In r (refresh_tokens (snd (rotate d tok user_id raw now))) ->
               rt_user_id r = user_id -> rt_revoked_at r <> None.
Proof.
  intros H. unfold rotate_refresh_token.
  destruct (affected (presented tok) (refresh_tokens d)) as [|r0 rs] eqn:E.
  - split; [reflexivity|]. cbn [snd revoke_all_user_tokens refresh_tokens].
    intros r Hin Hu.
    apply revoke_where_revoked in Hin as [Hc|Hc]; [|congruence].
    rewrite Hu, N.eqb_refl in Hc. simpl in Hc. unfold is_unrevoked in Hc.
    destruct (rt_revoked_at r); [discriminate | discriminate].
  - exfalso.
    assert (Hf : In r0 (affected (presented tok) (refresh_tokens d)))
      by (rewrite E; now left).
    unfold affected in Hf. apply filter_In in Hf as [Hin Hr].
    assert (existsb (presented tok) (refresh_tokens d) = true)
      by (apply existsb_exists; now exists r0).
    congruence.
Qed.

(** The endpoint on a token it accepts, when the conditional UPDATE finds
    the row still unrevoked: a new pair, and the store of [rotate_live]. *)
Lemma refresh_rotates (tok raw : str) (now : instant)
      (others : database -> database) (d : database) (user_id : UUID)
      (user : user_row) :
  validate_refresh_token hash_token d tok now = Some user_id ->
  user_by_id user_id (users d) = Some user ->
  u_is_active user = true ->
  existsb (presented tok) (refresh_tokens (others d)) = true ->
  refresh tok raw now others d
  = (Return (mkPair (create_access_token ACCESS_TOKEN_EXPIRE_MINUTES
                                         (u_id user) (u_role user) now)
                    raw (ACCESS_TOKEN_EXPIRE_MINUTES * 60)%Z),
     mkDb (revoke_where (presented tok) now (refresh_tokens (others d))
             ++ [mkToken user_id (hash_token raw)
                         (now + days REFRESH_TOKEN_EXPIRE_DAYS)%Z None])
          (users (others d))).
Proof.
  intros Hv Hu Ha Hp. unfold refresh_access_token.
  rewrite Hv, Hu, Ha. cbn [negb].
  rewrite (rotate_live _ _ _ _ _ Hp). reflexivity.
Qed.

(** X3: the endpoint when the token was revoked between its validation and
    the conditional UPDATE: 401, and no token of the user is left
    unrevoked. *)
Lemma refresh_detects_concurrent_reuse (tok raw : str) (now : instant)
      (others : database -> database) (d : database) (user_id : UUID)
      (user : user_row) :
  validate_refresh_token hash_token d tok now = Some user_id ->
  user_by_id user_id (users d) = Some user ->
  u_is_active user = true ->
  existsb (presented tok) (refresh_tokens (others d)) = false ->
  fst (refresh tok raw now others d)
  = HTTPException 401 (py "Token reuse detected. All sessions revoked.")
  /\ forall r, In r (refresh_tokens (snd (refresh tok raw now others d))) ->
               rt_user_id r = user_id -> rt_revoked_at r <> None.
Proof.
  intros Hv Hu Ha Hp. unfold refresh_access_token.
  rewrite Hv, Hu, Ha. cbn [negb].
  destruct (rotate_reuse (others d) tok raw user_id now Hp) as [H1 H2].
  destruct (rotate (others d) tok user_id raw now) as [[t|] d'] eqn:E;
    cbn [fst snd] in *; [discriminate|].
  split; [reflexivity | exact H2].
Qed.

(** C9, amended: a token that is unknown, or whose stored row is unrevoked
    and expired in the sense the code tests, [expires_at < now], is
    answered 401 and the store is left exactly as it was: the row stays
    unrevoked and no other token of the user is revoked, whatever other
    requests do. *)
Theorem refresh_rejects_expired_without_cascade
        (tok raw : str) (now : instant) (others : database -> database)
        (d : database) :
  (List.find (fun r => str_eqb (rt_token_hash r) (hash_token tok))
             (refresh_tokens d) = None
   \/ exists row,
        List.find (fun r => str_eqb (rt_token_hash r) (hash_token tok))
                  (refresh_tokens d) = Some row
        /\ rt_revoked_at row = None
        /\ (rt_expires_at row < now)%Z) ->
  refresh tok raw now others d
  = (HTTPException 401 (py "Invalid or expired refresh token"), d).
Proof.
  intros H. unfold refresh_access_token, validate_refresh_token.
  destruct H as [-> | [row [-> [Hr He]]]]; [reflexivity|].
  rewrite Hr. apply Z.ltb_lt in He. rewrite He. reflexivity.
Qed.

End Rotation.

(** C1: a second refresh with the same token.  The first refresh of [R1]
    answers the pair [A2/R2] and revokes the row of [R1].  The second one is
    stopped by [validate_refresh_token], which answers [None] for a revoked
    row, so the endpoint replies 401 before [rotate_refresh_token] and its
    revoke-all branch are reached: the store is unchanged and [R2] is still
    a live token of the user. *)
Theorem second_refresh_leaves_new_token_live
        (hash_token : str -> str) (minutes_ : Z) :
  let now := 1000%Z in
  let d0 := mkDb [mkToken 1%N (hash_token (py "R1")) 5000 None] [alice] in
  let first := refresh_access_token hash_token minutes_ 30 (py "R1") (py "R2")
                                    now (fun d => d) d0 in
  let second := refresh_access_token hash_token minutes_ 30 (py "R1") (py "R3")
                                     now (fun d => d) (snd first) in
  fst first = Return (mkPair (mkAccess 1%N USER (now + minutes minutes_)%Z)
                             (py "R2") (minutes_ * 60)%Z)
  /\ fst second = HTTPException 401 (py "Invalid or expired refresh token")
  /\ snd second = snd first
  /\ live_tokens (snd second) 1%N now
     = [mkToken 1%N (hash_token (py "R2")) (now + days 30)%Z None].
Proof.
  cbv zeta.
  assert (E1 : refresh_access_token hash_token minutes_ 30 (py "R1") (py "R2")
                 1000 (fun d => d)
                 (mkDb [mkToken 1%N (hash_token (py "R1")) 5000 None] [alice])
               = (Return (mkPair (mkAccess 1%N USER (1000 + minutes minutes_)%Z)
                                 (py "R2") (minutes_ * 60)%Z),
                  mkDb [mkToken 1%N (hash_token (py "R1")) 5000 (Some 1000%Z);
                        mkToken 1%N (hash_token (py "R2")) (1000 + days 30)%Z None]
                       [alice])).
  { unfold refresh_access_token, validate_refresh_token, rotate_refresh_token,
      affected, revoke_where, create_refresh_token, create_access_token,
      presented.
    cbn [refresh_tokens users List.find rt_token_hash rt_revoked_at
         rt_expires_at rt_user_id List.filter map is_unrevoked].
    rewrite str_eqb_refl. cbn. reflexivity. }
  rewrite E1. cbn [fst snd].
  assert (E2 : refresh_access_token hash_token minutes_ 30 (py "R1") (py "R3")
                 1000 (fun d => d)
                 (mkDb [mkToken 1%N (hash_token (py "R1")) 5000 (Some 1000%Z);
                        mkToken 1%N (hash_token (py "R2")) (1000 + days 30)%Z None]
                       [alice])
               = (HTTPException 401 (py "Invalid or expired refresh token"),
                  mkDb [mkToken 1%N (hash_token (py "R1")) 5000 (Some 1000%Z);
                        mkToken 1%N (hash_token (py "R2")) (1000 + days 30)%Z None]
                       [alice])).
  { unfold refresh_access_token, validate_refresh_token.
    cbn [refresh_tokens List.find rt_token_hash rt_revoked_at].
    rewrite str_eqb_refl. reflexivity. }
  rewrite E2. cbn [fst snd].
  repeat split. 
Qed.

(** C9, as stated, fails at the boundary: a row with [expires_at = now] is
    not expired for [validate_refresh_token], which tests
    [expires_at < now]; the endpoint rotates it and answers a new pair. *)
Lemma expiring_now_is_still_accepted :
  ~ (forall (tok raw : str) (now : instant) (d : database) (row : token_row),
        List.find (fun r => str_eqb (rt_token_hash r) (plain tok))
                  (refresh_tokens d) = Some row ->
        rt_revoked_at row = None ->
        (rt_expires_at row <= now)%Z ->
        refresh_access_token plain 15 30 tok raw now (fun d => d) d
        = (HTTPException 401 (py "Invalid or expired refresh token"), d)).
Proof.
  intros H.
  specialize (H (py "R1") (py "R2") 1000%Z
                (mkDb [mkToken 1%N (py "R1") 1000 None] [alice])
                (mkToken 1%N (py "R1") 1000 None) eq_refl eq_refl (Z.le_refl _)).
  vm_compute in H. discriminate H.
Qed.

(** The amended statement on a token that expired one microsecond ago. *)
Lemma refresh_rejects_expired_witness :
  refresh_access_token plain 15 30 (py "R1") (py "R2") 1000 (fun d => d)
                       (mkDb [mkToken 1%N (py "R1") 999 None] [alice])
  = (HTTPException 401 (py "Invalid or expired refresh token"),
     mkDb [mkToken 1%N (py "R1") 999 None] [alice]).
Proof.
  apply (refresh_rejects_expired_without_cascade plain 15 30).
  right. exists (mkToken 1%N (py "R1") 999 None).
  split; [reflexivity | split; [reflexivity | reflexivity]].
Defined.

(** [refresh_detects_concurrent_reuse] on a token that another request
    revokes after this one has validated it. *)
Lemma refresh_detects_concurrent_reuse_witness :
  fst (refresh_access_token plain 15 30 (py "R1") (py "R2") 1000
         (fun d => snd (revoke_refresh_token plain d (py "R1") 999))
         (mkDb [mkToken 1%N (py "R1") 5000 None;
                mkToken 1%N (py "R0") 5000 None] [alice]))
  = HTTPException 401 (py "Token reuse detected. All sessions revoked.").
Proof.
  apply (refresh_detects_concurrent_reuse plain 15 30 (py "R1") (py "R2")
           1000%Z (fun d => snd (revoke_refresh_token plain d (py "R1") 999))
           (mkDb [mkToken 1%N (py "R1") 5000 None;
                  mkToken 1%N (py "R0") 5000 None] [alice])
           1%N alice); reflexivity.
Defined.

End TokenFacts.

(** ** The resolvers *)

Module AuthFacts.

Import Auth.

Section Resolvers.

Variable jwt_decode : str -> decoded.
Variable parse_uuid : str -> option UUID.

Abbreviation optional := (get_optional_current_user jwt_decode parse_uuid).
Abbreviation required := (get_current_active_user jwt_decode parse_uuid).

Lemma optional_total (token : option str) (users : list user_row) :
  exists r, optional token users = Ok r.
Proof.
  unfold get_optional_current_user.
  destruct token as [[|c tok]|]; try (now exists None).
  match goal with
  | |- context [match ?m with Ok _ => _ | Raise _ => _ end] => destruct m as [r|e]
  end; eauto.
Qed.

Lemma optional_some (token : option str) (users : list user_row) (u : user_row) :
  optional token users = Ok (Some u) <->
  exists tok sub id,
    token = Some tok /\ tok <> [] /\ jwt_decode tok = Payload (Some sub)
    /\ parse_uuid sub = Some id /\ user_by_id id users = Some u
    /\ u_is_active u = true.
Proof.
  unfold get_optional_current_user, decode, to_uuid, bind. split.
  - destruct token as [[|c tok]|]; try discriminate.
    destruct (jwt_decode (c :: tok)) as [| |[sub|]] eqn:Hd; try discriminate.
    destruct (parse_uuid sub) as [id|] eqn:Hp; try discriminate.
    destruct (user_by_id id users) as [v|] eqn:Hu; try discriminate.
    destruct (u_is_active v) eqn:Ha; try discriminate.
    cbn [negb]. intros [= <-].
    exists (c :: tok), sub, id. repeat split; auto; discriminate.
  - intros [tok [sub [id [-> [Hne [Hd [Hp [Hu Ha]]]]]]]].
    destruct tok as [|c tok]; [contradiction|].
    rewrite Hd, Hp, Hu, Ha. reflexivity.
Qed.

(** C10: the optional resolver returns for every token, and never raises;
    it returns a user exactly when the token is present, verifies, carries
    a [sub] that parses and resolves to a user row, and that user is active;
    so a missing token, a token that does not verify, an absent [sub], an
    unknown user and an inactive user all give [None].  On the token of an
    inactive user the required path raises 400. *)
Theorem optional_resolver_returns_none_or_active_user
        (token : option str) (users : list user_row) :
  (exists r, optional token users = Ok r)
  /\ (forall u,
         optional token users = Ok (Some u) <->
         exists tok sub id,
           token = Some tok /\ tok <> [] /\ jwt_decode tok = Payload (Some sub)
           /\ parse_uuid sub = Some id /\ user_by_id id users = Some u
           /\ u_is_active u = true)
  /\ (token = None -> optional token users = Ok None)
  /\ (forall tok,
         token = Some tok ->
         jwt_decode tok = InvalidTokenError \/ jwt_decode tok = OtherDecodeError
         \/ jwt_decode tok = Payload None ->
         optional token users = Ok None)
  /\ (forall tok sub,
         token = Some tok -> jwt_decode tok = Payload (Some sub) ->
         (parse_uuid sub = None
          \/ exists id, parse_uuid sub = Some id /\ user_by_id id users = None) ->
         optional token users = Ok None)
  /\ (forall tok sub id u,
         token = Some tok -> tok <> [] ->
         jwt_decode tok = Payload (Some sub) -> parse_uuid sub = Some id ->
         user_by_id id users = Some u -> u_is_active u = false ->
         optional token users = Ok None
         /\ required tok users = Raise (EHttp 400 (py "Inactive user"))).
Proof.
  split; [apply optional_total|].
  split; [intros u; apply optional_some|].
  split; [intros ->; reflexivity|].
  split; [|split].
  - intros tok -> H. unfold get_optional_current_user, decode, bind.
    destruct tok as [|c tok]; [reflexivity|].
    destruct H as [-> | [-> | ->]]; reflexivity.
  - intros tok sub -> Hd H.
    unfold get_optional_current_user, decode, to_uuid, bind.
    destruct tok as [|c tok]; [reflexivity|].
    rewrite Hd. destruct H as [-> | [id [-> ->]]]; reflexivity.
  - intros tok sub id u -> Hne Hd Hp Hu Ha. split.
    + unfold get_optional_current_user, decode, to_uuid, bind.
      destruct tok as [|c tok]; [reflexivity|].
      rewrite Hd, Hp, Hu, Ha. reflexivity.
    + unfold get_current_active_user, get_current_user, decode, to_uuid, bind.
      rewrite Hd, Hp, Hu, Ha. reflexivity.
Qed.

End Resolvers.

(** The theorem on the token of an inactive user. *)
Lemma optional_resolver_witness :
  get_optional_current_user sample_decode sample_uuid (Some (py "good"))
                            [bob_inactive] = Ok None
  /\ get_current_active_user sample_decode sample_uuid (py "good") [bob_inactive]
     = Raise (EHttp 400 (py "Inactive user")).
Proof.
  apply (optional_resolver_returns_none_or_active_user
           sample_decode sample_uuid (Some (py "good")) [bob_inactive])
    with (sub := py "7") (id := 7%N) (u := bob_inactive);
    try reflexivity.
  discriminate.
Defined.

End AuthFacts.
(** ** Row PATCH and DELETE *)

Module RowFacts.

Import Rows.

Section Ownership.

Variable uuid_str : UUID -> str.
Variable db_execute : str -> list value -> db_result.

Abbreviation patch := (update_row uuid_str db_execute).
Abbreviation remove_row := (delete_row uuid_str db_execute).

Ltac render_eq :=
  unfold render_where, quoted;
  cbn [role_eqb map join w_quoted w_column w_param app];
  rewrite <- ?app_assoc; reflexivity.

(** C2, amended: the statement both handlers send ends in the WHERE clause
    ["<id_column>" = %s AND user_id = %s] with the parameters [row_id] and
    the caller's id, where [id_column] is the query parameter of that name
    ([id] unless the caller overrides it), put between double quotes as it
    is; for an ADMIN the [user_id] conjunct and its parameter are absent.
    When the database reports that the statement affected no row -- there
    is no such row, or it belongs to someone else -- both handlers answer
    404 with one fixed detail and commit nothing. *)
Theorem row_write_where_clause (table_name row_id id_column : str)
        (updates : list (str * value)) (current_user : user_row)
        (bookkeeping : option str) :
  let upd := update_statement uuid_str table_name row_id updates id_column
                              current_user in
  let del := delete_statement uuid_str table_name row_id id_column
                              current_user in
  let sets := strip_dict_keys updates in
  let assignments :=
    join (py ", ") (map (fun kv => quoted (fst kv) ++ py " = %s") sets) in
  (u_role current_user = USER ->
   render del
   = py "DELETE FROM " ++ quoted table_name
     ++ py " WHERE " ++ quoted id_column ++ py " = %s AND user_id = %s"
   /\ params del = [Some row_id; Some (uuid_str (u_id current_user))]
   /\ render upd
      = py "UPDATE " ++ quoted table_name ++ py " SET " ++ assignments
        ++ py " WHERE " ++ quoted id_column ++ py " = %s AND user_id = %s"
        ++ py " RETURNING *"
   /\ params upd
      = map snd sets ++ [Some row_id; Some (uuid_str (u_id current_user))])
  /\ (u_role current_user = ADMIN ->
      render del
      = py "DELETE FROM " ++ quoted table_name
        ++ py " WHERE " ++ quoted id_column ++ py " = %s"
      /\ params del = [Some row_id]
      /\ render upd
         = py "UPDATE " ++ quoted table_name ++ py " SET " ++ assignments
           ++ py " WHERE " ++ quoted id_column ++ py " = %s"
           ++ py " RETURNING *"
      /\ params upd = map snd sets ++ [Some row_id])
  /\ (id_column = py "id" -> u_role current_user = USER ->
      render_where (where_of del)
      = [DQ] ++ py "id" ++ [DQ] ++ py " = %s AND user_id = %s"
      /\ where_of upd = where_of del)
  /\ (db_execute (render del) (params del) = DbDone [] ->
      remove_row table_name row_id id_column current_user bookkeeping
      = (HTTPException 404
           (py "Row not found or you don't have permission to delete it"),
         false))
  /\ (updates <> [] ->
      db_execute (render upd) (params upd) = DbDone [] ->
      patch table_name row_id updates id_column current_user bookkeeping
      = (HTTPException 404
           (py "Row not found or you don't have permission to update it"),
         false))
  /\ (forall e,
         db_execute (render del) (params del) = DbError e ->
         remove_row table_name row_id id_column current_user bookkeeping
         = (HTTPException 400 e, false))
  /\ (forall e,
         updates <> [] ->
         db_execute (render upd) (params upd) = DbError e ->
         patch table_name row_id updates id_column current_user bookkeeping
         = (HTTPException 400 e, false)).
Proof.
  cbv zeta.
  split.
  { intros Hr. unfold delete_statement, update_statement, build_where.
    rewrite Hr. cbn [role_eqb render params].
    split; [render_eq|]. split; [reflexivity|]. split; [render_eq|].
    reflexivity. }
  split.
  { intros Hr. unfold delete_statement, update_statement, build_where.
    rewrite Hr. cbn [role_eqb render params].
    split; [render_eq|]. split; [reflexivity|]. split; [render_eq|].
    reflexivity. }
  split.
  { intros -> Hr. unfold delete_statement, update_statement, build_where.
    rewrite Hr. cbn [role_eqb where_of]. split; [render_eq | reflexivity]. }
  split; [intros H; unfold delete_row; now rewrite H|].
  split; [intros Hne H; unfold update_row; rewrite H;
          destruct updates; [contradiction | reflexivity]|].
  split; [intros e H; unfold delete_row; now rewrite H|].
  intros e Hne H. unfold update_row. rewrite H.
  destruct updates; [contradiction | reflexivity].
Qed.

End Ownership.

(** C2, as stated, fails: the column of the first conjunct is the
    [id_column] query parameter, so with [id_column=email] the statement
    filters on [email], not on [id]. *)
Lemma where_clause_follows_id_column :
  ~ (forall (table_name row_id id_column : str) (current_user : user_row),
        u_role current_user = USER ->
        where_of (delete_statement dec table_name row_id id_column current_user)
        = [ mkWhere (py "id") true row_id;
            mkWhere (py "user_id") false (dec (u_id current_user)) ]).
Proof.
  intros H.
  specialize (H (py "notes") (py "x@y.z") (py "email") carol eq_refl).
  vm_compute in H. discriminate H.
Qed.

(** The theorem on a database that finds no row for the statement, be it
    that the row is missing or that it belongs to another user: DELETE by a
    caller who is not an admin is answered 404. *)
Lemma row_write_where_clause_witness :
  delete_row dec (fun _ _ => DbDone []) (py "notes") (py "10") (py "id") carol
             None
  = (HTTPException 404
       (py "Row not found or you don't have permission to delete it"), false).
Proof.
  apply (row_write_where_clause dec (fun _ _ => DbDone []) (py "notes")
                                (py "10") (py "id") [] carol None).
  reflexivity.
Defined.

End RowFacts.

(** ** User creation *)

Module UserFacts.

Import Users.

Section Creation.

Variable get_password_hash : str -> str.

Abbreviation create := (create_user get_password_hash).

(** A request whose email is taken is answered with the stored row,
    whatever names the request carries. *)
Lemma create_user_email_taken (user : UserCreate) (user_id : UUID)
      (users : list user_row) (existing : user_row) :
  user_by_email (c_email user) users = Some existing ->
  create user user_id users = (Return existing, users).
Proof.
  intros H. unfold create_user, insert_user.
  assert (E : existsb (fun v => N.eqb (u_id v) user_id
                                || str_eqb (u_email v) (c_email user)) users = true).
  { unfold user_by_email in H. apply find_some in H as [Hin He].
    apply existsb_exists. exists existing. split; [exact Hin|].
    cbn [u_email u_id]. rewrite He. apply orb_true_r. }
  cbn [u_id u_email]. rewrite E, H. reflexivity.
Qed.

Lemma user_by_id_snoc (id : UUID) (users : list user_row) (u : user_row) :
  existsb (fun v => N.eqb (u_id v) id) users = false ->
  u_id u = id ->
  user_by_id id (users ++ [u]) = Some u.
Proof.
  intros H Hu. unfold user_by_id. induction users as [|v users IH]; simpl in *.
  - now rewrite Hu, N.eqb_refl.
  - apply orb_false_elim in H as [H1 H2]. rewrite H1. now apply IH.
Qed.

Lemma user_by_email_snoc (email : str) (users : list user_row) (u : user_row) :
  existsb (fun v => str_eqb (u_email v) email) users = false ->
  u_email u = email ->
  user_by_email email (users ++ [u]) = Some u.
Proof.
  intros H Hu. unfold user_by_email. induction users as [|v users IH]; simpl in *.
  - now rewrite Hu, str_eqb_refl.
  - apply orb_false_elim in H as [H1 H2]. rewrite H1. now apply IH.
Qed.

(** X7: posting the same body twice answers the same row both times, and
    the second request stores nothing. *)
Lemma create_user_twice (user : UserCreate) (id1 id2 : UUID)
      (users : list user_row) :
  existsb (fun v => N.eqb (u_id v) id1 || str_eqb (u_email v) (c_email user))
          users = false ->
  exists row,
    create user id1 users = (Return row, users ++ [row])
    /\ create user id2 (users ++ [row]) = (Return row, users ++ [row])
    /\ u_id row = id1.
Proof.
  intros H.
  set (row := mkUser id1 (c_email user) (get_password_hash (c_password user))
                     (c_first_name user) (c_last_name user) USER true).
  exists row.
  assert (Hid : existsb (fun v => N.eqb (u_id v) id1) users = false).
  { apply not_true_is_false. intros E. apply existsb_exists in E as [v [Hin Hv]].
    assert (existsb (fun v => N.eqb (u_id v) id1 || str_eqb (u_email v) (c_email user))
                    users = true).
    { apply existsb_exists. exists v. split; [exact Hin|]. now rewrite Hv. }
    congruence. }
  assert (Hem : existsb (fun v => str_eqb (u_email v) (c_email user)) users = false).
  { apply not_true_is_false. intros E. apply existsb_exists in E as [v [Hin Hv]].
    assert (existsb (fun v => N.eqb (u_id v) id1 || str_eqb (u_email v) (c_email user))
                    users = true).
    { apply existsb_exists. exists v. split; [exact Hin|].
      rewrite Hv. apply orb_true_r. }
    congruence. }
  split; [|split; [|reflexivity]].
  - unfold create_user, insert_user. cbn [u_id u_email]. rewrite H.
    fold row. now rewrite (user_by_id_snoc id1 users row Hid eq_refl).
  - apply create_user_email_taken.
    now apply user_by_email_snoc.
Qed.

(** C5: a second POST with the email of a stored user and other names.
    The INSERT violates the unique key; the handler then reads the row by
    email and returns it (the route answers 201) without comparing any other
    field, so no 409 is raised and the stored names are kept. *)
Theorem create_user_same_email_other_name :
  let stored := mkUser 1 (py "a@b.c") (get_password_hash (py "Password1!"))
                       (py "A") (py "B") USER true in
  create (mkCreate (py "a@b.c") (py "X") (py "Y") (py "Password1!")) 2 [stored]
  = (Return stored, [stored]).
Proof.
  cbv zeta. apply create_user_email_taken. reflexivity.
Qed.

End Creation.

(** [create_user_twice] on a store that does not know the email. *)
Lemma create_user_twice_witness :
  exists row,
    create_user plain (mkCreate (py "new@b.c") (py "N") (py "W") (py "Password1!"))
                2 [alice]
    = (Return row, [alice] ++ [row])
    /\ create_user plain
                   (mkCreate (py "new@b.c") (py "N") (py "W") (py "Password1!"))
                   3 ([alice] ++ [row])
       = (Return row, [alice] ++ [row])
    /\ u_id row = 2%N.
Proof.
  apply (create_user_twice plain
           (mkCreate (py "new@b.c") (py "N") (py "W") (py "Password1!"))
           2%N 3%N [alice]).
  reflexivity.
Defined.

End UserFacts.
(** ** Execution callbacks *)

Module FunctionFacts.

Import Functions.




(** The stored value is an integer and the arithmetic is that of floats:
    an average of 10 after one execution followed by 5 ms gives 7, and an
    average of 3 after one execution followed by 2.9999999999999996 ms
    gives 3, where the exact quotient lies below 3. *)
Lemma average_rounds_then_truncates :
  new_average (mkFunction 1 (py "f") 2 1 1 0 (Some 10%Z) None)
              (mkResult true [] (float_of 5 0) None) = Value 7%Z
  /\ new_average (mkFunction 1 (py "f") 2 1 1 0 (Some 3%Z) None)
                 (mkResult true [] (float_of 6755399441055743 (-51)) None)
     = Value 3%Z
  /\ (Q_of_float (float_of 6755399441055743 (-51)) < 3)%Q.
Proof. repeat split; vm_compute; reflexivity. Qed.

Section Callback.

Variable str_of : arith_error -> str.

Abbreviation receive := (receive_execution_result str_of).


End Callback.


End FunctionFacts.

(** ** The worker's atomic upload *)

Module StorageFacts.

Import Storage.

Lemma write_all_spec (tmp : str) (cs : list bytes) :
  forall (total : Z) (base : gmap (list ascii) bytes) (dirs : gset (list ascii))
         (tr : list syscall) (x : bytes),
    write_all tmp cs total (mkWorld (mkFs (<[tmp := x]> base) dirs) tr)
    = ((total + size_of cs)%Z,
       mkWorld (mkFs (<[tmp := x ++ concat cs]> base) dirs)
               (tr ++ map (Write tmp) cs)).
Proof.
  unfold size_of.
  induction cs as [|c cs IH]; intros total base dirs tr x; simpl.
  - rewrite !app_nil_r, Z.add_0_r. reflexivity.
  - unfold sys_write, log. cbn [w_fs w_trace fs_files fs_dirs].
    rewrite alter_insert_eq, IH.
    rewrite length_app, Nat2Z.inj_add, <- !app_assoc. simpl.
    f_equal. lia.
Qed.

Lemma write_until_empty_spec (tmp : str) (cs : list bytes) :
  forall (total : Z) (base : gmap (list ascii) bytes) (dirs : gset (list ascii))
         (tr : list syscall) (x : bytes),
    write_until_empty tmp cs total (mkWorld (mkFs (<[tmp := x]> base) dirs) tr)
    = ((total + size_of (fst (until_empty cs)))%Z,
       mkWorld (mkFs (<[tmp := x ++ concat (fst (until_empty cs))]> base) dirs)
               (tr ++ map (Write tmp) (fst (until_empty cs))),
       snd (until_empty cs)).
Proof.
  unfold size_of.
  induction cs as [|c cs IH]; intros total base dirs tr x.
  - simpl. rewrite !app_nil_r, Z.add_0_r. reflexivity.
  - destruct c as [|b c].
    + simpl. rewrite !app_nil_r, Z.add_0_r. reflexivity.
    + cbn [write_until_empty until_empty].
      unfold sys_write, log. cbn [w_fs w_trace fs_files fs_dirs].
      rewrite alter_insert_eq, IH.
      destruct (until_empty cs) as [xs e]. cbn [fst snd concat map].
      rewrite length_app, Nat2Z.inj_add, <- !app_assoc.
      f_equal. f_equal. lia.
Qed.

Lemma rsplit1_last (sep : ascii) (d name : str) :
  forallb (fun c => negb (chr_eqb c sep)) name = true ->
  rsplit1 sep (d ++ sep :: name) = Some (d, name).
Proof.
  intros Hn.
  assert (Hnone : rsplit1 sep name = None).
  { induction name as [|c name IH]; [reflexivity|].
    cbn [forallb] in Hn. apply andb_prop in Hn as [Hc Hn].
    cbn [rsplit1]. rewrite (IH Hn).
    apply negb_true_iff in Hc. now rewrite Hc. }
  induction d as [|c d IH]; cbn [app rsplit1].
  - now rewrite Hnone, chr_eqb_refl.
  - now rewrite IH.
Qed.

(** A file created in a directory under a name without slash has that
    directory as its parent. *)
Lemma parent_of_child (d name : str) :
  forallb (fun c => negb (chr_eqb c "/")) name = true ->
  parent (d ++ py "/" ++ name) = d.
Proof.
  intros Hn. unfold parent.
  change (d ++ py "/" ++ name) with (d ++ "/"%char :: name).
  now rewrite rsplit1_last.
Qed.

Section Atomicity.

Variable BASE_PATH : str.
Variable safe_join : str -> str -> option str.
Variable strerror : syscall -> str.

Abbreviation upload := (upload_file BASE_PATH safe_join strerror).

(** The outcomes of the worker's upload, case by case. *)
Lemma upload_outcomes (bucket path : str) (request : payload)
        (tmp_name : str) (dk : disk) (w0 : world) :
  (forall file_path,
      safe_join (BASE_PATH ++ py "/" ++ bucket) path = Some file_path ->
      fs_files (w_fs w0) !! (parent file_path ++ py "/" ++ tmp_name) = None) ->
  let out := upload bucket path request tmp_name dk w0 in
  (forall code detail,
      fst out = HTTPException code detail ->
      fs_files (w_fs (snd out)) = fs_files (w_fs w0))
  /\ (forall file_path,
         BASE_PATH ++ py "/" ++ bucket ∈ fs_dirs (w_fs w0) ->
         safe_join (BASE_PATH ++ py "/" ++ bucket) path = Some file_path ->
         outcome_of strerror path request tmp_name dk w0 file_path out).
Proof.
  intros Hfresh. cbv zeta. unfold upload_file, outcome_of.
  destruct (bool_decide (BASE_PATH ++ py "/" ++ bucket ∈ fs_dirs (w_fs w0)))
    eqn:Hb; cbn [negb].
  2:{ split; [reflexivity|]. intros fp Hin. apply bool_decide_eq_false in Hb.
      contradiction. }
  destruct (safe_join (BASE_PATH ++ py "/" ++ bucket) path) as [fp|] eqn:Hj.
  2:{ split; [reflexivity|]. intros fp _ [=]. }
  specialize (Hfresh fp eq_refl).
  match goal with
  | |- ?A /\ _ =>
      enough (H : A /\ outcome_of strerror path request tmp_name dk w0 fp
                                  (upload bucket path request tmp_name dk w0))
  end.
  { destruct H as [H1 H2]. split; [exact H1|]. intros fp' _ [= <-].
    unfold upload_file in H2. rewrite Hb, Hj in H2. exact H2. }
  unfold upload_file, outcome_of. rewrite Hb, Hj. cbn [negb].
  set (tmp := parent fp ++ py "/" ++ tmp_name) in *.
  destruct (if blocked (w_fs w0) (parent fp) then Some []
            else makedirs_raises dk) as [created|].
  { cbn [fst snd]. split; [reflexivity|]. split; reflexivity. }
  set (isdir := is_directory (sys_makedirs (parent fp) w0) fp).
  clearbody isdir.
  destruct w0 as [[files dirs] tr]. cbn [w_fs w_trace fs_files fs_dirs] in *.
  unfold sys_mkstemp, sys_makedirs, sys_failed, log.
  cbn [w_fs w_trace fs_files fs_dirs].
  set (dirs' := list_to_set _ ∪ dirs).
  destruct (mkstemp_raises dk).
  { unfold cleanup. cbn [fst snd w_fs w_trace fs_files]. split; [reflexivity|].
    split; [reflexivity|]. now rewrite <- !app_assoc. }
  assert (Hunlink : forall (x : bytes) (t : list syscall),
             fs_files (w_fs (sys_unlink tmp
               (mkWorld (mkFs (<[tmp := x]> files) dirs') t))) = files).
  { intros x t. unfold sys_unlink. cbn [w_fs fs_files].
    rewrite delete_insert_eq. now apply delete_id. }
  assert (Hreplace : forall (x : bytes) (t : list syscall),
             sys_replace tmp fp (mkWorld (mkFs (<[tmp := x]> files) dirs') t)
             = mkWorld (mkFs (<[fp := x]> files) dirs') (t ++ [Replace tmp fp])).
  { intros x t. unfold sys_replace, log. cbn [w_fs w_trace fs_files fs_dirs].
    rewrite lookup_insert_eq, delete_insert_eq, (delete_id _ _ Hfresh).
    reflexivity. }
  assert (Hfinish : forall cs : list bytes,
             let w := mkWorld (mkFs (<[tmp := [] ++ concat cs]> files) dirs')
                        (((tr ++ [Makedirs (parent fp)]) ++ [Mkstemp tmp])
                         ++ map (Write tmp) cs) in
             let out :=
               if (0 + size_of cs =? 0)%Z then
                 (HTTPException 422 (py "File cannot be empty"),
                  sys_unlink tmp w)
               else if replace_raises dk || isdir
               then cleanup (Some tmp) (strerror (Replace tmp fp))
                            (mkWorld (w_fs w) (w_trace w ++ [Replace tmp fp]))
               else (Return (mkMeta (name_of fp) path (0 + size_of cs)),
                     sys_replace tmp fp w) in
             (forall code detail, fst out = HTTPException code detail ->
                                  fs_files (w_fs (snd out)) = files)
             /\ (let written := (tr ++ [Makedirs (parent fp); Mkstemp tmp])
                                ++ map (Write tmp) cs in
                 if (size_of cs =? 0)%Z then
                   fst out = HTTPException 422 (py "File cannot be empty")
                   /\ w_trace (snd out) = written ++ [Unlink tmp]
                 else if replace_raises dk || isdir then
                   fst out = HTTPException 500
                               (py "Upload failed: "
                                ++ strerror (Replace tmp fp))
                   /\ w_trace (snd out)
                      = written ++ [Replace tmp fp; Unlink tmp]
                 else
                   fst out = Return (mkMeta (name_of fp) path (size_of cs))
                   /\ w_trace (snd out) = written ++ [Replace tmp fp]
                   /\ fs_files (w_fs (snd out)) = <[fp := concat cs]> files)).
  { intros cs. cbv zeta. rewrite Z.add_0_l. cbn [app].
    destruct (size_of cs =? 0)%Z; [|destruct (replace_raises dk || isdir)].
    - cbn [fst snd]. split; [intros _ _ _; apply Hunlink|].
      split; [reflexivity|].
      unfold sys_unlink, log. cbn [w_trace]. now rewrite <- !app_assoc.
    - unfold cleanup. cbn [fst snd w_fs w_trace].
      split; [intros _ _ _; apply Hunlink|]. split; [reflexivity|].
      unfold sys_unlink, log. cbn [w_trace]. now rewrite <- !app_assoc.
    - rewrite Hreplace. cbn [fst snd w_fs w_trace fs_files].
      split; [discriminate|]. split; [reflexivity|].
      split; [now rewrite <- !app_assoc | reflexivity]. }
  destruct request as [b | [f|]]; cbn [complete_body written_chunks body_error].
  - (* raw bytes *)
    rewrite write_all_spec.
    destruct (raises b) as [e|].
    + unfold cleanup. cbn [fst snd]. split.
      * intros _ _ _. apply Hunlink.
      * split; [reflexivity|].
        unfold sys_unlink, log. cbn [w_trace]. now rewrite <- !app_assoc.
    + destruct (Hfinish (chunks b)) as [H1 H2]. split; [exact H1 | exact H2].
  - (* multipart with a file *)
    rewrite write_until_empty_spec.
    destruct (until_empty (chunks f)) as [cs eof]. cbn [fst snd].
    destruct (raises f) as [e|]; [destruct eof|].
    + destruct (Hfinish cs) as [H1 H2]. split; [exact H1 | exact H2].
    + unfold cleanup. cbn [fst snd]. split.
      * intros _ _ _. apply Hunlink.
      * split; [reflexivity|].
        unfold sys_unlink, log. cbn [w_trace]. now rewrite <- !app_assoc.
    + destruct (Hfinish cs) as [H1 H2]. split; [exact H1 | exact H2].
  - (* multipart without a file *)
    cbn [fst snd]. split; [intros _ _ _; apply Hunlink|].
    split; [reflexivity|].
    unfold sys_unlink, log. cbn [w_trace map app]. now rewrite <- !app_assoc.
Qed.

(** C7: the worker's upload.  Once the bucket exists, the path is safe and
    the parent directories could be made, the handler creates the
    temporary file in the parent directory of the target (the directory of
    the temporary file is the directory of the target) and writes every
    chunk to it.  If the whole body arrived and is not empty, one [Replace]
    of the target by the temporary file is called after all the writes;
    when it succeeds it is the last call, and the target then holds the
    whole body.  An empty body is answered 422 and the temporary file is
    unlinked; a body that breaks off, a form without a file and a rename
    that raises are answered with an error and the temporary file is
    unlinked as the last call.  In every failure case, the ones before the
    temporary file exists included, the stored files are exactly the ones
    before the request, the target among them. *)
Theorem upload_is_atomic (bucket path : str) (request : payload)
        (tmp_name : str) (dk : disk) (w0 : world) :
  (forall file_path,
      safe_join (BASE_PATH ++ py "/" ++ bucket) path = Some file_path ->
      fs_files (w_fs w0) !! (parent file_path ++ py "/" ++ tmp_name) = None) ->
  let out := upload bucket path request tmp_name dk w0 in
  (forall code detail,
      fst out = HTTPException code detail ->
      fs_files (w_fs (snd out)) = fs_files (w_fs w0))
  /\ (forall file_path,
         forallb (fun c => negb (chr_eqb c "/")) tmp_name = true ->
         parent (parent file_path ++ py "/" ++ tmp_name) = parent file_path)
  /\ (forall file_path,
         BASE_PATH ++ py "/" ++ bucket ∈ fs_dirs (w_fs w0) ->
         safe_join (BASE_PATH ++ py "/" ++ bucket) path = Some file_path ->
         outcome_of strerror path request tmp_name dk w0 file_path out).
Proof.
  intros Hfresh. cbv zeta.
  destruct (upload_outcomes bucket path request tmp_name dk w0 Hfresh)
    as [Hfail Hcases].
  split; [exact Hfail|]. split; [|exact Hcases].
  intros file_path Hname. now apply parent_of_child.
Qed.

End Atomicity.

(** The theorem on a body that breaks off after its first chunk: the blob
    stored at the target is untouched. *)
Lemma upload_is_atomic_witness :
  fs_files (w_fs (snd (upload_file (py "/data") sample_join
                         (fun _ => py "connection reset") (py "docs")
                         (py "doc.pdf")
                         (Raw (mkBody [[Byte.x02]]
                                      (Some (py "connection reset"))))
                         (py "tmpabc.tmp") (mkDisk None false false)
                         sample_world)))
  = fs_files (w_fs sample_world).
Proof.
  eapply (upload_is_atomic (py "/data") sample_join
            (fun _ => py "connection reset") (py "docs") (py "doc.pdf")
            (Raw (mkBody [[Byte.x02]] (Some (py "connection reset"))))
            (py "tmpabc.tmp") (mkDisk None false false) sample_world).
  - intros file_path [= <-]. vm_compute. reflexivity.
  - vm_compute. reflexivity.
Defined.

End StorageFacts.

(** ** The matcher on the patterns of the file name resolution *)

Module ReFacts.

Import Re.

Lemma take_drop_while (p : ascii -> bool) (s : str) :
  take_while p s ++ drop_while p s = s.
Proof.
  induction s as [|c s IH]; simpl; [reflexivity|].
  destruct (p c); simpl; [now rewrite IH | reflexivity].
Qed.

Lemma take_while_all (p : ascii -> bool) (s : str) :
  forallb p (take_while p s) = true.
Proof.
  induction s as [|c s IH]; simpl; [reflexivity|].
  destruct (p c) eqn:E; simpl; [now rewrite E | reflexivity].
Qed.


Lemma take_while_app (p : ascii -> bool) (a : str) (c : ascii) (r : str) :
  forallb p a = true -> p c = false ->
  take_while p (a ++ c :: r) = a /\ drop_while p (a ++ c :: r) = c :: r.
Proof.
  intros Ha Hc. induction a as [|x a IH]; simpl in *.
  - now rewrite Hc.
  - apply andb_prop in Ha as [Hx Ha]. rewrite Hx.
    destruct (IH Ha) as [-> ->]. now split.
Qed.

Lemma firstn_take_while (p : ascii -> bool) (s : str) :
  firstn (length s - length (drop_while p s)) s = take_while p s.
Proof.
  rewrite <- (take_drop_while p s) at 1 3.
  rewrite length_app, Nat.add_sub.
  rewrite firstn_app, Nat.sub_diag, firstn_all. simpl. apply app_nil_r.
Qed.

Lemma startswith_nil (x : str) : startswith x [] = true.
Proof. now destruct x. Qed.

Lemma startswith_app (s r : str) : startswith (s ++ r) s = true.
Proof.
  induction s as [|c s IH]; simpl; [apply startswith_nil|].
  now rewrite chr_eqb_refl.
Qed.

Lemma startswith_split (x s : str) :
  startswith x s = true -> x = s ++ skipn (length s) x.
Proof.
  revert x. induction s as [|c s IH]; intros x H; simpl in *.
  - reflexivity.
  - destruct x as [|y x]; [discriminate|].
    apply andb_prop in H as [Hc Hs]. apply chr_eqb_eq in Hc. subst y.
    simpl. f_equal. now apply IH.
Qed.

Lemma skipn_app_exact (s r : str) : skipn (length s) (s ++ r) = r.
Proof. induction s as [|c s IH]; simpl; [reflexivity | exact IH]. Qed.

(** A literal matches exactly a prefix. *)
Lemma run_lit {A : Type} (s : str) :
  forall (x : str) (c : caps) (k : str -> caps -> option A),
    run (lit s) x c k
    = if startswith x s then k (skipn (length s) x) c else None.
Proof.
  unfold lit. induction s as [|a s IH]; intros x c k.
  - simpl. now rewrite startswith_nil.
  - destruct s as [|b s].
    + simpl. destruct x as [|y x]; [reflexivity|].
      cbn [startswith length skipn].
      rewrite startswith_nil, andb_true_r. reflexivity.
    + change (seq (map chr (a :: b :: s)))
        with (Cat (chr a) (seq (map chr (b :: s)))).
      cbn [run chr]. destruct x as [|y x]; [reflexivity|].
      cbn [startswith length skipn].
      destruct (chr_eqb a y); [|reflexivity].
      rewrite IH. reflexivity.
Qed.

(** When what follows a greedy run cannot start with a character of the
    class, only the longest run can lead to a match. *)
Lemma star_k_longest {A : Type} (p : ascii -> bool) (k : str -> option A) :
  (forall a x, p a = true -> k (a :: x) = None) ->
  forall s, star_k p s k = k (drop_while p s).
Proof.
  intros Hk. induction s as [|a s IH]; simpl; [reflexivity|].
  destruct (p a) eqn:E; [|reflexivity].
  rewrite IH. destruct (k (drop_while p s)); [reflexivity|].
  now apply Hk.
Qed.

End ReFacts.

(** ** Decimal numerals *)

Module DecFacts.

Abbreviation step := (fun (acc : N) (c : ascii) => (10 * acc + N.of_nat (code c - 48))%N).

Abbreviation digits_of d := (list_ascii_of_string (NilEmpty.string_of_uint d)).

Lemma fold_digits_acc (d : Decimal.uint) :
  forall acc : positive,
    fold_left step (digits_of d) (Npos acc) = Npos (Pos.of_uint_acc d acc).
Proof.
  induction d; intros acc; cbn [NilEmpty.string_of_uint list_ascii_of_string
                                fold_left Pos.of_uint_acc];
    try reflexivity;
    rewrite <- IHd; f_equal; cbn; try rewrite Pos.add_comm; reflexivity.
Qed.

Lemma fold_digits (d : Decimal.uint) :
  fold_left step (digits_of d) 0%N = N.of_uint d.
Proof.
  unfold N.of_uint.
  induction d; cbn [NilEmpty.string_of_uint list_ascii_of_string fold_left
                    Pos.of_uint];
    try reflexivity; try exact IHd;
    rewrite <- fold_digits_acc; reflexivity.
Qed.

Lemma digits_all (d : Decimal.uint) : forallb is_digit (digits_of d) = true.
Proof. induction d; simpl; auto. Qed.

(** Reading back what [str(n)] printed gives [n]. *)
Lemma int_of_dec (n : N) : int_of_digits (dec n) = n.
Proof.
  unfold int_of_digits, dec, NilZero.string_of_uint.
  rewrite <- (DecimalN.Unsigned.of_to n) at 2.
  destruct (N.to_uint n) eqn:E; try apply fold_digits. reflexivity.
Qed.

Lemma dec_digits (n : N) : forallb is_digit (dec n) = true.
Proof.
  unfold dec, NilZero.string_of_uint.
  destruct (N.to_uint n); try apply digits_all. reflexivity.
Qed.

Lemma dec_not_empty (n : N) : dec n <> [].
Proof.
  unfold dec, NilZero.string_of_uint.
  destruct (N.to_uint n); discriminate.
Qed.

End DecFacts.

(** ** Duplicate file names *)

Module FileFacts.

Import Re ReFacts Files.

Lemma space_not_paren (a : ascii) : is_space a = true -> chr_eqb "(" a = false.
Proof.
  intros H. destruct (chr_eqb "(" a) eqn:E; [|reflexivity].
  apply chr_eqb_eq in E. subst a. discriminate H.
Qed.

Lemma digit_not_paren (a : ascii) : is_digit a = true -> chr_eqb ")" a = false.
Proof.
  intros H. destruct (chr_eqb ")" a) eqn:E; [|reflexivity].
  apply chr_eqb_eq in E. subst a. discriminate H.
Qed.

Lemma run_cat {A : Type} (r1 r2 : re) (s : str) (c : caps)
      (k : str -> caps -> option A) :
  run (Cat r1 r2) s c k = run r1 s c (fun s1 c1 => run r2 s1 c1 k).
Proof. reflexivity. Qed.

Lemma run_opt {A : Type} (r : re) (s : str) (c : caps)
      (k : str -> caps -> option A) :
  run (Opt r) s c k
  = match run r s c k with Some x => Some x | None => k s c end.
Proof. reflexivity. Qed.

Abbreviation final := (fun (s : str) (c : caps) => Some (s, c)).

Lemma run_tail (ext r : str) (c : caps) :
  run (Cat (lit ext) Eol) r c final
  = if tail_ok ext r then Some (skipn (length ext) r, c) else None.
Proof.
  cbn [run]. rewrite run_lit. unfold tail_ok.
  destruct (startswith r ext); [|reflexivity].
  cbn [andb]. now destruct (at_end _).
Qed.

Lemma run_number_group (ext r : str) :
  run number_group r [] (fun s c => run (Cat (lit ext) Eol) s c final)
  = match numbered_suffix ext r with
    | Some (ds, rest) => Some (rest, [(1, ds)])
    | None => None
    end.
Proof.
  unfold number_group, sp, plus, numbered_suffix.
  cbn [seq run].
  rewrite star_k_longest.
  2:{ intros a x Ha. cbn [run chr]. now rewrite (space_not_paren a Ha). }
  destruct (drop_while is_space r) as [|c r2]; [reflexivity|].
  cbn [run chr]. destruct (chr_eqb "(" c); [|reflexivity].
  destruct r2 as [|d r3]; [reflexivity|].
  destruct (is_digit d) eqn:Hd; [|reflexivity].
  rewrite star_k_longest.
  2:{ intros a x Ha. now rewrite (digit_not_paren a Ha). }
  pose proof (firstn_take_while is_digit (d :: r3)) as Hf.
  cbn [drop_while take_while] in Hf. rewrite Hd in Hf.
  rewrite Hf.
  destruct (drop_while is_digit r3) as [|e r4]; [reflexivity|].
  destruct (chr_eqb ")" e); [|reflexivity].
  cbn [andb].
  change (run (Cat (lit ext) Eol) r4 [(1, d :: take_while is_digit r3)] final
          = match (if tail_ok ext r4
                   then Some (d :: take_while is_digit r3, skipn (length ext) r4)
                   else None) with
            | Some (ds, rest) => Some (rest, [(1, ds)])
            | None => None
            end).
  rewrite run_tail. now destruct (tail_ok ext r4).
Qed.

(** [used_number] without the matcher. *)
Lemma used_number_direct (prefix ext p : str) :
  used_number prefix ext p
  = if startswith p prefix then
      match numbered_suffix ext (skipn (length prefix) p) with
      | Some (ds, _) => Some (int_of_digits ds)
      | None =>
          if tail_ok ext (skipn (length prefix) p) then Some 0%N else None
      end
    else None.
Proof.
  unfold used_number, rmatch, name_pattern.
  change (seq [lit prefix;
               Opt (seq [sp; chr "("; Grp 1 (plus is_digit); chr ")"]);
               lit ext; Eol])
    with (Cat (lit prefix) (Cat (Opt number_group) (Cat (lit ext) Eol))).
  rewrite run_cat, run_lit.
  destruct (startswith p prefix); [|reflexivity].
  rewrite run_cat, run_opt, run_number_group.
  destruct (numbered_suffix ext (skipn (length prefix) p)) as [[ds rest]|].
  - cbn [group Nat.eqb]. reflexivity.
  - rewrite run_tail. now destruct (tail_ok _ _).
Qed.


Lemma at_end_cases (s : str) : at_end s = true -> s = [] \/ s = [NL].
Proof.
  destruct s as [|c [|d s]]; simpl; intros H; try discriminate.
  - now left.
  - right. apply chr_eqb_eq in H. now subst.
Qed.

Lemma tail_ok_split (ext r : str) :
  tail_ok ext r = true -> exists tail, r = ext ++ tail /\ (tail = [] \/ tail = [NL]).
Proof.
  unfold tail_ok. intros H. apply andb_prop in H as [Hs He].
  exists (skipn (length ext) r). split.
  - now apply startswith_split.
  - now apply at_end_cases.
Qed.

Lemma tail_ok_refl (ext : str) : tail_ok ext ext = true.
Proof.
  unfold tail_ok.
  rewrite <- (app_nil_r ext) at 1 4.
  rewrite startswith_app, skipn_app_exact. reflexivity.
Qed.

Lemma numbered_suffix_sound (ext r ds rest : str) :
  numbered_suffix ext r = Some (ds, rest) ->
  exists ws tail,
    r = ws ++ py "(" ++ ds ++ py ")" ++ ext ++ tail
    /\ forallb is_space ws = true /\ ds <> []
    /\ forallb is_digit ds = true /\ (tail = [] \/ tail = [NL]).
Proof.
  unfold numbered_suffix. intros H.
  pose proof (take_drop_while is_space r) as Hr.
  destruct (drop_while is_space r) as [|c r2]; [discriminate|].
  destruct (chr_eqb "(" c) eqn:Hc; [|discriminate].
  apply chr_eqb_eq in Hc. subst c.
  destruct r2 as [|d r3]; [discriminate|].
  destruct (is_digit d) eqn:Hd; [|discriminate].
  pose proof (take_drop_while is_digit r3) as Hr3.
  destruct (drop_while is_digit r3) as [|e r4]; [discriminate|].
  destruct (chr_eqb ")" e) eqn:He; [|discriminate].
  apply chr_eqb_eq in He. subst e.
  destruct (tail_ok ext r4) eqn:Ht; [|discriminate].
  cbn [andb] in H. injection H as <- <-.
  destruct (tail_ok_split ext r4 Ht) as [tail [-> Htail]].
  exists (take_while is_space r), tail.
  split; [|split; [apply take_while_all | split; [discriminate | split]]].
  - rewrite <- Hr at 1. f_equal. simpl. do 2 f_equal. symmetry. exact Hr3.
  - simpl. rewrite Hd. apply take_while_all.
  - exact Htail.
Qed.

Lemma tail_ok_tail (ext tail : str) :
  at_end tail = true -> tail_ok ext (ext ++ tail) = true.
Proof.
  intros H. unfold tail_ok. now rewrite startswith_app, skipn_app_exact, H.
Qed.

Lemma numbered_suffix_complete (ext ws ds tail : str) :
  forallb is_space ws = true -> ds <> [] -> forallb is_digit ds = true ->
  at_end tail = true ->
  exists rest,
    numbered_suffix ext (ws ++ py "(" ++ ds ++ py ")" ++ ext ++ tail)
    = Some (ds, rest).
Proof.
  intros Hws Hne Hds Ht. unfold numbered_suffix.
  destruct ds as [|d ds]; [contradiction|].
  cbn [forallb] in Hds. apply andb_prop in Hds as [Hd Hds].
  change (ws ++ py "(" ++ (d :: ds) ++ py ")" ++ ext ++ tail)
    with (ws ++ "("%char :: d :: (ds ++ ")"%char :: ext ++ tail)).
  destruct (take_while_app is_space ws "(" (d :: ds ++ ")"%char :: ext ++ tail)
              Hws eq_refl) as [_ ->].
  rewrite chr_eqb_refl, Hd.
  destruct (take_while_app is_digit ds ")" (ext ++ tail) Hds eq_refl) as [-> ->].
  rewrite chr_eqb_refl, (tail_ok_tail ext tail Ht). cbn [andb]. eauto.
Qed.

Lemma used_number_sound (prefix ext p : str) (k : N) :
  used_number prefix ext p = Some k -> (1 <= k)%N ->
  exists tail, numbered prefix ext p k tail /\ (tail = [] \/ tail = [NL]).
Proof.
  rewrite used_number_direct. intros H Hk.
  destruct (startswith p prefix) eqn:Hs; [|discriminate].
  apply startswith_split in Hs.
  destruct (numbered_suffix ext (skipn (length prefix) p)) as [[ds rest]|] eqn:Hn.
  - injection H as <-.
    destruct (numbered_suffix_sound _ _ _ _ Hn) as [ws [tail [Hr [Hws [Hne [Hds Ht]]]]]].
    exists tail. split; [|exact Ht].
    exists ws, ds. rewrite Hr in Hs. repeat split; assumption.
  - destruct (tail_ok ext _); [|discriminate].
    injection H as <-. lia.
Qed.

(** A path spelled prefix, whitespace, [(digits)], extension uses the number
    its digits denote. *)
Lemma used_number_complete (prefix ext p : str) (k : N) (tail : str) :
  numbered prefix ext p k tail -> at_end tail = true ->
  used_number prefix ext p = Some k.
Proof.
  intros [ws [ds [-> [Hws [Hne [Hds <-]]]]]] Ht.
  rewrite used_number_direct, startswith_app, skipn_app_exact.
  destruct (numbered_suffix_complete ext ws ds tail Hws Hne Hds Ht) as [rest ->].
  reflexivity.
Qed.

(** *** LIKE on patterns without escapes *)

Lemma like_percent (p t : str) :
  like ("%"%char :: p) t
  = like p t || match t with [] => false | _ :: t' => like ("%"%char :: p) t' end.
Proof. destruct t; reflexivity. Qed.

Lemma like_same_prefix (s p t : str) :
  no_backslash s = true -> like p t = true -> like (s ++ p) (s ++ t) = true.
Proof.
  intros Hs H. induction s as [|c s IH]; [exact H|].
  cbn [no_backslash forallb] in Hs. apply andb_prop in Hs as [Hc Hs].
  specialize (IH Hs).
  destruct (chr_eqb c "%") eqn:E1.
  - apply chr_eqb_eq in E1. subst c.
    change (("%"%char :: s) ++ p) with ("%"%char :: (s ++ p)).
    rewrite (like_percent (s ++ p) (("%"%char :: s) ++ t)). cbn [app].
    rewrite (like_percent (s ++ p) (s ++ t)), IH. cbn [orb].
    apply orb_true_r.
  - cbn [app like]. rewrite E1.
    destruct (chr_eqb c "_"); [exact IH|].
    apply negb_true_iff in Hc. rewrite Hc, chr_eqb_refl. exact IH.
Qed.

Lemma like_any_middle (ext mid : str) :
  no_backslash ext = true -> like ("%"%char :: ext) (mid ++ ext) = true.
Proof.
  intros He. induction mid as [|a mid IH].
  - rewrite (like_percent ext ([] ++ ext)). simpl app.
    pose proof (like_same_prefix ext [] [] He eq_refl) as H.
    rewrite !app_nil_r in H. now rewrite H.
  - rewrite (like_percent ext ((a :: mid) ++ ext)). cbn [app].
    rewrite IH. apply orb_true_r.
Qed.

Lemma like_prefix_ext (prefix ext mid : str) :
  no_backslash prefix = true -> no_backslash ext = true ->
  like (prefix ++ py "%" ++ ext) (prefix ++ mid ++ ext) = true.
Proof.
  intros Hp He. apply like_same_prefix; [exact Hp|].
  now apply like_any_middle.
Qed.

Lemma no_backslash_app (a b : str) :
  no_backslash (a ++ b) = no_backslash a && no_backslash b.
Proof. unfold no_backslash. apply forallb_app. Qed.

Lemma like_well_formed_plain (s : str) :
  no_backslash s = true -> like_well_formed s = true.
Proof.
  induction s as [|c s IH]; [reflexivity|].
  cbn [no_backslash forallb]. intros H. apply andb_prop in H as [Hc Hs].
  apply negb_true_iff in Hc. cbn [like_well_formed]. rewrite Hc. now apply IH.
Qed.

(** *** The search for the next free number *)

Lemma filter_length_le {A : Type} (f g : A -> bool) (l : list A) :
  (forall x, f x = true -> g x = true) ->
  length (List.filter f l) <= length (List.filter g l).
Proof.
  intros H. induction l as [|a l IH]; simpl; [lia|].
  destruct (f a) eqn:E.
  - rewrite (H a E). simpl. lia.
  - destruct (g a); simpl; lia.
Qed.

Lemma filter_length_lt {A : Type} (f g : A -> bool) (l : list A) (x : A) :
  (forall y, f y = true -> g y = true) ->
  In x l -> f x = false -> g x = true ->
  length (List.filter f l) < length (List.filter g l).
Proof.
  intros H Hin Hf Hg. induction l as [|a l IH]; [contradiction|].
  simpl. destruct Hin as [->|Hin].
  - rewrite Hf, Hg. simpl.
    pose proof (filter_length_le f g l H). lia.
  - specialize (IH Hin). destruct (f a) eqn:E.
    + rewrite (H a E). simpl. lia.
    + destruct (g a); simpl; lia.
Qed.

Lemma existsb_eqb_In (n : N) (used : list N) :
  existsb (N.eqb n) used = true <-> In n used.
Proof.
  rewrite existsb_exists. split.
  - intros [x [Hx E]]. apply N.eqb_eq in E. now subst.
  - intros H. exists n. split; [exact H | apply N.eqb_refl].
Qed.

(** With more fuel than there are used numbers from [start] on, the loop
    stops at the least number from [start] on that is not used. *)
Lemma next_free_least (used : list N) :
  forall (fuel : nat) (start : N),
    length (List.filter (fun u => (start <=? u)%N) used) < fuel ->
    let n := next_free fuel used start in
    (start <= n)%N /\ ~ In n used
    /\ forall m, (start <= m < n)%N -> In m used.
Proof.
  induction fuel as [|fuel IH]; intros start Hlen; [lia|].
  cbn [next_free].
  destruct (existsb (N.eqb start) used) eqn:E.
  - apply existsb_eqb_In in E.
    assert (Hlt : length (List.filter (fun u => (start + 1 <=? u)%N) used)
                  < length (List.filter (fun u => (start <=? u)%N) used)).
    { apply filter_length_lt with (x := start); [|exact E| |].
      - intros y Hy. apply N.leb_le in Hy. apply N.leb_le. lia.
      - apply N.leb_gt. lia.
      - apply N.leb_le. lia. }
    destruct (IH (start + 1)%N ltac:(lia)) as [H1 [H2 H3]].
    cbv zeta. split; [lia|]. split; [exact H2|].
    intros m Hm. destruct (N.eq_dec m start) as [->|Hne]; [exact E|].
    apply H3. lia.
  - cbv zeta. split; [lia|]. split.
    + intros H. apply existsb_eqb_In in H. congruence.
    + intros m Hm. lia.
Qed.

(** *** Directory, base name and extension *)

Lemma rsplit1_split (sep : ascii) (s a b : str) :
  rsplit1 sep s = Some (a, b) -> s = a ++ [sep] ++ b.
Proof.
  revert a b. induction s as [|c s IH]; intros a b; simpl; [discriminate|].
  destruct (rsplit1 sep s) as [[a' b']|].
  - intros [= <- <-]. simpl. f_equal. now apply IH.
  - destruct (chr_eqb c sep) eqn:E; [|discriminate].
    intros [= <- <-]. apply chr_eqb_eq in E. now subst.
Qed.

Lemma path_decomposition (original_path : str) :
  original_path
  = fst (split_directory original_path)
    ++ fst (split_extension (snd (split_directory original_path)))
    ++ snd (split_extension (snd (split_directory original_path))).
Proof.
  unfold split_directory, split_extension.
  destruct (rsplit1 "/" original_path) as [[d f]|] eqn:E1; cbn [fst snd].
  - apply rsplit1_split in E1. rewrite E1 at 1.
    destruct (rsplit1 "." f) as [[b e]|] eqn:E2; cbn [fst snd].
    + apply rsplit1_split in E2. rewrite E2. now rewrite <- !app_assoc.
    + now rewrite app_nil_r, <- app_assoc.
  - destruct (rsplit1 "." original_path) as [[b e]|] eqn:E2; cbn [fst snd].
    + apply rsplit1_split in E2. now rewrite E2 at 1.
    + now rewrite app_nil_r.
Qed.


Lemma filter_length_bound {A : Type} (f : A -> bool) (l : list A) :
  length (List.filter f l) <= length l.
Proof.
  induction l as [|a l IH]; simpl; [lia|]. destruct (f a); simpl; lia.
Qed.

Lemma in_omap_list {A B : Type} (f : A -> option B) (l : list A) (b : B) :
  In b (omap_list f l) <-> exists a, In a l /\ f a = Some b.
Proof.
  unfold omap_list. rewrite in_flat_map. split.
  - intros [a [Ha Hb]]. exists a. split; [exact Ha|].
    destruct (f a) as [b'|]; [|contradiction].
    destruct Hb as [->|[]]. reflexivity.
  - intros [a [Ha Hb]]. exists a. split; [exact Ha|]. rewrite Hb. now left.
Qed.

(** C6, as stated, fails: the numbers in use are read with a pattern that
    also accepts the number without the space before the parenthesis (and
    with leading zeros).  With [doc.pdf] and [doc(1).pdf] live, no live file
    is called [doc (1).pdf], yet the upload is stored as [doc (2).pdf]. *)
Lemma number_taken_by_another_spelling :
  ~ (forall (bucket_id : UUID) (original_path : str) (files : list file_row) (n : N),
        let directory := fst (split_directory original_path) in
        let base_name := fst (split_extension (snd (split_directory original_path))) in
        let ext := snd (split_extension (snd (split_directory original_path))) in
        let name := fun k => directory ++ base_name ++ py " (" ++ dec k ++ py ")" ++ ext in
        let is_live := fun p =>
          existsb (fun f => live_in bucket_id f && str_eqb (f_path f) p) files in
        is_live original_path = true ->
        (1 <= n)%N ->
        is_live (name n) = false ->
        (forall m, (1 <= m < n)%N -> is_live (name m) = true) ->
        find_next_available_filename bucket_id original_path files
        = Found (name n)).
Proof.
  intros H.
  specialize (H 1%N (py "doc.pdf")
                [ mkFile 1 (py "doc.pdf") (py "doc.pdf") 10 true None;
                  mkFile 1 (py "doc(1).pdf") (py "doc(1).pdf") 10 true None ]
                1%N).
  cbv zeta in H.
  specialize (H eq_refl ltac:(lia) eq_refl ltac:(intros m Hm; lia)).
  vm_compute in H. discriminate H.
Qed.

(** C6, amended: a requested path that names no live file of the bucket is
    used unchanged.  Otherwise (for a path without backslash) the stored
    path is the directory, the base name, [ (n)] and the extension, all
    three taken unchanged from the request, where n >= 1 is the least number
    that no live file of the bucket uses, so that the stored path is not the
    path of a live file.  A live file uses the number k when its path is the
    directory and base name, optional whitespace, [(digits)] with the digits
    denoting k in decimal (leading zeros allowed), and the extension -- so
    [doc(1).pdf] and [doc (01).pdf] use 1 as [doc (1).pdf] does -- or when
    it is such a path followed by one line feed that passes the LIKE filter
    [directory base % extension], as it always does when the request has no
    extension.  The row the upload inserts carries the stored path. *)
Theorem next_available_filename (bucket_id : UUID) (original_path : str)
        (files : list file_row) :
  let directory := fst (split_directory original_path) in
  let base_name := fst (split_extension (snd (split_directory original_path))) in
  let ext := snd (split_extension (snd (split_directory original_path))) in
  let taken :=
    existsb (fun f => live_in bucket_id f && str_eqb (f_path f) original_path)
            files in
  original_path = directory ++ base_name ++ ext
  /\ (taken = false ->
      find_next_available_filename bucket_id original_path files
      = Found original_path)
  /\ (taken = true -> no_backslash original_path = true ->
      exists n,
        find_next_available_filename bucket_id original_path files
        = Found (directory ++ base_name ++ py " (" ++ dec n ++ py ")" ++ ext)
        /\ (1 <= n)%N
        /\ (forall f, In f files -> live_in bucket_id f = true ->
                      f_path f
                      <> directory ++ base_name ++ py " (" ++ dec n ++ py ")" ++ ext)
        /\ (forall f, In f files -> live_in bucket_id f = true ->
                      ~ uses_number (directory ++ base_name) ext (f_path f) n)
        /\ (forall m, (1 <= m < n)%N ->
                      exists f,
                        In f files /\ live_in bucket_id f = true
                        /\ uses_number (directory ++ base_name) ext (f_path f) m)
        /\ (ext = [] ->
            forall p k, numbered (directory ++ base_name) ext p k [NL] ->
                        uses_number (directory ++ base_name) ext p k))
  /\ (forall bucket filename path authenticated size target,
         b_id bucket = bucket_id ->
         b_public bucket || authenticated = true ->
         requested_path filename path = original_path ->
         find_next_available_filename bucket_id original_path files = Found target ->
         exists resp bucket',
           upload_file bucket filename path authenticated (Some size) files
           = (Return resp,
              (bucket',
               files ++ [mkFile bucket_id (last_segment "/" target) target size
                                true None]))
           /\ r_path resp = target).
Proof.
  cbv zeta.
  split; [apply path_decomposition|].
  split; [intros H; unfold find_next_available_filename; now rewrite H|].
  split.
  - intros Htaken Hnb.
    pose proof (path_decomposition original_path) as Hdec.
    unfold find_next_available_filename, used_numbers. rewrite Htaken. cbn [negb].
    destruct (split_directory original_path) as [directory filename].
    cbn [fst snd] in *.
    destruct (split_extension filename) as [base_name ext].
    cbn [fst snd] in *.
    rewrite Hdec in Hnb. rewrite !no_backslash_app in Hnb.
    apply andb_prop in Hnb as [Hd Hnb]. apply andb_prop in Hnb as [Hb He].
    assert (Hpre : no_backslash (directory ++ base_name) = true)
      by now rewrite no_backslash_app, Hd, Hb.
    assert (Hwf : like_well_formed (directory ++ base_name ++ py "%" ++ ext) = true).
    { apply like_well_formed_plain. rewrite !no_backslash_app, Hd, Hb, He.
      reflexivity. }
    rewrite Hwf. cbn [negb].
    assert (Hlike : forall p k, numbered (directory ++ base_name) ext p k [] ->
                      like (directory ++ base_name ++ py "%" ++ ext) p = true).
    { intros p k [ws [ds [-> _]]].
      rewrite (app_assoc directory base_name (py "%" ++ ext)).
      replace (ws ++ py "(" ++ ds ++ py ")" ++ ext ++ [])
        with ((ws ++ py "(" ++ ds ++ py ")") ++ ext)
        by (now rewrite app_nil_r, <- !app_assoc).
      now apply like_prefix_ext. }
    set (used := omap_list (used_number (directory ++ base_name) ext)
                   (existing_files bucket_id
                      (directory ++ base_name ++ py "%" ++ ext) files)).
    assert (Hused : forall f k,
               In f files -> live_in bucket_id f = true ->
               uses_number (directory ++ base_name) ext (f_path f) k ->
               In k used).
    { intros f k Hin Hlive Hu. unfold used. apply in_omap_list.
      exists (f_path f). split.
      - unfold existing_files. apply in_map. apply filter_In.
        split; [exact Hin|]. rewrite Hlive. cbn [andb].
        destruct Hu as [Hn | [_ Hl]].
        + exact (Hlike _ _ Hn).
        + rewrite <- app_assoc in Hl. exact Hl.
      - destruct Hu as [Hn | [Hn _]].
        + now apply used_number_complete with (tail := []).
        + now apply used_number_complete with (tail := [NL]). }
    destruct (next_free_least used (S (length used)) 1%N) as [H1 [H2 H3]].
    { pose proof (filter_length_bound (fun u => (1 <=? u)%N) used). lia. }
    exists (next_free (S (length used)) used 1%N).
    split; [reflexivity|]. split; [exact H1|].
    assert (Hfree : forall f, In f files -> live_in bucket_id f = true ->
                      ~ uses_number (directory ++ base_name) ext (f_path f)
                                    (next_free (S (length used)) used 1%N)).
    { intros f Hin Hlive Hu. apply H2. exact (Hused f _ Hin Hlive Hu). }
    split; [|split; [exact Hfree|split]].
    + intros f Hin Hlive Heq. apply (Hfree f Hin Hlive). left.
      exists (py " "), (dec (next_free (S (length used)) used 1%N)).
      split; [|split; [reflexivity | split; [apply DecFacts.dec_not_empty | split;
                 [apply DecFacts.dec_digits | apply DecFacts.int_of_dec]]]].
      rewrite Heq, <- !app_assoc, app_nil_r. reflexivity.
    + intros m Hm. specialize (H3 m Hm).
      unfold used in H3. apply in_omap_list in H3 as [p [Hp Hu]].
      unfold existing_files in Hp. apply in_map_iff in Hp as [f [<- Hf]].
      apply filter_In in Hf as [Hin Hf]. apply andb_prop in Hf as [Hlive Hl].
      destruct (used_number_sound _ _ _ _ Hu ltac:(lia)) as [tail [Hn Ht]].
      exists f. split; [exact Hin|]. split; [exact Hlive|].
      destruct Ht as [-> | ->]; [now left | right].
      split; [exact Hn|]. now rewrite <- app_assoc.
    + intros -> p k Hn. right. split; [exact Hn|].
      destruct Hn as [ws [ds [-> _]]].
      replace (ws ++ py "(" ++ ds ++ py ")" ++ [] ++ [NL])
        with ((ws ++ py "(" ++ ds ++ py ")" ++ [NL]) ++ [])
        by (now rewrite app_nil_r).
      now apply like_prefix_ext.
  - intros bucket filename path authenticated size target Hb Hacc Hreq Hfound.
    unfold upload_file.
    rewrite Hreq, Hb, Hfound.
    destruct (b_public bucket); destruct authenticated; try discriminate;
      cbn [negb andb]; eauto.
Qed.

(** The theorem on a second upload of [doc.pdf] when [doc.pdf] and
    [doc (1).pdf] are live. *)
Lemma next_available_filename_witness :
  exists n,
    find_next_available_filename 1 (py "doc.pdf") [doc "doc.pdf"; doc "doc (1).pdf"]
    = Found (py "doc" ++ py " (" ++ dec n ++ py ")" ++ py ".pdf")
    /\ (1 <= n)%N.
Proof.
  destruct (next_available_filename 1%N (py "doc.pdf")
              [doc "doc.pdf"; doc "doc (1).pdf"]) as [_ [_ [H _]]].
  destruct (H eq_refl eq_refl) as [n [H1 [H2 _]]].
  exists n. split; [exact H1 | exact H2].
Defined.

End FileFacts.

(** ** Login and logout *)

Module SessionFacts.

Import Tokens Sessions.

Section Handlers.

Variable hash_token : str -> str.
Variable verify_password : str -> str -> bool.
Variable ACCESS_TOKEN_EXPIRE_MINUTES : Z.
Variable REFRESH_TOKEN_EXPIRE_DAYS : Z.

Abbreviation login :=
  (login_for_access_token hash_token verify_password
                          ACCESS_TOKEN_EXPIRE_MINUTES REFRESH_TOKEN_EXPIRE_DAYS).
Abbreviation validate := (validate_refresh_token hash_token).
Abbreviation carries tok :=
  (fun r : token_row => str_eqb (rt_token_hash r) (hash_token tok)).

Lemma find_snoc_fresh {A : Type} (p : A -> bool) (l : list A) (x : A) :
  (forall r, In r l -> p r = false) -> p x = true ->
  List.find p (l ++ [x]) = Some x.
Proof.
  intros Hl Hx. induction l as [|a l IH]; simpl.
  - now rewrite Hx.
  - rewrite (Hl a) by now left. apply IH. intros r Hr. apply Hl. now right.
Qed.

(** The first row carrying a hash, after an UPDATE that stamps rows. *)
Lemma find_revoke_where (cond : token_row -> bool) (tok : str) (now : instant)
      (rows : list token_row) :
  List.find (carries tok) (revoke_where cond now rows)
  = match List.find (carries tok) rows with
    | Some r =>
        Some (if cond r
              then mkToken (rt_user_id r) (rt_token_hash r) (rt_expires_at r)
                           (Some now)
              else r)
    | None => None
    end.
Proof.
  induction rows as [|r rows IH]; simpl; [reflexivity|].
  destruct (cond r) eqn:C; simpl;
    destruct (str_eqb (rt_token_hash r) (hash_token tok)) eqn:E;
    try exact IH; now rewrite ?C.
Qed.

Lemma nth_error_revoke_where (cond : token_row -> bool) (now : instant)
      (rows : list token_row) (i : nat) (r : token_row) :
  nth_error rows i = Some r -> cond r = false ->
  nth_error (revoke_where cond now rows) i = Some r.
Proof.
  intros H C. unfold revoke_where.
  rewrite nth_error_map, H. simpl. now rewrite C.
Qed.

(** X1: a successful login hands out an access token for the user's id
    and role, and a refresh token that the store accepts for that user
    until it expires. *)
Theorem login_issues_valid_refresh_token
        (credentials : LoginRequest) (raw_token : str) (now : instant)
        (s : store) (user : user_row) :
  user_by_email (l_email credentials) (users (st_db s)) = Some user ->
  verify_password (l_password credentials) (u_password user) = true ->
  u_is_active user = true ->
  (forall r, In r (refresh_tokens (st_db s)) ->
             rt_token_hash r <> hash_token raw_token) ->
  exists pair s',
    login credentials raw_token now s = (Return pair, s')
    /\ tp_refresh_token pair = raw_token
    /\ at_sub (tp_access_token pair) = u_id user
    /\ at_role (tp_access_token pair) = u_role user
    /\ users (st_db s') = users (st_db s)
    /\ get_system_initialized s' = match st_initialized s with
                                    | Some _ => true
                                    | None => false
                                    end
    /\ forall t : instant,
         (t <= now + days REFRESH_TOKEN_EXPIRE_DAYS)%Z ->
         validate (st_db s') (tp_refresh_token pair) t = Some (u_id user).
Proof.
  intros Hu Hp Ha Hfresh. unfold login_for_access_token.
  rewrite Hu, Hp, Ha. cbn [negb create_refresh_token].
  set (s1 := if negb (get_system_initialized s)
             then set_system_initialized s true else s).
  assert (Hdb : st_db s1 = st_db s)
    by (subst s1; destruct (negb _); reflexivity).
  assert (Hinit : get_system_initialized
                    (mkStore (st_db s1) (st_initialized s1))
                  = match st_initialized s with
                    | Some _ => true
                    | None => false
                    end).
  { subst s1. unfold get_system_initialized, set_system_initialized.
    destruct (st_initialized s) as [[|]|] eqn:E; cbn; rewrite ?E; reflexivity. }
  clearbody s1. eexists. eexists. split; [reflexivity|].
  cbn [tp_refresh_token tp_access_token create_access_token at_sub at_role
       st_db users].
  split; [reflexivity|]. split; [reflexivity|]. split; [reflexivity|].
  split; [now rewrite Hdb|]. split; [exact Hinit|].
  intros t Ht. unfold validate_refresh_token. cbn [refresh_tokens].
  rewrite Hdb, find_snoc_fresh.
  - cbn [rt_revoked_at rt_expires_at rt_user_id].
    destruct (_ <? t)%Z eqn:E; [apply Z.ltb_lt in E; lia | reflexivity].
  - intros r Hr. apply str_eqb_neq, Hfresh, Hr.
  - cbn [rt_token_hash]. apply str_eqb_refl.
Qed.

(** X4: logging out with a refresh token makes that token unusable, for
    validation and for the refresh endpoint, whoever owns it; rows with
    another hash and the users are left as they were. *)
Theorem logout_revokes_presented_token
        (c : ascii) (rest : str) (current_user : user_row) (now : instant)
        (d : database) :
  let tok := c :: rest in
  let d' := logout hash_token (Some (Some tok)) current_user now d in
  (forall t : instant, validate d' tok t = None)
  /\ (forall (raw : str) (t : instant) (others : database -> database),
         refresh_access_token hash_token ACCESS_TOKEN_EXPIRE_MINUTES
                              REFRESH_TOKEN_EXPIRE_DAYS tok raw t others d'
         = (HTTPException 401 (py "Invalid or expired refresh token"), d'))
  /\ (forall (i : nat) (r : token_row),
         nth_error (refresh_tokens d) i = Some r ->
         rt_token_hash r <> hash_token tok ->
         nth_error (refresh_tokens d') i = Some r)
  /\ users d' = users d.
Proof.
  cbv zeta. cbn [logout revoke_refresh_token snd].
  assert (Hv : forall t : instant,
             validate (mkDb (revoke_where (presented hash_token (c :: rest)) now
                                          (refresh_tokens d)) (users d))
                      (c :: rest) t = None).
  { intros t. unfold validate_refresh_token. cbn [refresh_tokens].
    rewrite find_revoke_where.
    destruct (List.find _ (refresh_tokens d)) as [r|] eqn:F; [|reflexivity].
    unfold presented. apply find_some in F as [_ F]. rewrite F. cbn [andb].
    unfold is_unrevoked. destruct (rt_revoked_at r) eqn:R.
    - now rewrite R.
    - reflexivity. }
  split; [exact Hv|]. split; [|split].
  - intros raw t others. unfold refresh_access_token. now rewrite Hv.
  - intros i r Hi Hne. cbn [refresh_tokens].
    apply nth_error_revoke_where; [exact Hi|].
    unfold presented. apply str_eqb_neq in Hne. now rewrite Hne.
  - reflexivity.
Qed.

(** X5: logging out of all devices (or logging out without naming a token)
    leaves the caller no unrevoked refresh token; the rows of other users
    and the rows revoked earlier are left as they were. *)
Theorem logout_all_devices_revokes_every_token
        (current_user : user_row) (now : instant) (d : database) :
  let d' := logout_all_devices current_user now d in
  logout hash_token None current_user now d = d'
  /\ logout hash_token (Some None) current_user now d = d'
  /\ (forall r, In r (refresh_tokens d') ->
                rt_user_id r = u_id current_user -> rt_revoked_at r <> None)
  /\ (forall t : instant, live_tokens d' (u_id current_user) t = [])
  /\ (forall (i : nat) (r : token_row),
         nth_error (refresh_tokens d) i = Some r ->
         rt_user_id r <> u_id current_user \/ rt_revoked_at r <> None ->
         nth_error (refresh_tokens d') i = Some r)
  /\ length (refresh_tokens d') = length (refresh_tokens d)
  /\ users d' = users d.
Proof.
  cbv zeta. unfold logout_all_devices.
  cbn [logout revoke_all_user_tokens snd refresh_tokens users].
  assert (Hrev : forall r,
             In r (revoke_where
                     (fun r => N.eqb (rt_user_id r) (u_id current_user)
                               && is_unrevoked r) now (refresh_tokens d)) ->
             rt_user_id r = u_id current_user -> rt_revoked_at r <> None).
  { intros r Hin Hu.
    apply TokenFacts.revoke_where_revoked in Hin as [Hc|Hc]; [|congruence].
    rewrite Hu, N.eqb_refl in Hc. cbn [andb] in Hc. unfold is_unrevoked in Hc.
    destruct (rt_revoked_at r); [discriminate | discriminate]. }
  repeat split.
  - exact Hrev.
  - intros t. unfold live_tokens. cbn [refresh_tokens].
    set (rows := revoke_where _ _ _) in *. clearbody rows.
    induction rows as [|r rows IH]; [reflexivity|]. simpl.
    rewrite IH by (intros r' Hr'; apply Hrev; now right).
    destruct (N.eqb (rt_user_id r) (u_id current_user)) eqn:E; [|reflexivity].
    apply N.eqb_eq in E. specialize (Hrev r (or_introl eq_refl) E).
    unfold is_unrevoked. destruct (rt_revoked_at r); [reflexivity|congruence].
  - intros i r Hi Hor. apply nth_error_revoke_where; [exact Hi|].
    destruct Hor as [Hne|Hrv].
    + apply N.eqb_neq in Hne. now rewrite Hne.
    + unfold is_unrevoked. destruct (rt_revoked_at r); [|congruence].
      apply andb_false_r.
  - apply TokenFacts.revoke_where_length.
Qed.

Lemma find_app_some {A : Type} (p : A -> bool) (l l' : list A) (x : A) :
  List.find p l = Some x -> List.find p (l ++ l') = Some x.
Proof.
  induction l as [|a l IH]; simpl; [discriminate|].
  destruct (p a); [trivial | exact IH].
Qed.

Lemma revoke_where_hash (cond : token_row -> bool) (now : instant)
      (rows : list token_row) (r : token_row) :
  In r (revoke_where cond now rows) ->
  exists r0, In r0 rows /\ rt_token_hash r = rt_token_hash r0.
Proof.
  unfold revoke_where. rewrite in_map_iff. intros [r0 [E Hin]].
  exists r0. split; [exact Hin|]. subst r. now destruct (cond r0).
Qed.

(** X2: a refresh that succeeds replaces the token: the token presented
    is refused from then on, and the new one is accepted for the same user
    until it expires. *)
Theorem refresh_replaces_token
        (tok raw : str) (now : instant) (others : database -> database)
        (d : database) (user_id : UUID) (user : user_row) :
  validate d tok now = Some user_id ->
  user_by_id user_id (users d) = Some user ->
  u_is_active user = true ->
  existsb (presented hash_token tok) (refresh_tokens (others d)) = true ->
  (forall r, In r (refresh_tokens (others d)) ->
             rt_token_hash r <> hash_token raw) ->
  exists pair d',
    refresh_access_token hash_token ACCESS_TOKEN_EXPIRE_MINUTES
                         REFRESH_TOKEN_EXPIRE_DAYS tok raw now others d
    = (Return pair, d')
    /\ tp_refresh_token pair = raw
    /\ at_sub (tp_access_token pair) = user_id
    /\ (forall t : instant, validate d' tok t = None)
    /\ (forall t : instant,
          (t <= now + days REFRESH_TOKEN_EXPIRE_DAYS)%Z ->
          validate d' raw t = Some user_id)
    /\ users d' = users (others d).
Proof.
  intros Hv Hu Ha Hp Hfresh.
  rewrite (TokenFacts.refresh_rotates hash_token ACCESS_TOKEN_EXPIRE_MINUTES
             REFRESH_TOKEN_EXPIRE_DAYS tok raw now others d user_id user
             Hv Hu Ha Hp).
  eexists. eexists. split; [reflexivity|].
  cbn [tp_refresh_token tp_access_token create_access_token at_sub users].
  split; [reflexivity|]. split.
  { unfold user_by_id in Hu. apply find_some in Hu as [_ Hu].
    now apply N.eqb_eq in Hu. }
  split; [|split; [|reflexivity]].
  - intros t. unfold validate_refresh_token. cbn [refresh_tokens].
    apply existsb_exists in Hp as [r0 [Hin0 Hr0]].
    unfold presented in Hr0. apply andb_prop in Hr0 as [Hcar _].
    destruct (List.find (carries tok) (refresh_tokens (others d))) as [r|] eqn:F.
    2:{ pose proof (find_none _ _ F r0 Hin0) as Hn. cbn beta in Hn. congruence. }
    rewrite (find_app_some _ _ _ _
               (eq_trans (find_revoke_where (presented hash_token tok) tok now
                                            (refresh_tokens (others d)))
                         (f_equal (fun o => match o with
                                            | Some r => Some (if presented hash_token tok r
                                                              then mkToken (rt_user_id r) (rt_token_hash r)
                                                                           (rt_expires_at r) (Some now)
                                                              else r)
                                            | None => None
                                            end) F))).
    apply find_some in F as [_ Fc]. unfold presented. rewrite Fc. cbn [andb].
    unfold is_unrevoked. destruct (rt_revoked_at r) eqn:R.
    + now rewrite R.
    + reflexivity.
  - intros t Ht. unfold validate_refresh_token. cbn [refresh_tokens].
    rewrite find_snoc_fresh.
    + cbn [rt_revoked_at rt_expires_at rt_user_id].
      destruct (_ <? t)%Z eqn:E; [apply Z.ltb_lt in E; lia | reflexivity].
    + intros r Hr. apply revoke_where_hash in Hr as [r0 [Hin0 Hh]].
      apply str_eqb_neq. rewrite Hh. now apply Hfresh.
    + cbn [rt_token_hash]. apply str_eqb_refl.
Qed.

End Handlers.

(** [login_issues_valid_refresh_token] on a store with one user and no
    token. *)
Lemma login_issues_valid_refresh_token_witness :
  exists pair s',
    login_for_access_token plain (fun p h => str_eqb p h) 15 30
      (mkLogin (py "a@b.c") (py "hash")) (py "R1") 1000
      (mkStore (mkDb [] [alice]) (Some false))
    = (Return pair, s')
    /\ tp_refresh_token pair = py "R1"
    /\ validate_refresh_token plain (st_db s') (py "R1") 2000 = Some 1%N.
Proof.
  destruct (login_issues_valid_refresh_token
              plain (fun p h => str_eqb p h) 15 30
              (mkLogin (py "a@b.c") (py "hash")) (py "R1") 1000%Z
              (mkStore (mkDb [] [alice]) (Some false)) alice
              eq_refl eq_refl eq_refl (fun r (H : In r []) => match H with end))
    as [pair [s' [H1 [H2 [_ [_ [_ [_ H8]]]]]]]].
  exists pair, s'. split; [exact H1|]. split; [exact H2|].
  rewrite <- H2. apply H8. vm_compute. discriminate.
Defined.

(** [refresh_replaces_token] on a store with one live token. *)
Lemma refresh_replaces_token_witness :
  exists pair d',
    refresh_access_token plain 15 30 (py "R1") (py "R2") 1000 (fun d => d)
                         (mkDb [mkToken 1%N (py "R1") 5000 None] [alice])
    = (Return pair, d')
    /\ tp_refresh_token pair = py "R2"
    /\ validate_refresh_token plain d' (py "R1") 1000 = None
    /\ validate_refresh_token plain d' (py "R2") 1000 = Some 1%N.
Proof.
  destruct (refresh_replaces_token plain 15 30 (py "R1") (py "R2") 1000%Z
              (fun d => d) (mkDb [mkToken 1%N (py "R1") 5000 None] [alice])
              1%N alice eq_refl eq_refl eq_refl eq_refl)
    as [pair [d' [H1 [H2 [_ [H4 [H5 _]]]]]]].
  - intros r [<- | []]. discriminate.
  - exists pair, d'. split; [exact H1|]. split; [exact H2|].
    split; [apply H4 | apply H5]. vm_compute. discriminate.
Defined.

End SessionFacts.

(** ** The required resolver *)

Module ResolverFacts.

Import Auth.

Section Resolvers.

Variable jwt_decode : str -> decoded.
Variable parse_uuid : str -> option UUID.

Abbreviation optional := (get_optional_current_user jwt_decode parse_uuid).
Abbreviation required := (get_current_active_user jwt_decode parse_uuid).

(** X6: on a token that is not empty the two resolvers agree on who is
    authenticated: the required one returns a user exactly when the
    optional one returns that user.  When the required one raises, it
    raises 401 for a token that does not verify, a missing [sub] or an
    unknown user, 400 for an inactive user, and otherwise the error of a
    [sub] that is not a UUID or of the decoder. *)
Theorem resolvers_agree (tok : str) (users : list user_row) :
  tok <> [] ->
  (forall u, required tok users = Ok u
             <-> optional (Some tok) users = Ok (Some u))
  /\ (forall e, required tok users = Raise e ->
                e = credentials_exception
                \/ e = EHttp 400 (py "Inactive user")
                \/ e = EOther)
  /\ (forall e, required tok users = Raise e ->
                optional (Some tok) users = Ok None).
Proof.
  intros Hne. destruct tok as [|c tok]; [contradiction|].
  unfold get_current_active_user, get_current_user, get_optional_current_user,
    decode, to_uuid, bind.
  destruct (jwt_decode (c :: tok)) as [| |[sub|]].
  - repeat split; try discriminate; intros e [= <-]; auto.
  - repeat split; try discriminate; intros e [= <-]; auto.
  - destruct (parse_uuid sub) as [id|].
    + destruct (user_by_id id users) as [v|].
      * destruct (u_is_active v); cbn [negb].
        -- repeat split; try discriminate; intros [= ->]; reflexivity.
        -- repeat split; try discriminate; intros e [= <-]; auto.
      * repeat split; try discriminate; intros e [= <-]; auto.
    + repeat split; try discriminate; intros e [= <-]; auto.
  - repeat split; try discriminate; intros e [= <-]; auto.
Qed.

End Resolvers.

(** [resolvers_agree] on the token of an active user. *)
Lemma resolvers_agree_witness :
  get_current_active_user sample_decode sample_uuid (py "good")
                          [mkUser 7 (py "d@b.c") (py "hash") (py "D") (py "E")
                                  ADMIN true]
  = Ok (mkUser 7 (py "d@b.c") (py "hash") (py "D") (py "E") ADMIN true).
Proof.
  apply (resolvers_agree sample_decode sample_uuid (py "good")
           [mkUser 7 (py "d@b.c") (py "hash") (py "D") (py "E") ADMIN true]).
  - discriminate.
  - reflexivity.
Defined.

End ResolverFacts.

(** ** Validators *)

Module ValidatorFacts.

Import Re ReFacts Validators.

Lemma drop_while_all (p : ascii -> bool) (s : str) :
  forallb p s = true -> drop_while p s = [].
Proof.
  induction s as [|c s IH]; simpl; [reflexivity|].
  intros H. apply andb_prop in H as [Hc Hs]. rewrite Hc. now apply IH.
Qed.

Lemma at_end_iff (s : str) : at_end s = true <-> s = [] \/ s = [NL].
Proof.
  split; [apply FileFacts.at_end_cases|].
  intros [-> | ->]; reflexivity.
Qed.

(** What is left after the longest run of a class is nothing or one line
    feed exactly when the text is a run of the class, up to a final line
    feed. *)
Lemma ends_after_run (p : ascii -> bool) (s : str) :
  p NL = false ->
  at_end (drop_while p s) = true
  <-> exists body, up_to_newline s body /\ forallb p body = true.
Proof.
  intros Hnl. rewrite at_end_iff. split.
  - intros H. exists (take_while p s). split; [|apply take_while_all].
    pose proof (take_drop_while p s) as E.
    destruct H as [H|H]; rewrite H in E.
    + left. now rewrite app_nil_r in E.
    + right. now symmetry.
  - intros [body [[-> | ->] Hb]].
    + left. now apply drop_while_all.
    + right. now destruct (take_while_app p body NL [] Hb Hnl) as [_ ->].
Qed.

(** [p*$] at the end of a pattern. *)
Lemma run_star_eol (p : ascii -> bool) (s : str) (c : caps) :
  p NL = false ->
  run (Cat (Star p) Eol) s c (fun s' c' => Some (s', c'))
  = if at_end (drop_while p s) then Some (drop_while p s, c) else None.
Proof.
  intros Hnl. cbn [run]. rewrite star_k_longest; [reflexivity|].
  intros a x Ha. destruct x as [|y x]; cbn [at_end]; [|reflexivity].
  destruct (chr_eqb a NL) eqn:E; [|reflexivity].
  apply chr_eqb_eq in E. congruence.
Qed.

(** [p+$] at the end of a pattern. *)
Lemma run_plus_eol (p : ascii -> bool) (s : str) (c : caps) :
  p NL = false ->
  run (Cat (plus p) Eol) s c (fun s' c' => Some (s', c'))
  = match s with
    | x :: s' =>
        if p x
        then if at_end (drop_while p s') then Some (drop_while p s', c)
             else None
        else None
    | [] => None
    end.
Proof.
  intros Hnl. destruct s as [|x s']; [reflexivity|].
  change (run (Cat (plus p) Eol) (x :: s') c (fun s' c' => Some (s', c')))
    with (if p x
          then run (Cat (Star p) Eol) s' c (fun s' c' => Some (s', c'))
          else None).
  destruct (p x); [now apply run_star_eol | reflexivity].
Qed.

(** A bounded greedy repetition of a class succeeds exactly when some
    admissible number of repetitions lets the rest of the pattern match. *)
Lemma run_upto {A : Type} (p : ascii -> bool) (n : nat) :
  forall (s : str) (c : caps) (k : str -> caps -> option A),
    run (upto n (Chr p)) s c k <> None
    <-> exists j, j <= n /\ j <= length s
                  /\ forallb p (firstn j s) = true
                  /\ k (skipn j s) c <> None.
Proof.
  induction n as [|n IH]; intros s c k.
  - cbn [upto run]. split.
    + intros H. exists 0.
      split; [lia|]. split; [lia|]. split; [reflexivity | exact H].
    + intros [j [Hj [_ [_ H]]]]. assert (j = 0) by lia. now subst j.
  - cbn [upto]. rewrite FileFacts.run_opt, FileFacts.run_cat. cbn [run].
    assert (Zero : k s c <> None ->
                   exists j, j <= S n /\ j <= length s
                             /\ forallb p (firstn j s) = true
                             /\ k (skipn j s) c <> None).
    { intros H. exists 0.
      split; [lia|]. split; [lia|]. split; [reflexivity | exact H]. }
    split.
    + intros H. destruct s as [|x s]; [now apply Zero|].
      destruct (p x) eqn:Px; [|now apply Zero].
      destruct (run (upto n (Chr p)) s c k) eqn:R; [|now apply Zero].
      destruct (proj1 (IH s c k)) as [j [Hj [Hl [Hp Hk]]]]; [congruence|].
      exists (S j). cbn [length firstn skipn forallb]. rewrite Px, Hp.
      split; [lia|]. split; [lia|]. split; [reflexivity | exact Hk].
    + intros [j [Hj [Hl [Hp Hk]]]]. destruct j as [|j].
      * cbn [skipn] in Hk.
        destruct (match s with [] => None | x :: s' => _ end);
          [discriminate | exact Hk].
      * destruct s as [|x s]; [cbn in Hl; lia|].
        cbn [length firstn skipn forallb] in Hl, Hp, Hk.
        apply andb_prop in Hp as [Px Hp]. rewrite Px.
        assert (R : run (upto n (Chr p)) s c k <> None).
        { apply IH. exists j.
          split; [lia|]. split; [lia|]. split; [exact Hp | exact Hk]. }
        destruct (run (upto n (Chr p)) s c k); [discriminate | contradiction].
Qed.

(** X10: [validate_search_term] lets a term through exactly when it is
    made of printable ASCII characters, possibly followed by one line feed,
    and answers 400 otherwise. *)
Theorem search_term_accepted_iff_printable (s : str) :
  (validate_search_term (Some s) = Return (Some s)
   <-> exists body, up_to_newline s body /\ forallb printable body = true)
  /\ (validate_search_term (Some s) = Return (Some s)
      \/ validate_search_term (Some s)
         = HTTPException 400
             (py "Search term contains invalid characters. Only printable ASCII characters are allowed."))
  /\ validate_search_term None = Return None.
Proof.
  unfold validate_search_term, rmatch, SEARCH_TERM_PATTERN.
  rewrite run_star_eol by reflexivity.
  rewrite <- (ends_after_run printable s eq_refl).
  destruct (at_end (drop_while printable s)); repeat split; auto;
    try discriminate.
Qed.

(** X8: [validate_password_complexity] accepts a password exactly when
    it has 8 to 72 characters, all of them among [A-Za-z0-9@$!%*?&], a
    final line feed apart; it asks for no mix of character kinds. *)
Theorem password_accepted_iff_charset (value : str) :
  validate_password_complexity (Some value) = Valid (Some value)
  <-> 8 <= length value <= 72
      /\ exists body, up_to_newline value body /\ body <> []
                      /\ forallb password_char body = true.
Proof.
  unfold validate_password_complexity, rmatch, password_pattern, plus.
  destruct (length value <? 8) eqn:L8.
  { apply Nat.ltb_lt in L8. cbn [orb]. split; [discriminate | lia]. }
  destruct (72 <? length value) eqn:L72.
  { apply Nat.ltb_lt in L72. cbn [orb]. split; [discriminate | lia]. }
  apply Nat.ltb_ge in L8, L72. cbn [orb].
  fold (plus password_char). rewrite run_plus_eol by reflexivity.
  destruct value as [|x value]; [cbn in L8; lia|].
  destruct (password_char x) eqn:Px.
  - pose proof (ends_after_run password_char value eq_refl) as E.
    destruct (at_end (drop_while password_char value)).
    + split; [|reflexivity]. intros _. split; [lia|].
      destruct (proj1 E eq_refl) as [body [Hb Hp]].
      exists (x :: body). split; [|split; [discriminate|]].
      * destruct Hb as [-> | ->]; [now left | now right].
      * cbn [forallb]. now rewrite Px, Hp.
    + split; [discriminate|]. intros [_ [body [Hb [Hne Hp]]]]. exfalso.
      assert (exists body', up_to_newline value body'
                            /\ forallb password_char body' = true) as H.
      { destruct body as [|y body]; [contradiction|].
        cbn [forallb] in Hp. apply andb_prop in Hp as [_ Hp].
        exists body. split; [|exact Hp].
        destruct Hb as [Hb|Hb]; injection Hb as _ ->; [now left | now right]. }
      apply E in H. discriminate.
  - split; [discriminate|]. intros [_ [body [Hb [Hne Hp]]]]. exfalso.
    destruct body as [|y body]; [contradiction|].
    cbn [forallb] in Hp. apply andb_prop in Hp as [Py _].
    destruct Hb as [Hb|Hb]; injection Hb as -> _; congruence.
Qed.

Lemma password_char_printable (c : ascii) :
  password_char c = true -> (code c <? 128) && printable c = true.
Proof.
  destruct c as [b0 b1 b2 b3 b4 b5 b6 b7].
  destruct b0, b1, b2, b3, b4, b5, b6, b7; intros H; try reflexivity;
    discriminate H.
Qed.

(** X9: a password that registration accepts is accepted at login exactly
    when it does not end in a line feed: registration lets one final line
    feed through, login takes printable ASCII only. *)
Theorem registered_password_can_log_in (value : str) :
  validate_password_complexity (Some value) = Valid (Some value) ->
  (validate_password_chars value = Valid value
   <-> forallb password_char value = true).
Proof.
  intros H.
  assert (S : 8 <= length value <= 72
              /\ exists body, up_to_newline value body /\ body <> []
                              /\ forallb password_char body = true).
  { revert H. unfold validate_password_complexity, rmatch, password_pattern, plus.
    destruct (length value <? 8) eqn:L8; [discriminate|].
    destruct (72 <? length value) eqn:L72; [discriminate|].
    apply Nat.ltb_ge in L8, L72. cbn [orb].
    fold (plus password_char). rewrite run_plus_eol by reflexivity.
    destruct value as [|x value]; [cbn in L8; lia|].
    destruct (password_char x) eqn:Px; [|discriminate].
    pose proof (ends_after_run password_char value eq_refl) as E.
    destruct (at_end (drop_while password_char value)); [|discriminate].
    intros _. split; [lia|].
    destruct (proj1 E eq_refl) as [body [Hb Hp]].
    exists (x :: body). split; [|split; [discriminate|]].
    - destruct Hb as [-> | ->]; [now left | now right].
    - cbn [forallb]. now rewrite Px, Hp. }
  destruct S as [_ [body [Hv [_ Hp]]]].
  unfold validate_password_chars.
  assert (Hbody : forallb (fun c => (code c <? 128) && printable c) body = true).
  { apply forallb_forall. intros c Hc. apply password_char_printable.
    rewrite forallb_forall in Hp. now apply Hp. }
  destruct Hv as [-> | ->].
  - rewrite Hbody, Hp. cbn [negb]. split; reflexivity.
  - rewrite !forallb_app, Hbody.
    change (forallb password_char [NL]) with false.
    change (forallb (fun c => (code c <? 128) && printable c) [NL]) with false.
    rewrite Hp. cbn [andb negb]. split; discriminate.
Qed.

(** The last two items of the bucket pattern: [[a-z0-9]$]. *)
Lemma run_last_char (s : str) (c : caps) :
  run (Cat (Chr lower_alnum) Eol) s c (fun s' c' => Some (s', c')) <> None
  <-> exists z tail, s = z :: tail /\ lower_alnum z = true
                     /\ (tail = [] \/ tail = [NL]).
Proof.
  cbn [run]. destruct s as [|z tail].
  - split; [congruence | intros [z [tail [H _]]]; discriminate].
  - destruct (lower_alnum z) eqn:Z.
    + destruct (at_end tail) eqn:E.
      * split; [|discriminate]. intros _. exists z, tail.
        split; [reflexivity|]. split; [exact Z | now apply at_end_iff].
      * split; [congruence|]. intros [z' [tail' [H [_ Ht]]]].
        injection H as _ <-. apply at_end_iff in Ht. congruence.
    + split; [congruence|]. intros [z' [tail' [H [Hz _]]]].
      injection H as <- _. congruence.
Qed.

(** X11: [validate_bucket_name] accepts a name exactly when it has 3 to 63
    characters and reads: a lowercase letter or digit, then lowercase
    letters, digits and hyphens, then a lowercase letter or digit, a final
    line feed apart. *)
Theorem bucket_name_accepted_iff_shape (v : str) :
  validate_bucket_name (Some v) = Valid (Some v)
  <-> 3 <= length v <= 63
      /\ exists a mid z tail,
           v = [a] ++ mid ++ [z] ++ tail
           /\ lower_alnum a = true
           /\ mid <> [] /\ forallb lower_alnum_hyphen mid = true
           /\ lower_alnum z = true
           /\ (tail = [] \/ tail = [NL]).
Proof.
  unfold validate_bucket_name.
  destruct (length v <? 3) eqn:L3.
  { apply Nat.ltb_lt in L3. cbn [orb]. split; [discriminate | lia]. }
  destruct (63 <? length v) eqn:L63.
  { apply Nat.ltb_lt in L63. cbn [orb]. split; [discriminate | lia]. }
  apply Nat.ltb_ge in L3, L63. cbn [orb].
  set (K := fun (s : str) (c : caps) =>
              run (Cat (Chr lower_alnum) Eol) s c (fun s' c' => Some (s', c'))).
  assert (M : rmatch BUCKET_NAME_PATTERN v <> None
              <-> exists a m s2,
                    v = a :: m :: s2 /\ lower_alnum a = true
                    /\ lower_alnum_hyphen m = true
                    /\ run (upto 60 (Chr lower_alnum_hyphen)) s2 [] K <> None).
  { unfold rmatch, BUCKET_NAME_PATTERN.
    change (seq [Chr lower_alnum;
                 Cat (Chr lower_alnum_hyphen) (upto 60 (Chr lower_alnum_hyphen));
                 Chr lower_alnum; Eol])
      with (Cat (Chr lower_alnum)
                (Cat (Cat (Chr lower_alnum_hyphen)
                          (upto 60 (Chr lower_alnum_hyphen)))
                     (Cat (Chr lower_alnum) Eol))).
    rewrite FileFacts.run_cat. cbn [run].
    destruct v as [|a [|m s2]].
    - split; [congruence | intros [a [m [s2 [H _]]]]; discriminate].
    - split.
      + destruct (lower_alnum a); congruence.
      + intros [a' [m [s2 [H _]]]]; discriminate.
    - destruct (lower_alnum a) eqn:A.
      + destruct (lower_alnum_hyphen m) eqn:Hm.
        * split.
          -- intros H. exists a, m, s2. repeat split; assumption.
          -- intros [a' [m' [s2' [E [_ [_ H]]]]]].
             injection E as <- <- <-. exact H.
        * split; [congruence|]. intros [a' [m' [s2' [E [_ [H _]]]]]].
          injection E as <- <- <-. congruence.
      + split; [congruence|]. intros [a' [m' [s2' [E [H _]]]]].
        injection E as <- <- <-. congruence. }
  split.
  - intros H. split; [lia|].
    assert (Hm : rmatch BUCKET_NAME_PATTERN v <> None)
      by (destruct (rmatch BUCKET_NAME_PATTERN v); [discriminate | discriminate]).
    apply M in Hm as [a [m [s2 [-> [Ha [Hm Hr]]]]]].
    apply run_upto in Hr as [j [Hj [Hl [Hp Hk]]]].
    apply run_last_char in Hk as [z [tail [Hs [Hz Ht]]]].
    exists a, (m :: firstn j s2), z, tail.
    split; [|split; [exact Ha | split; [discriminate | split; [|split]]]].
    + cbn [app]. do 2 f_equal.
      rewrite <- (firstn_skipn j s2) at 1. now rewrite Hs.
    + cbn [forallb]. now rewrite Hm, Hp.
    + exact Hz.
    + exact Ht.
  - intros [_ [a [mid [z [tail [-> [Ha [Hne [Hmid [Hz Ht]]]]]]]]]].
    destruct mid as [|m mid]; [contradiction|].
    cbn [forallb] in Hmid. apply andb_prop in Hmid as [Hm Hmid].
    assert (Hr : rmatch BUCKET_NAME_PATTERN ([a] ++ (m :: mid) ++ [z] ++ tail)
                 <> None).
    { apply M. exists a, m, (mid ++ [z] ++ tail).
      split; [reflexivity|]. split; [exact Ha|]. split; [exact Hm|].
      apply run_upto. exists (length mid).
      cbn [length app] in L63. rewrite !length_app in L63. cbn [length] in L63.
      split; [lia|]. split; [rewrite length_app; lia|].
      rewrite firstn_app, Nat.sub_diag, firstn_all. cbn [firstn].
      rewrite app_nil_r. split; [exact Hmid|].
      rewrite skipn_app_exact. apply run_last_char.
      exists z, tail. split; [reflexivity|]. split; [exact Hz | exact Ht]. }
    destruct (rmatch BUCKET_NAME_PATTERN _); [reflexivity | contradiction].
Qed.

(** [[f][p]*$]: one character of a class, then a run of another. *)
Lemma run_first_star_eol (f p : ascii -> bool) (s : str) :
  p NL = false ->
  rmatch (seq [Chr f; Star p; Eol]) s <> None
  <-> exists a body, up_to_newline s (a :: body) /\ f a = true
                     /\ forallb p body = true.
Proof.
  intros Hnl. unfold rmatch.
  change (seq [Chr f; Star p; Eol]) with (Cat (Chr f) (Cat (Star p) Eol)).
  destruct s as [|a s].
  - split; [cbn; congruence|].
    intros [a [body [[H|H] _]]]; [discriminate | now destruct body].
  - change (run (Cat (Chr f) (Cat (Star p) Eol)) (a :: s) []
                (fun s' c' => Some (s', c')))
      with (if f a
            then run (Cat (Star p) Eol) s [] (fun s' c' => Some (s', c'))
            else None).
    destruct (f a) eqn:Fa.
    + rewrite run_star_eol by exact Hnl.
      pose proof (ends_after_run p s Hnl) as E.
      destruct (at_end (drop_while p s)).
      * split; [|discriminate]. intros _.
        destruct (proj1 E eq_refl) as [body [Hb Hp]].
        exists a, body. split; [|split; [exact Fa | exact Hp]].
        destruct Hb as [-> | ->]; [now left | now right].
      * split; [congruence|]. intros [a' [body [Hb [_ Hp]]]]. exfalso.
        assert (exists body', up_to_newline s body' /\ forallb p body' = true)
          as H.
        { exists body. split; [|exact Hp].
          destruct Hb as [Hb|Hb]; injection Hb as _ ->; [now left | now right]. }
        apply E in H. discriminate.
    + split; [congruence|]. intros [a' [body [Hb [Ha _]]]].
      destruct Hb as [Hb|Hb]; injection Hb as <- _; congruence.
Qed.

Lemma function_name_char_ascii (c : ascii) :
  function_name_char c = true \/ c = NL ->
  (code c <? 128) = true /\ chr_eqb Ascii.zero c = false.
Proof.
  intros [H | ->]; [|split; reflexivity].
  destruct c as [b0 b1 b2 b3 b4 b5 b6 b7].
  destruct b7.
  - destruct b0, b1, b2, b3, b4, b5, b6; discriminate H.
  - split; [|destruct b0, b1, b2, b3, b4, b5, b6; try reflexivity;
             discriminate H].
    destruct b0, b1, b2, b3, b4, b5, b6; reflexivity.
Qed.

(** X12: [validate_function_name] accepts a name exactly when it has 1 to
    255 characters and reads: a letter, then letters, digits, underscores
    and hyphens, a final line feed apart.  Every name it accepts passes the
    checks that the execution callback makes on its path parameter. *)
Theorem function_name_accepted_iff_shape (v : str) :
  (validate_function_name (Some v) = Valid (Some v)
   <-> 1 <= length v <= 255
       /\ exists a body,
            up_to_newline v (a :: body)
            /\ ascii_letter a = true
            /\ forallb function_name_char body = true)
  /\ (validate_function_name (Some v) = Valid (Some v) ->
      Functions.accepted_name v).
Proof.
  assert (Shape : validate_function_name (Some v) = Valid (Some v)
                  <-> 1 <= length v <= 255
                      /\ exists a body,
                           up_to_newline v (a :: body)
                           /\ ascii_letter a = true
                           /\ forallb function_name_char body = true).
  { unfold validate_function_name.
    destruct (length v <? 1) eqn:L1.
    { apply Nat.ltb_lt in L1. cbn [orb]. split; [discriminate | lia]. }
    destruct (255 <? length v) eqn:L255.
    { apply Nat.ltb_lt in L255. cbn [orb]. split; [discriminate | lia]. }
    apply Nat.ltb_ge in L1, L255. cbn [orb].
    pose proof (run_first_star_eol ascii_letter function_name_char v eq_refl)
      as M.
    change (seq [Chr ascii_letter; Star function_name_char; Eol])
      with FUNCTION_NAME_PATTERN in M.
    destruct (rmatch FUNCTION_NAME_PATTERN v).
    - split; [|reflexivity]. intros _. split; [lia|]. now apply M.
    - split; [discriminate|]. intros [_ H]. apply M in H. contradiction. }
  split; [exact Shape|].
  intros H. apply Shape in H as [[L1 L255] [a [body [Hv [Ha Hb]]]]].
  assert (All : forallb (fun c => (code c <? 128)
                                  && negb (chr_eqb Ascii.zero c)) v = true).
  { assert (Hbody : forallb (fun c => (code c <? 128)
                                      && negb (chr_eqb Ascii.zero c))
                            (a :: body) = true).
    { apply forallb_forall. intros c Hc.
      destruct (function_name_char_ascii c) as [H1 H2]; [|now rewrite H1, H2].
      left. destruct Hc as [<- | Hc].
      - unfold function_name_char. now rewrite Ha.
      - rewrite forallb_forall in Hb. now apply Hb. }
    destruct Hv as [-> | ->]; [exact Hbody|].
    rewrite forallb_app, Hbody. reflexivity. }
  unfold Functions.accepted_name, Functions.is_ascii.
  split; [destruct v; [cbn in L1; lia | discriminate]|].
  split; [apply Nat.ltb_ge; lia|].
  rewrite forallb_forall in All. split.
  - destruct (existsb (chr_eqb Ascii.zero) v) eqn:E; [|reflexivity].
    apply existsb_exists in E as [c [Hc Hz]].
    specialize (All c Hc). apply andb_prop in All as [_ All].
    now rewrite Hz in All.
  - apply forallb_forall. intros c Hc.
    specialize (All c Hc). now apply andb_prop in All as [All _].
Qed.

Lemma table_name_char_lower (c : ascii) :
  table_name_char c = true \/ c = NL -> lower_chr c = c.
Proof.
  intros [H | ->]; [|reflexivity].
  destruct c as [b0 b1 b2 b3 b4 b5 b6 b7].
  destruct b0, b1, b2, b3, b4, b5, b6, b7; try reflexivity; discriminate H.
Qed.

(** X13: [validate_table_name] accepts a name exactly when it has 1 to 63
    characters, reads: a lowercase letter, then lowercase letters, digits
    and underscores, a final line feed apart, and is not one of the nine
    reserved words. *)
Theorem table_name_accepted_iff_shape (v : str) :
  validate_table_name (Some v) = Valid (Some v)
  <-> 1 <= length v <= 63
      /\ (exists a body,
            up_to_newline v (a :: body)
            /\ is_lower_ascii a = true
            /\ forallb table_name_char body = true)
      /\ ~ In v reserved_words.
Proof.
  unfold validate_table_name.
  destruct (length v <? 1) eqn:L1.
  { apply Nat.ltb_lt in L1. cbn [orb]. split; [discriminate | lia]. }
  destruct (63 <? length v) eqn:L63.
  { apply Nat.ltb_lt in L63. cbn [orb]. split; [discriminate | lia]. }
  apply Nat.ltb_ge in L1, L63. cbn [orb].
  pose proof (run_first_star_eol is_lower_ascii table_name_char v eq_refl) as M.
  change (seq [Chr is_lower_ascii; Star table_name_char; Eol])
    with TABLE_NAME_PATTERN in M.
  destruct (rmatch TABLE_NAME_PATTERN v).
  2:{ split; [discriminate|]. intros [_ [H _]]. apply M in H. contradiction. }
  assert (Sh : exists a body,
             up_to_newline v (a :: body) /\ is_lower_ascii a = true
             /\ forallb table_name_char body = true) by now apply M.
  assert (Hl : lower v = v).
  { destruct Sh as [a [body [Hv [Ha Hb]]]].
    assert (Hall : forall c, In c v -> lower_chr c = c).
    { intros c Hc. apply table_name_char_lower.
      assert (Hin : In c (a :: body) -> table_name_char c = true).
      { intros [<- | Hin].
        - unfold table_name_char. now rewrite Ha.
        - rewrite forallb_forall in Hb. now apply Hb. }
      destruct Hv as [-> | ->]; [left; now apply Hin|].
      apply in_app_or in Hc as [Hc | [<- | []]]; [left; now apply Hin|].
      now right. }
    unfold lower. rewrite <- (map_id v) at 2. now apply map_ext_in. }
  rewrite Hl.
  destruct (existsb (str_eqb v) reserved_words) eqn:R.
  - split; [discriminate|]. intros [_ [_ Hn]]. exfalso. apply Hn.
    apply existsb_exists in R as [w [Hw E]]. apply str_eqb_eq in E.
    now subst w.
  - split; [|reflexivity]. intros _. split; [lia|]. split; [exact Sh|].
    intros Hin.
    assert (existsb (str_eqb v) reserved_words = true).
    { apply existsb_exists. exists v. split; [exact Hin | apply str_eqb_refl]. }
    congruence.
Qed.

(** [registered_password_can_log_in] on a password without line feed. *)
Lemma registered_password_can_log_in_witness :
  validate_password_chars (py "Password1!") = Valid (py "Password1!")
  <-> forallb password_char (py "Password1!") = true.
Proof.
  apply registered_password_can_log_in. vm_compute. reflexivity.
Defined.

End ValidatorFacts.

(** ** The statement splitter on text without dollar signs *)

Module SplitterFacts.

Import Sql SqlText.

Lemma split_char_cons (sep : ascii) (s : str) :
  split_char sep s = List.hd [] (split_char sep s) :: List.tl (split_char sep s).
Proof.
  destruct s as [|c r]; [reflexivity|]. cbn [split_char].
  destruct (chr_eqb c sep); [reflexivity|].
  now destruct (split_char sep r).
Qed.

Lemma stripped_pieces_app (l1 l2 : list str) :
  stripped_pieces (l1 ++ l2) = stripped_pieces l1 ++ stripped_pieces l2.
Proof. unfold stripped_pieces. now rewrite map_app, List.filter_app. Qed.

(** The [if stmt: statements.append(stmt)] of the loop. *)
Lemma append_if_nonempty (stmts : list str) (cur : str) :
  match strip cur with
  | [] => stmts
  | _ :: _ => stmts ++ [strip cur]
  end = stmts ++ stripped_pieces [cur].
Proof.
  unfold stripped_pieces. cbn [map List.filter].
  destruct (strip cur); cbn [nonempty]; [now rewrite app_nil_r | reflexivity].
Qed.

(** The same after the loop. *)
Lemma append_last_statement (stmts : list str) (cur : str) :
  match strip cur with
  | [] => stmts
  | c :: l => stmts ++ [c :: l]
  end = stmts ++ stripped_pieces [cur].
Proof.
  unfold stripped_pieces. cbn [map List.filter].
  destruct (strip cur); cbn [nonempty]; [now rewrite app_nil_r | reflexivity].
Qed.

Lemma removelast_last (l : list str) :
  l <> [] -> List.removelast l ++ [List.last l []] = l.
Proof. intros H. symmetry. now apply app_removelast_last. Qed.

Section Loop.

Variable q : str.

Lemma loop_step (f : nat) (s : split_state) :
  idx s < length q -> split_loop (S f) q s = split_loop f q (split_step q s).
Proof.
  intros H. cbn [split_loop]. apply Nat.ltb_lt in H. now rewrite H.
Qed.

Lemma char_at_middle (pre : str) (c : ascii) (post : str) :
  q = pre ++ c :: post -> char_at q (length pre) = c.
Proof. intros ->. unfold char_at. apply nth_middle. Qed.

Lemma idx_in_range (pre : str) (c : ascii) (post : str) (s : split_state) :
  q = pre ++ c :: post -> idx s = length pre -> idx s < length q.
Proof. intros -> ->. rewrite length_app. cbn [length]. lia. Qed.

(** One iteration on a plain character outside a string. *)
Lemma step_plain (pre : str) (c : ascii) (post : str) (s : split_state) :
  q = pre ++ c :: post -> idx s = length pre -> in_string s = false ->
  plain_char c = true ->
  split_step q s
  = if chr_eqb c semicolon
    then mkSplit (statements s ++ stripped_pieces [current s]) [] false
                 (string_char s) (idx s + 1)
    else mkSplit (statements s) (current s ++ [c]) false (string_char s)
                 (idx s + 1).
Proof.
  intros Hq Hi Hs Hc. unfold split_step.
  rewrite Hi, (char_at_middle pre c post Hq), Hs.
  unfold plain_char in Hc.
  apply andb_prop in Hc as [Hc Hd]. apply andb_prop in Hc as [Hsq Hdq].
  apply negb_true_iff in Hsq, Hdq, Hd. rewrite Hsq, Hdq, Hd.
  cbn [andb orb negb]. rewrite andb_false_r, andb_true_r.
  destruct (chr_eqb c semicolon); [|reflexivity].
  now rewrite append_if_nonempty.
Qed.

(** One iteration on the quote that opens a string. *)
Lemma step_open (pre : str) (c : ascii) (post : str) (s : split_state) :
  q = pre ++ c :: post -> idx s = length pre -> in_string s = false ->
  c = SQ \/ c = DQ ->
  split_step q s
  = mkSplit (statements s) (current s ++ [c]) true (Some c) (idx s + 1).
Proof.
  intros Hq Hi Hs Hc. unfold split_step.
  rewrite Hi, (char_at_middle pre c post Hq), Hs.
  destruct Hc as [-> | ->]; reflexivity.
Qed.

(** One iteration inside a string, on a character that is not its quote. *)
Lemma step_inside (pre : str) (c : ascii) (post : str) (s : split_state)
      (quote : ascii) :
  q = pre ++ c :: post -> idx s = length pre -> in_string s = true ->
  string_char s = Some quote -> chr_eqb c quote = false ->
  split_step q s
  = mkSplit (statements s) (current s ++ [c]) true (Some quote) (idx s + 1).
Proof.
  intros Hq Hi Hs Hsc Hc. unfold split_step.
  rewrite Hi, (char_at_middle pre c post Hq), Hs, Hsc.
  cbn [negb is_string_char]. rewrite !andb_false_r, Hc. reflexivity.
Qed.

(** One iteration on the quote that closes a string, when the next
    character is not the same quote. *)
Lemma step_close (pre : str) (post : str) (s : split_state) (quote : ascii) :
  q = pre ++ quote :: post -> idx s = length pre -> in_string s = true ->
  string_char s = Some quote ->
  match post with [] => true | d :: _ => negb (chr_eqb d quote) end = true ->
  split_step q s
  = mkSplit (statements s) (current s ++ [quote]) false None (idx s + 1).
Proof.
  intros Hq Hi Hs Hsc Hnext. unfold split_step.
  rewrite Hi, (char_at_middle pre quote post Hq), Hs, Hsc.
  cbn [negb is_string_char]. rewrite !andb_false_r, chr_eqb_refl.
  cbn [andb].
  destruct post as [|d post].
  - assert (E : (length pre + 1 <? length q) = false).
    { apply Nat.ltb_ge. rewrite Hq, length_app. cbn [length]. lia. }
    rewrite E. reflexivity.
  - assert (E : char_at q (length pre + 1) = d).
    { replace (length pre + 1) with (length (pre ++ [quote]))
        by (rewrite length_app; reflexivity).
      apply (char_at_middle (pre ++ [quote]) d post).
      rewrite Hq, <- app_assoc. reflexivity. }
    rewrite E. apply negb_true_iff in Hnext. rewrite Hnext, andb_false_r.
    reflexivity.
Qed.

(** A run of plain characters outside a string: the semicolons close
    pieces, the last piece stays open. *)
Lemma plain_run (a : str) :
  forall (pre post : str) (s : split_state) (f : nat),
    q = pre ++ a ++ post -> idx s = length pre -> in_string s = false ->
    forallb plain_char a = true ->
    split_loop (length a + f) q s
    = split_loop f q
        (mkSplit (statements s
                  ++ stripped_pieces
                       (List.removelast
                          (with_prefix (current s) (split_char semicolon a))))
                 (List.last (with_prefix (current s) (split_char semicolon a)) [])
                 false (string_char s) (idx s + length a)).
Proof.
  induction a as [|c a IH]; intros pre post s f Hq Hi Hs Ha.
  - unfold with_prefix.
    cbn [length split_char List.hd List.tl List.removelast
         List.last stripped_pieces map List.filter plus].
    rewrite !app_nil_r, Nat.add_0_r. destruct s as [st cur ins sc i].
    cbn in Hs. subst ins. reflexivity.
  - cbn [forallb] in Ha. apply andb_prop in Ha as [Hc Ha].
    cbn [length plus]. rewrite loop_step
      by (apply (idx_in_range pre c (a ++ post)); [exact Hq | exact Hi]).
    rewrite (step_plain pre c (a ++ post) s Hq Hi Hs Hc).
    pose proof (split_char_cons semicolon a) as E.
    cbn [split_char]. destruct (split_char semicolon a) as [|h t];
      [discriminate E|]. clear E.
    assert (Hq' : q = (pre ++ [c]) ++ a ++ post)
      by (rewrite Hq, <- app_assoc; reflexivity).
    assert (Hi' : idx s + 1 = length (pre ++ [c]))
      by (rewrite length_app, Hi; reflexivity).
    destruct (chr_eqb c semicolon).
    + rewrite (IH (pre ++ [c]) post);
        [|exact Hq' | exact Hi' | reflexivity | exact Ha].
      cbn [idx in_string current statements string_char].
      unfold with_prefix.
      cbn [List.hd List.tl List.removelast List.last app].
      rewrite <- app_assoc, <- stripped_pieces_app, app_nil_r. cbn [app].
      do 2 f_equal. lia.
    + rewrite (IH (pre ++ [c]) post);
        [|exact Hq' | exact Hi' | reflexivity | exact Ha].
      cbn [idx in_string current statements string_char].
      unfold with_prefix. cbn [List.hd List.tl].
      rewrite <- app_assoc. cbn [app]. do 2 f_equal. lia.
Qed.

(** A run of characters inside a string, none of them its quote. *)
Lemma inside_run (a : str) (quote : ascii) :
  forall (pre post : str) (s : split_state) (f : nat),
    q = pre ++ a ++ post -> idx s = length pre -> in_string s = true ->
    string_char s = Some quote ->
    forallb (fun c => negb (chr_eqb c quote)) a = true ->
    split_loop (length a + f) q s
    = split_loop f q
        (mkSplit (statements s) (current s ++ a) true (Some quote)
                 (idx s + length a)).
Proof.
  induction a as [|c a IH]; intros pre post s f Hq Hi Hs Hsc Ha.
  - cbn [length plus]. rewrite app_nil_r, Nat.add_0_r.
    destruct s as [st cur ins sc i]. cbn in Hs, Hsc. now subst ins sc.
  - cbn [forallb] in Ha. apply andb_prop in Ha as [Hc Ha].
    apply negb_true_iff in Hc.
    cbn [length plus]. rewrite loop_step
      by (apply (idx_in_range pre c (a ++ post)); [exact Hq | exact Hi]).
    rewrite (step_inside pre c (a ++ post) s quote Hq Hi Hs Hsc Hc).
    rewrite (IH (pre ++ [c]) post); cbn [idx in_string current statements
                                         string_char].
    + f_equal. rewrite <- app_assoc. cbn [app]. f_equal. lia.
    + rewrite Hq, <- app_assoc. reflexivity.
    + rewrite length_app, Hi. reflexivity.
    + reflexivity.
    + reflexivity.
    + exact Ha.
Qed.

End Loop.

(** X15: on a text without quotes and dollar signs, the splitter returns
    exactly the pieces between semicolons, stripped, the empty ones left
    out. *)
Theorem split_plain_text (query : str) :
  forallb plain_char query = true ->
  split_sql_statements query
  = stripped_pieces (split_char semicolon query).
Proof.
  intros Hp. unfold split_sql_statements.
  pose proof (plain_run query query [] [] (mkSplit [] [] false None 0) 0) as E.
  rewrite Nat.add_0_r, app_nil_r in E.
  rewrite (E eq_refl eq_refl eq_refl Hp). clear E.
  cbn [split_loop current statements app].
  rewrite append_last_statement, <- stripped_pieces_app.
  rewrite removelast_last by discriminate.
  unfold with_prefix. cbn [app]. now rewrite <- split_char_cons.
Qed.

(** X16: a quoted string is never cut.  When a text reads: plain text, a
    quoted string without its own quote character inside, plain text, the
    statements are the pieces between the semicolons outside the string;
    semicolons, dollar signs and quotes of the other kind inside it are
    ordinary characters. *)
Theorem quoted_text_is_not_split (a s b : str) (quote : ascii) :
  quote = SQ \/ quote = DQ ->
  forallb plain_char a = true ->
  forallb (fun c => negb (chr_eqb c quote)) s = true ->
  forallb plain_char b = true ->
  split_sql_statements (a ++ [quote] ++ s ++ [quote] ++ b)
  = stripped_pieces
      (glue (split_char semicolon a) ([quote] ++ s ++ [quote])
            (split_char semicolon b)).
Proof.
  intros Hquote Ha Hs Hb. unfold split_sql_statements.
  set (q := a ++ [quote] ++ s ++ [quote] ++ b).
  assert (Hlen : length q
                 = length a + S (length s + S (length b + 0))).
  { unfold q. rewrite !length_app. cbn [length]. lia. }
  assert (Hnext : match b with
                  | [] => true
                  | d :: _ => negb (chr_eqb d quote)
                  end = true).
  { destruct b as [|d b]; [reflexivity|].
    cbn [forallb] in Hb. apply andb_prop in Hb as [Hd _].
    unfold plain_char in Hd.
    apply andb_prop in Hd as [Hd _]. apply andb_prop in Hd as [H1 H2].
    destruct Hquote as [-> | ->]; assumption. }
  assert (E : split_loop (length q) q (mkSplit [] [] false None 0)
              = mkSplit
                  (stripped_pieces (List.removelast (split_char semicolon a))
                   ++ stripped_pieces
                        (List.removelast
                           (with_prefix
                              (List.last (split_char semicolon a) []
                               ++ [quote] ++ s ++ [quote])
                              (split_char semicolon b))))
                  (List.last
                     (with_prefix
                        (List.last (split_char semicolon a) []
                         ++ [quote] ++ s ++ [quote])
                        (split_char semicolon b)) [])
                  false None (length q)).
  { rewrite Hlen at 1.
    rewrite (plain_run q a [] ([quote] ++ s ++ [quote] ++ b));
      [|reflexivity | reflexivity | reflexivity | exact Ha].
    cbn [statements current string_char idx app].
    assert (W : with_prefix [] (split_char semicolon a)
                = split_char semicolon a)
      by (unfold with_prefix; cbn [app]; now rewrite <- split_char_cons).
    rewrite W.
    rewrite loop_step by (cbn [idx]; rewrite Hlen; lia).
    rewrite (step_open q a quote (s ++ [quote] ++ b));
      [|reflexivity | reflexivity | reflexivity | exact Hquote].
    cbn [statements current idx].
    rewrite (inside_run q s quote (a ++ [quote]) ([quote] ++ b));
      [| unfold q; now rewrite <- !app_assoc
       | cbn [idx]; now rewrite length_app
       | reflexivity | reflexivity | exact Hs].
    cbn [statements current idx].
    rewrite loop_step by (cbn [idx]; rewrite Hlen; lia).
    rewrite (step_close q (a ++ [quote] ++ s) b _ quote);
      [| unfold q; now rewrite <- !app_assoc
       | cbn [idx]; rewrite !length_app; cbn [length]; lia
       | reflexivity | reflexivity | exact Hnext].
    cbn [statements current idx].
    rewrite (plain_run q b (a ++ [quote] ++ s ++ [quote]) []);
      [| unfold q; now rewrite app_nil_r, <- !app_assoc
       | cbn [idx]; rewrite !length_app; cbn [length]; lia
       | reflexivity | exact Hb].
    cbn [split_loop statements current string_char idx].
    rewrite <- !app_assoc. cbn [app]. f_equal. rewrite Hlen. lia. }
  rewrite E. cbn [current statements].
  rewrite append_last_statement, <- app_assoc, <- !stripped_pieces_app.
  rewrite removelast_last by discriminate.
  unfold glue, with_prefix. rewrite <- !app_assoc. reflexivity.
Qed.

(** [split_plain_text] on two statements and an empty one. *)
Lemma split_plain_text_witness :
  forallb plain_char (py "SELECT 1 ;; SELECT 2 ") = true
  /\ split_sql_statements (py "SELECT 1 ;; SELECT 2 ")
     = [py "SELECT 1"; py "SELECT 2"].
Proof.
  split; [reflexivity|].
  rewrite (split_plain_text (py "SELECT 1 ;; SELECT 2 ") eq_refl).
  reflexivity.
Defined.

(** [quoted_text_is_not_split] on a string holding a semicolon, a dollar
    sign and a double quote. *)
Lemma quoted_text_is_not_split_witness :
  split_sql_statements (py "SELECT " ++ [SQ] ++ (py "x;y$" ++ [DQ]) ++ [SQ]
                        ++ py " AS a; SELECT 2")
  = [py "SELECT " ++ [SQ] ++ py "x;y$" ++ [DQ] ++ [SQ] ++ py " AS a";
     py "SELECT 2"].
Proof.
  rewrite (quoted_text_is_not_split (py "SELECT ") (py "x;y$" ++ [DQ])
                                    (py " AS a; SELECT 2") SQ
                                    (or_introl eq_refl) eq_refl eq_refl eq_refl).
  reflexivity.
Defined.

End SplitterFacts.

(** ** The security check of the SQL console *)

Module SqlGuardFacts.

Import Re ReFacts SqlGuard.

(** A greedy run followed by something that matches after the longest run:
    the longest run is the one taken. *)
Lemma star_k_greedy {A : Type} (p : ascii -> bool) (k : str -> option A) :
  forall s, k (drop_while p s) <> None -> star_k p s k = k (drop_while p s).
Proof.
  induction s as [|a s IH]; cbn [star_k drop_while]; [reflexivity|].
  destruct (p a); [|reflexivity]. intros H. rewrite (IH H).
  destruct (k (drop_while p s)); [reflexivity | contradiction].
Qed.

Lemma drop_while_blank (ws r : str) :
  blank ws = true ->
  match r with [] => true | c :: _ => negb (is_space c) end = true ->
  drop_while is_space (ws ++ r) = r.
Proof.
  intros Hws Hr. induction ws as [|a ws IH]; cbn [app drop_while].
  - destruct r as [|c r]; [reflexivity|]. cbn [drop_while].
    apply negb_true_iff in Hr. now rewrite Hr.
  - cbn [blank forallb] in Hws. apply andb_prop in Hws as [Ha Hws].
    rewrite Ha. now apply IH.
Qed.

(** [\s+] on whitespace followed by something else. *)
Lemma run_sp1 {A : Type} (ws r : str) (c : caps)
      (k : str -> caps -> option A) :
  blank ws = true -> ws <> [] ->
  match r with [] => true | c :: _ => negb (is_space c) end = true ->
  k r c <> None ->
  run sp1 (ws ++ r) c k = k r c.
Proof.
  intros Hws Hne Hr Hk. destruct ws as [|a ws]; [contradiction|].
  cbn [blank forallb] in Hws. apply andb_prop in Hws as [Ha Hws].
  unfold sp1, plus. cbn [run app]. rewrite Ha.
  rewrite star_k_greedy; rewrite (drop_while_blank ws r Hws Hr);
    [reflexivity | exact Hk].
Qed.

(** A literal on a text that starts with it. *)
Lemma run_lit_app {A : Type} (w r : str) (c : caps)
      (k : str -> caps -> option A) :
  run (lit w) (w ++ r) c k = k r c.
Proof. now rewrite run_lit, startswith_app, skipn_app_exact. Qed.

(** A lowercase literal under IGNORECASE on a text that starts with it. *)
Lemma run_ilit_app {A : Type} (w r : str) (c : caps)
      (k : str -> caps -> option A) :
  run (seq (map ichr w)) (w ++ r) c k = k r c.
Proof.
  revert c k. induction w as [|a w IH]; intros c k; [reflexivity|].
  destruct w as [|b w].
  - cbn [map seq run ichr app]. now rewrite chr_eqb_refl.
  - change (seq (map ichr (a :: b :: w)))
      with (Cat (ichr a) (seq (map ichr (b :: w)))).
    cbn [run ichr]. change ((a :: b :: w) ++ r) with (a :: (b :: w) ++ r).
    cbn iota beta. rewrite chr_eqb_refl. apply IH.
Qed.

(** The character before the position reached after [pre]. *)
Abbreviation before pre prev :=
  (match List.hd_error (rev pre) with Some c => Some c | None => prev end).

Lemma before_cons (c : ascii) (pre : str) (prev : option ascii) :
  before (c :: pre) prev = before pre (Some c).
Proof.
  cbn [rev]. destruct (rev pre) as [|x l]; reflexivity.
Qed.

(** A match somewhere makes the search succeed. *)
Lemma search_from_found (p : pattern) (pre : str) :
  forall (prev : option ascii) (s : str),
    match_at p (before pre prev) s <> None ->
    search_from p prev (pre ++ s) <> None.
Proof.
  induction pre as [|c pre IH]; intros prev s H.
  - cbn [app]. cbn in H. destruct s; cbn [search_from];
      destruct (match_at p prev _); congruence.
  - cbn [app search_from].
    destruct (match_at p prev (c :: pre ++ s)); [discriminate|].
    apply IH. rewrite (before_cons c pre prev) in H. exact H.
Qed.

(** A match at the head is the one the search returns. *)
Lemma search_at_head (p : pattern) (s rest : str) :
  match_at p None s = Some rest -> search p s = Some rest.
Proof.
  intros H. unfold search. destruct s; cbn [search_from]; now rewrite H.
Qed.

Lemma whole_word_found (w : string) (last_char : ascii) (pre post : str) :
  is_word_opt (List.hd_error (py w)) = true ->
  py w <> [] ->
  is_word last_char = true ->
  ends_outside_word pre = true -> starts_outside_word post = true ->
  search (whole_word w last_char) (pre ++ py w ++ post) <> None.
Proof.
  intros Hfirst Hne Hlast Hpre Hpost. unfold search.
  apply search_from_found. unfold match_at, whole_word, ilit.
  cbn [leading_b body trailing_b].
  assert (B1 : boundary (before pre None) (py w ++ post) = true).
  { unfold boundary. unfold ends_outside_word in Hpre.
    apply negb_true_iff in Hpre.
    destruct (py w) as [|x l]; [contradiction|]. cbn [app List.hd_error] in *.
    rewrite Hfirst. destruct (List.hd_error (rev pre)); cbn in *;
      [now rewrite Hpre | reflexivity]. }
  rewrite B1. cbn [negb andb]. rewrite run_ilit_app.
  unfold boundary. cbn [is_word_opt]. rewrite Hlast.
  unfold starts_outside_word in Hpost. apply negb_true_iff in Hpost.
  rewrite Hpost. discriminate.
Qed.

(** X17: a query in which one of [pg_read_file], [pg_write_file],
    [pg_ls_dir], [lo_import], [lo_export] occurs as a whole word, in any
    letter case and at any place, is refused with 400. *)
Theorem dangerous_function_calls_are_rejected
        (query pre name post : str) :
  In name dangerous_functions ->
  lower query = pre ++ name ++ post ->
  ends_outside_word pre = true ->
  starts_outside_word post = true ->
  validate_query_security query = prohibited.
Proof.
  intros Hin Hq Hpre Hpost. unfold validate_query_security. rewrite Hq.
  assert (E : existsb (fun p => match search p (pre ++ name ++ post) with
                                | Some _ => true
                                | None => false
                                end) DANGEROUS_PATTERNS = true).
  { apply existsb_exists.
    assert (F : forall (w : string) (l : ascii),
               py w = name ->
               is_word_opt (List.hd_error (py w)) = true -> py w <> [] ->
               is_word l = true ->
               match search (whole_word w l) (pre ++ name ++ post) with
               | Some _ => true
               | None => false
               end = true).
    { intros w l <- H1 H2 H3.
      pose proof (whole_word_found w l pre post H1 H2 H3 Hpre Hpost) as H.
      destruct (search _ _); [reflexivity | contradiction]. }
    cbn [dangerous_functions map In] in Hin.
    destruct Hin as [H|[H|[H|[H|[H|[]]]]]].
    - exists (whole_word "pg_read_file" "e"). split; [cbn; tauto|].
      apply F; [exact H | reflexivity | discriminate | reflexivity].
    - exists (whole_word "pg_write_file" "e"). split; [cbn; tauto|].
      apply F; [exact H | reflexivity | discriminate | reflexivity].
    - exists (whole_word "pg_ls_dir" "r"). split; [cbn; tauto|].
      apply F; [exact H | reflexivity | discriminate | reflexivity].
    - exists (whole_word "lo_import" "t"). split; [cbn; tauto|].
      apply F; [exact H | reflexivity | discriminate | reflexivity].
    - exists (whole_word "lo_export" "t"). split; [cbn; tauto|].
      apply F; [exact H | reflexivity | discriminate | reflexivity]. }
  cbv zeta. now rewrite E.
Qed.

Lemma run_alt {A : Type} (r1 r2 : re) (s : str) (c : caps)
      (k : str -> caps -> option A) :
  run (Alt r1 r2) s c k
  = match run r1 s c k with Some x => Some x | None => run r2 s c k end.
Proof. reflexivity. Qed.

Lemma run_grp {A : Type} (n : nat) (r : re) (s : str) (c : caps)
      (k : str -> caps -> option A) :
  run (Grp n r) s c k
  = run r s c (fun s' c' => k s' ((n, firstn (length s - length s') s) :: c')).
Proof. reflexivity. Qed.

(** A literal on a text that starts otherwise. *)
Lemma run_lit_fail {A : Type} (w x : str) (c : caps)
      (k : str -> caps -> option A) :
  startswith x w = false -> run (lit w) x c k = None.
Proof. intros H. now rewrite run_lit, H. Qed.

Abbreviation starts_nonspace r :=
  (match r with [] => true | c :: _ => negb (is_space c) end).

(** The modification pattern on a text that starts with one of its
    keywords, whitespace, and something else. *)
Lemma modification_found (gap kw ws r : str) :
  blank gap = true -> gap <> [] ->
  In kw (modification_keywords gap) ->
  blank ws = true -> ws <> [] -> starts_nonspace r = true ->
  search modification_pattern (kw ++ ws ++ r) = Some r.
Proof.
  intros Hgap Hgne Hin Hws Hwne Hr. apply search_at_head.
  unfold match_at, modification_pattern. cbn [leading_b body trailing_b].
  assert (Hend : forall c : caps,
             run sp1 (ws ++ r) c (fun rest _ => Some rest) = Some r).
  { intros c. rewrite run_sp1; [reflexivity | exact Hws | exact Hwne
                                | exact Hr | discriminate]. }
  assert (Htwo : forall (w1 w2 : str) (c : caps) (n : nat) (x : str),
             starts_nonspace (w2 ++ ws ++ r) = true ->
             run (seq [lit w1; sp1; lit w2])
                 (w1 ++ gap ++ w2 ++ ws ++ r) c
                 (fun s' c' =>
                    run sp1 s' ((n, firstn (length x - length s') x) :: c')
                        (fun rest _ => Some rest))
             = Some r).
  { intros w1 w2 c n x Hw2.
    change (seq [lit w1; sp1; lit w2]) with (Cat (lit w1) (Cat sp1 (lit w2))).
    rewrite FileFacts.run_cat, run_lit_app, FileFacts.run_cat.
    rewrite run_sp1; [| exact Hgap | exact Hgne | exact Hw2
                      | rewrite run_lit_app, Hend; discriminate].
    now rewrite run_lit_app, Hend. }
  assert (Hno : forall (w1 w2 x : str) (c : caps)
                       (k : str -> caps -> option str),
             startswith x w1 = false ->
             run (seq [lit w1; sp1; lit w2]) x c k = None).
  { intros w1 w2 x c k Hx.
    change (seq [lit w1; sp1; lit w2]) with (Cat (lit w1) (Cat sp1 (lit w2))).
    now rewrite FileFacts.run_cat, run_lit_fail. }
  match goal with
  | |- context [seq [Grp 1 ?a; sp1]] =>
      change (seq [Grp 1 a; sp1]) with (Cat (Grp 1 a) sp1)
  end.
  cbn [modification_keywords In] in Hin.
  destruct Hin as [<-|[<-|[<-|[<-|[<-|[]]]]]];
    rewrite <- ?app_assoc;
    match goal with
    | |- context [boundary None ?t] => change (boundary None t) with true
    end;
    cbn [andb negb]; rewrite FileFacts.run_cat, run_grp, run_alt.
  - now rewrite Htwo.
  - rewrite Hno by reflexivity. now rewrite run_alt, run_lit_app, Hend.
  - rewrite Hno by reflexivity.
    rewrite run_alt, run_lit_fail by reflexivity.
    rewrite run_alt. now rewrite Htwo.
  - rewrite Hno by reflexivity.
    rewrite run_alt, run_lit_fail by reflexivity.
    rewrite run_alt, Hno by reflexivity.
    rewrite run_alt. now rewrite Htwo.
  - rewrite Hno by reflexivity.
    rewrite run_alt, run_lit_fail by reflexivity.
    rewrite run_alt, Hno by reflexivity.
    rewrite run_alt, Hno by reflexivity.
    now rewrite run_lit_app, Hend.
Qed.

Lemma lstrip_app (a b : str) :
  lstrip (a ++ b) = if blank a then lstrip b else lstrip a ++ b.
Proof.
  induction a as [|x a IH]; cbn [app lstrip blank forallb]; [reflexivity|].
  destruct (is_space x); [exact IH | reflexivity].
Qed.

(** Stripping a text that starts with a trimmed word keeps the word. *)
Lemma strip_keeps_prefix (t rest : str) :
  t <> [] -> no_leading_space t -> no_trailing_space t ->
  exists r', strip (t ++ rest) = t ++ r'.
Proof.
  intros Hne Hl Ht. unfold strip.
  rewrite (lstrip_fixed (t ++ rest))
    by (destruct t; [contradiction | exact Hl]).
  unfold rstrip. rewrite rev_app_distr, lstrip_app.
  destruct (blank (rev rest)).
  - exists []. rewrite (lstrip_fixed (rev t)) by exact Ht.
    now rewrite rev_involutive, app_nil_r.
  - exists (rev (lstrip (rev rest))).
    now rewrite rev_app_distr, rev_involutive.
Qed.

(** X18: a query that starts with INSERT INTO, UPDATE, DELETE FROM, DROP
    TABLE or TRUNCATE, in any letter case, then whitespace and the name of
    a protected table, is refused with 400. *)
Theorem protected_tables_are_guarded (query gap kw ws t rest : str) :
  blank gap = true -> gap <> [] ->
  In kw (modification_keywords gap) ->
  blank ws = true -> ws <> [] ->
  In t PROTECTED_TABLES ->
  lower query = kw ++ ws ++ t ++ rest ->
  validate_query_security query = prohibited
  \/ validate_query_security query
     = HTTPException 400 (py "Cannot modify protected system table: " ++ t).
Proof.
  intros Hgap Hgne Hkw Hws Hwne Ht Hq.
  unfold validate_query_security. rewrite Hq. cbv zeta.
  destruct (existsb _ DANGEROUS_PATTERNS); [now left | right].
  assert (Hstart : starts_nonspace (t ++ rest) = true /\ t <> []
                   /\ no_leading_space t /\ no_trailing_space t).
  { cbn [PROTECTED_TABLES map In] in Ht.
    destruct Ht as [<-|[<-|[<-|[<-|[<-|[]]]]]];
      (split; [reflexivity | split; [discriminate | split; reflexivity]]). }
  destruct Hstart as [Hs [Hne [Hl Hr]]].
  rewrite (modification_found gap kw ws (t ++ rest) Hgap Hgne Hkw Hws Hwne Hs).
  destruct (strip_keeps_prefix t rest Hne Hl Hr) as [r' ->].
  cbn [PROTECTED_TABLES map In] in Ht.
  destruct Ht as [<-|[<-|[<-|[<-|[<-|[]]]]]];
    cbn [PROTECTED_TABLES map List.find];
    repeat match goal with
           | |- context [startswith (?t ++ ?r) ?p] =>
               first [ change (startswith (t ++ r) p) with false
                     | rewrite (startswith_app t r) ]
           end;
    reflexivity.
Qed.

(** [dangerous_function_calls_are_rejected] on a call in upper case. *)
Lemma dangerous_function_calls_are_rejected_witness :
  validate_query_security (py "SELECT PG_READ_FILE('/etc/passwd')")
  = prohibited.
Proof.
  apply (dangerous_function_calls_are_rejected
           (py "SELECT PG_READ_FILE('/etc/passwd')")
           (py "select ") (py "pg_read_file") (py "('/etc/passwd')")).
  - cbn. tauto.
  - reflexivity.
  - reflexivity.
  - reflexivity.
Defined.

(** [protected_tables_are_guarded] on an UPDATE of [system_config]. *)
Lemma protected_tables_are_guarded_witness :
  validate_query_security (py "Update  system_config SET initialized = false")
  = prohibited
  \/ validate_query_security
       (py "Update  system_config SET initialized = false")
     = HTTPException 400
         (py "Cannot modify protected system table: " ++ py "system_config").
Proof.
  apply (protected_tables_are_guarded
           (py "Update  system_config SET initialized = false")
           (py " ") (py "update") (py "  ") (py "system_config")
           (py " set initialized = false")).
  - reflexivity.
  - discriminate.
  - cbn. tauto.
  - reflexivity.
  - discriminate.
  - cbn. tauto.
  - reflexivity.
Defined.

(** *** Queries that pass *)

Lemma star_k_inv {A : Type} (p : ascii -> bool) (k : str -> option A)
      (x : A) :
  forall s, star_k p s k = Some x ->
            exists a b, s = a ++ b /\ forallb p a = true /\ k b = Some x.
Proof.
  induction s as [|y s IH]; cbn [star_k]; intros H.
  - now exists [], [].
  - destruct (p y) eqn:Py; [|now exists [], (y :: s)].
    destruct (star_k p s k) eqn:R.
    + injection H as ->. destruct (IH eq_refl) as [a [b [-> [Ha Hb]]]].
      exists (y :: a), b. cbn [forallb app]. now rewrite Py, Ha.
    + now exists [], (y :: s).
Qed.

(** Whatever a pattern matches, the continuation is run on a suffix of the
    text. *)
Lemma run_suffix {A : Type} (r : re) :
  forall (s : str) (c : caps) (k : str -> caps -> option A) (x : A),
    run r s c k = Some x ->
    exists pre s' c', s = pre ++ s' /\ k s' c' = Some x.
Proof.
  induction r as [|p|r1 IH1 r2 IH2|r1 IH1 r2 IH2|r1 IH1|p|n r1 IH1|];
    intros s c k x H; cbn [run] in H.
  - now exists [], s, c.
  - destruct s as [|y s]; [discriminate|].
    destruct (p y); [|discriminate]. now exists [y], s, c.
  - apply IH1 in H as [pre1 [s1 [c1 [-> H]]]].
    apply IH2 in H as [pre2 [s2 [c2 [-> H]]]].
    exists (pre1 ++ pre2), s2, c2. now rewrite <- app_assoc.
  - destruct (run r1 s c k) eqn:R.
    + injection H as ->. now apply IH1 in R.
    + now apply IH2 in H.
  - destruct (run r1 s c k) eqn:R.
    + injection H as ->. now apply IH1 in R.
    + now exists [], s, c.
  - apply star_k_inv in H as [a [b [-> [_ H]]]]. now exists a, b, c.
  - apply IH1 in H as [pre [s' [c' [-> H]]]]. eauto.
  - destruct (at_end s); [|discriminate]. now exists [], s, c.
Qed.

(** A text as [str.lower] leaves it. *)
Abbreviation lowered s := (lower s = s).

Lemma lower_chr_idem (c : ascii) : lower_chr (lower_chr c) = lower_chr c.
Proof.
  destruct c as [b0 b1 b2 b3 b4 b5 b6 b7].
  destruct b0, b1, b2, b3, b4, b5, b6, b7; reflexivity.
Qed.

Lemma lower_lowered (s : str) : lowered (lower s).
Proof.
  unfold lower. rewrite map_map. apply map_ext. apply lower_chr_idem.
Qed.

Lemma lowered_suffix (pre s : str) : lowered (pre ++ s) -> lowered s.
Proof.
  unfold lower. rewrite map_app. intros H.
  apply app_inj_2 in H; [tauto | now rewrite length_map].
Qed.

(** A lowercase literal under IGNORECASE on a lowered text: the text
    starts with the literal. *)
Lemma run_ilit_inv {A : Type} (w : str) :
  lowered w ->
  forall (s : str) (c : caps) (k : str -> caps -> option A) (x : A),
    lowered s ->
    run (seq (map ichr w)) s c k = Some x ->
    startswith s w = true
    /\ k (skipn (length w) s) c = Some x.
Proof.
  induction w as [|a w IH]; intros Hw s c k x Hs H.
  - cbn in H. now rewrite startswith_nil.
  - unfold lower in Hw. cbn [map] in Hw. injection Hw as Ha Hw.
    assert (Step : forall (k' : str -> caps -> option A),
               run (ichr a) s c k' = Some x ->
               exists s', s = a :: s' /\ lowered s' /\ k' s' c = Some x).
    { intros k' R. cbn [run ichr] in R. destruct s as [|y s]; [discriminate|].
      destruct (chr_eqb (lower_chr y) (lower_chr a)) eqn:E; [|discriminate].
      apply chr_eqb_eq in E. unfold lower in Hs. cbn [map] in Hs.
      injection Hs as Hy Hs. exists s. split; [|split; assumption].
      f_equal. congruence. }
    destruct w as [|b w].
    + cbn [map seq] in H. apply Step in H as [s' [-> [_ H]]].
      cbn [startswith length skipn]. rewrite chr_eqb_refl, startswith_nil.
      now split.
    + change (seq (map ichr (a :: b :: w)))
        with (Cat (ichr a) (seq (map ichr (b :: w)))) in H.
      rewrite FileFacts.run_cat in H.
      apply Step in H as [s' [-> [Hs' H]]].
      apply (IH Hw) in H as [H1 H2]; [|exact Hs'].
      cbn [startswith length skipn]. rewrite chr_eqb_refl. now split.
Qed.

Lemma search_from_inv (p : pattern) (r : str) :
  forall (s : str) (prev : option ascii),
    search_from p prev s = Some r ->
    exists pre s' prev', s = pre ++ s' /\ match_at p prev' s' = Some r.
Proof.
  induction s as [|c s IH]; intros prev H; cbn [search_from] in H.
  - destruct (match_at p prev []) eqn:M; [|discriminate].
    injection H as ->. now exists [], [], prev.
  - destruct (match_at p prev (c :: s)) eqn:M.
    + injection H as ->. now exists [], (c :: s), prev.
    + apply IH in H as [pre [s' [prev' [-> H]]]].
      now exists (c :: pre), s', prev'.
Qed.

Lemma find_aux_found (w pre s : str) (n : nat) :
  startswith s w = true -> find_aux w (pre ++ s) n <> None.
Proof.
  intros H. revert n. induction pre as [|c pre IH]; intros n.
  - cbn [app]. destruct s; cbn [find_aux]; now rewrite H.
  - cbn [app find_aux]. destruct (startswith (c :: pre ++ s) w);
      [discriminate | apply IH].
Qed.

(** [w in q] when [q] reads: something, then a text that starts with
    [w]. *)
Lemma contains_found (w pre s : str) :
  startswith s w = true -> contains (pre ++ s) w = true.
Proof.
  intros H. unfold contains, find. cbn [Nat.ltb Nat.leb].
  change (skipn 0 (pre ++ s)) with (pre ++ s).
  pose proof (find_aux_found w pre s 0 H) as F.
  destruct (find_aux w (pre ++ s) 0); [reflexivity | contradiction].
Qed.

Lemma lstrip_suffix (s : str) : exists a, s = a ++ lstrip s.
Proof.
  induction s as [|c s [a IH]]; [now exists []|]. cbn [lstrip].
  destruct (is_space c); [|now exists []].
  exists (c :: a). cbn [app]. now rewrite <- IH.
Qed.

(** What [strip] leaves is a part of the text. *)
Lemma strip_infix (s : str) : exists a b, s = a ++ strip s ++ b.
Proof.
  destruct (lstrip_suffix s) as [a Ha].
  destruct (lstrip_suffix (rev (lstrip s))) as [b Hb].
  exists a, (rev b). unfold strip, rstrip.
  rewrite <- rev_app_distr, <- Hb, rev_involutive. exact Ha.
Qed.

Lemma startswith_app_r (s w r : str) :
  startswith s w = true -> startswith (s ++ r) w = true.
Proof.
  intros H. rewrite (startswith_split s w H), <- app_assoc.
  apply startswith_app.
Qed.

(** A dangerous pattern matches only where one of the trigger words
    starts. *)
Lemma dangerous_needs_trigger (p : pattern) (prev : option ascii)
      (s r : str) :
  In p DANGEROUS_PATTERNS -> lowered s -> match_at p prev s = Some r ->
  exists w pre s', In w trigger_words /\ s = pre ++ s'
                   /\ startswith s' w = true.
Proof.
  intros Hin Hs H. unfold match_at in H.
  destruct (leading_b p && negb (boundary prev s)); [discriminate|].
  assert (W : forall (w : string) (k : str -> caps -> option str),
             lowered (py w) -> In (py w) trigger_words ->
             run (ilit w) s [] k = Some r ->
             exists w pre s', In w trigger_words /\ s = pre ++ s'
                              /\ startswith s' w = true).
  { intros w k Hw Hin' R. apply (run_ilit_inv (py w) Hw) in R as [R _];
      [|exact Hs].
    now exists (py w), [], s. }
  cbn [DANGEROUS_PATTERNS In] in Hin.
  destruct Hin as [<-|[<-|[<-|[<-|[<-|[<-|[<-|[<-|[<-|[]]]]]]]]]];
    cbn [body whole_word] in H.
  - apply W in H; [exact H | reflexivity | cbn; tauto].
  - apply W in H; [exact H | reflexivity | cbn; tauto].
  - apply W in H; [exact H | reflexivity | cbn; tauto].
  - apply W in H; [exact H | reflexivity | cbn; tauto].
  - apply W in H; [exact H | reflexivity | cbn; tauto].
  - change (seq (ilit "copy" :: ?l)) with (Cat (ilit "copy") (seq l)) in H.
    rewrite FileFacts.run_cat in H.
    apply W in H; [exact H | reflexivity | cbn; tauto].
  - change (seq (ilit "copy" :: ?l)) with (Cat (ilit "copy") (seq l)) in H.
    rewrite FileFacts.run_cat in H.
    apply W in H; [exact H | reflexivity | cbn; tauto].
  - change (seq (ilit "execute" :: ?l)) with (Cat (ilit "execute") (seq l)) in H.
    rewrite FileFacts.run_cat in H.
    apply W in H; [exact H | reflexivity | cbn; tauto].
  - change (seq [chr ";"; sp; lit (py "--")])
      with (Cat (chr ";") (Cat sp (lit (py "--")))) in H.
    cbn [run chr sp] in H. destruct s as [|y s]; [discriminate|].
    destruct (chr_eqb ";" y); [|discriminate].
    apply star_k_inv in H as [a [b [-> [_ H]]]].
    change (run (lit (py "--")) b [] (fun rest _ => Some rest) = Some r) in H.
    rewrite run_lit in H.
    destruct (startswith b (py "--")) eqn:E; [|discriminate].
    exists (py "--"), (y :: a), b. split; [cbn; tauto|]. now split.
Qed.

(** X19: a query made of characters below 256 (the texts of this model)
    in which none of the trigger words occurs (the five function names,
    [copy], [execute], the comment mark [--] and the names of the protected
    tables, letter case apart) passes the check.  Beyond these characters
    the statement stops: under IGNORECASE the letters [i] and [s] of a
    pattern also match the dotless i and the long s. *)
Theorem queries_without_trigger_words_pass (query : str) :
  (forall w, In w trigger_words -> contains (lower query) w = false) ->
  validate_query_security query = Return tt.
Proof.
  intros Hfree. unfold validate_query_security. cbv zeta.
  destruct (existsb _ DANGEROUS_PATTERNS) eqn:E.
  - exfalso. apply existsb_exists in E as [p [Hp Hm]].
    destruct (search p (lower query)) as [r|] eqn:S; [|discriminate].
    apply search_from_inv in S as [pre [s' [prev' [Hq M]]]].
    assert (Hs' : lowered s').
    { apply (lowered_suffix pre). rewrite <- Hq. apply lower_lowered. }
    destruct (dangerous_needs_trigger p prev' s' r Hp Hs' M)
      as [w [pre2 [s2 [Hw [-> Hst]]]]].
    specialize (Hfree w Hw). rewrite Hq, app_assoc in Hfree.
    rewrite contains_found in Hfree by exact Hst. discriminate.
  - destruct (search modification_pattern (lower query)) as [remaining|] eqn:S;
      [|reflexivity].
    destruct (List.find _ PROTECTED_TABLES) as [protected|] eqn:F;
      [|reflexivity].
    exfalso. apply find_some in F as [Hin Hst].
    apply search_from_inv in S as [pre [s' [prev' [Hq M]]]].
    unfold match_at in M.
    destruct (leading_b _ && negb _); [discriminate|].
    apply run_suffix in M as [pre2 [s2 [c2 [-> M]]]].
    cbn [trailing_b modification_pattern] in M. injection M as ->.
    destruct (strip_infix remaining) as [a [b Hr]].
    assert (Hw : In protected trigger_words).
    { unfold trigger_words. apply in_or_app. right. apply in_or_app. now right. }
    specialize (Hfree protected Hw).
    rewrite Hq, Hr, !app_assoc, <- (app_assoc _ (strip remaining) b) in Hfree.
    rewrite contains_found in Hfree by (now apply startswith_app_r).
    discriminate.
Qed.

(** [queries_without_trigger_words_pass] on a query that updates a table
    whose name merely resembles a keyword. *)
Lemma queries_without_trigger_words_pass_witness :
  validate_query_security (py "UPDATE updates SET n = n + 1 WHERE id = 7")
  = Return tt.
Proof.
  apply queries_without_trigger_words_pass.
  intros w Hw. cbn in Hw.
  repeat (destruct Hw as [<- | Hw]; [vm_compute; reflexivity|]).
  destruct Hw.
Defined.

End SqlGuardFacts.

(** ** The table registry under the SQL console *)

Module RegistryFacts.

Import Sql.

(** No two rows of the registry carry the same name. *)
Abbreviation unique_names reg := (NoDup (map t_name reg)).

Lemma register_unique (raised : bool) (reg : registry) (name : str)
      (sc : schema_dict) (owner : UUID) :
  unique_names reg ->
  unique_names (register_table_metadata raised reg name sc owner).
Proof.
  intros H. unfold register_table_metadata.
  destruct raised; [exact H|].
  destruct (find_table name reg) eqn:F; [exact H|].
  rewrite map_app. cbn [map fresh_row t_name].
  apply NoDup_app. split; [exact H|]. split; [|apply NoDup_singleton].
  intros n Hn Hin. apply list_elem_of_In in Hn.
  apply list_elem_of_In in Hin. destruct Hin as [<- | []].
  apply in_map_iff in Hn as [r [Hr Hin]].
  pose proof (find_none _ _ F r Hin) as E. cbn beta in E.
  rewrite Hr, str_eqb_refl in E. discriminate E.
Qed.

Lemma unregister_unique (raised : bool) (reg : registry) (name : str) :
  unique_names reg ->
  unique_names (unregister_table_metadata raised reg name).
Proof.
  unfold unregister_table_metadata. destruct raised; [tauto|].
  induction reg as [|r reg IH]; intros H; [exact H|].
  cbn [map] in H. apply NoDup_cons in H as [Hr H].
  cbn [List.filter]. destruct (negb _); [|now apply IH].
  cbn [map]. apply NoDup_cons. split; [|now apply IH].
  intros Hin. apply Hr. apply list_elem_of_In in Hin. apply list_elem_of_In.
  apply in_map_iff in Hin as [r' [E Hin]]. apply filter_In in Hin as [Hin _].
  apply in_map_iff. now exists r'.
Qed.

Lemma register_all_unique (raises : nat -> bool) (owner : UUID)
      (l : list (str * schema_dict)) :
  forall call reg,
    unique_names reg -> unique_names (register_all raises call owner l reg).
Proof.
  induction l as [|[n sc] l IH]; intros call reg H; [exact H|].
  cbn [register_all]. apply IH. now apply register_unique.
Qed.

Lemma unregister_all_unique (raises : nat -> bool) (l : list str) :
  forall call reg,
    unique_names reg -> unique_names (unregister_all raises call l reg).
Proof.
  induction l as [|x l IH]; intros call reg H; [exact H|].
  cbn [unregister_all]. apply IH. now apply unregister_unique.
Qed.

(** X20: whatever query the console runs, however it ends and whichever
    of the registry statements of the console raise, if the rows of
    [tables] carry distinct names once the statements of the query have
    run, they still do when the request is over. *)
Theorem console_keeps_names_unique
        (request_query : str) (current_user : UUID) (outcome : exec_outcome)
        (fetched : Z) (raises : nat -> bool) :
  unique_names (tables_left outcome) ->
  unique_names (snd (execute_query request_query current_user outcome
                                   fetched raises)).
Proof.
  intros H. unfold execute_query.
  destruct outcome as [msg tables | has_description rowcount tables];
    cbn [tables_left] in H; [exact H|].
  destruct (_ && _); [exact H|]. cbn [snd]. unfold reconcile. cbv zeta.
  now apply unregister_all_unique, register_all_unique.
Qed.

(** [console_keeps_names_unique] on a query that creates a table twice and
    drops another, the second registration failing. *)
Lemma console_keeps_names_unique_witness :
  NoDup (map t_name
           (snd (execute_query
                   (py "CREATE TABLE a (x TEXT); CREATE TABLE a (y INT); DROP TABLE b")
                   1%N
                   (ExecRan false 0 [mkTable (py "b") [] false 2%N [] 0]) 0
                   (fun call => Nat.eqb call 1)))).
Proof.
  apply console_keeps_names_unique.
  apply NoDup_cons. split; [intros H; inversion H | apply NoDup_nil_2].
Defined.

End RegistryFacts.

(** ** The statements the console registers and unregisters *)

Module ConsoleFacts.

Import Re ReFacts Sql SqlFacts Statements SqlGuardFacts.

(** *** Characters *)

Ltac each_char c :=
  destruct c as [[] [] [] [] [] [] [] []].


Lemma lower_chr_word (a : ascii) : is_word (lower_chr a) = is_word a.
Proof. each_char a; reflexivity. Qed.


(** Parentheses and the comma. *)
Abbreviation mark a :=
  (chr_eqb a "(" || chr_eqb a ")" || chr_eqb a ",").



Lemma lower_word (s : str) : forallb is_word (lower s) = forallb is_word s.
Proof.
  induction s as [|a s IH]; [reflexivity|].
  cbn [lower map forallb]. fold (lower s). now rewrite lower_chr_word, IH.
Qed.

Lemma lower_length (s : str) : length (lower s) = length s.
Proof. apply length_map. Qed.


(** A keyword in any letter case is a word. *)
Lemma spelled_word (w : string) (kw : str) :
  spells w kw -> forallb is_word (lower (py w)) = true ->
  forallb is_word kw = true.
Proof. intros H Hw. now rewrite <- lower_word, H. Qed.

(** *** Runs of word characters *)

Abbreviation starts_nonspace r :=
  (match r with [] => true | c :: _ => negb (is_space c) end).

Lemma ends_word_app (a r : str) :
  a <> [] -> ends_word (a ++ r) ->
  match a with c :: _ => is_word c = false | [] => True end.
Proof. destruct a; [contradiction | intros _ H; exact H]. Qed.



(** *** The matcher on keywords, whitespace, quotes and names *)






Abbreviation is_quote a := (chr_eqb a DQ || chr_eqb a SQ).









(** *** Where a text starts *)







(** *** IF at the place of the name *)


(** *** The CREATE TABLE pattern on a statement of that shape *)




(** *** The column list *)
















(** *** The two extractors on statements of the two shapes *)









(** *** What the DROP extractor returns stands in the query *)










(** *** Reconciliation *)


(** Other statements that create a table and register nothing: a first
    column whose name begins with a constraint keyword, a name qualified by
    its schema, an empty column list. *)
Lemma unregistered_creations :
  let registered q :=
    snd (execute_query (py q) 7%N (ExecRan false 0 []) 0 (fun _ => false)) in
  registered "CREATE TABLE a (checksum TEXT)" = []
  /\ registered "CREATE TABLE public.a (x TEXT)" = []
  /\ registered "CREATE TABLE a ()" = [].
Proof. vm_compute. now repeat split. Qed.

(** A DROP TABLE with several names unregisters the first only, and a
    table dropped and created again by one query is left without a row. *)
Lemma drops_seen_once_and_last :
  let row n := mkTable (py n) [] false 7%N [] 0 in
  let left q reg :=
    map t_name
        (snd (execute_query (py q) 7%N (ExecRan false 0 reg) 0
                            (fun _ => false))) in
  left "DROP TABLE a, b" [row "a"; row "b"] = [py "b"]
  /\ left "DROP TABLE a; CREATE TABLE a (x TEXT)" [] = [].
Proof. vm_compute. now split. Qed.



End ConsoleFacts.

(** ** Counters and execution history *)

Module CallbackFacts.

Import Functions FunctionHistory.

Lemma executions_with_snoc (status : option str) (id : UUID)
      (fns : list function_row) (exs : list execution_row)
      (lgs : list log_row) (e : execution_row) :
  executions_with status id (mkDb fns (exs ++ [e]) lgs)
  = (executions_with status id (mkDb fns exs lgs)
     + if N.eqb (ex_function_id e) id
          && match status with
             | Some s => str_eqb (ex_status e) s
             | None => true
             end
       then 1 else 0)%Z.
Proof.
  unfold executions_with. cbn [function_executions].
  rewrite List.filter_app, length_app. cbn [List.filter].
  destruct (_ && _); cbn [length]; lia.
Qed.

Lemma executions_with_functions (status : option str) (id : UUID)
      (fns fns' : list function_row) (exs : list execution_row)
      (lgs lgs' : list log_row) :
  executions_with status id (mkDb fns exs lgs)
  = executions_with status id (mkDb fns' exs lgs').
Proof. reflexivity. Qed.

Section Callbacks.

Variable str_of : arith_error -> str.

(** One callback keeps the counters in step with the history. *)
Lemma callback_keeps_counters (c : callback) (d : database) :
  counters_match_history d ->
  counters_match_history (after_callback str_of d c).
Proof.
  intros Inv. unfold after_callback, receive_execution_result, failed.
  destruct (cb_function_name c) as [|x name] eqn:Hn; [exact Inv|].
  destruct (_ || _); [exact Inv|].
  destruct (List.find _ (functions d)) as [fn_record|] eqn:F; [|exact Inv].
  destruct (new_average fn_record (cb_result c)) as [new_avg|]; [|exact Inv].
  destruct (int_of _) as [duration_ms|]; [|exact Inv].
  destruct (cb_db_error c); [exact Inv|].
  cbn [snd]. apply find_some in F as [Hin _].
  destruct (Inv fn_record Hin) as [I1 [I2 I3]].
  destruct d as [fns exs lgs]. cbn [functions function_executions function_logs] in *.
  intros f' Hf'. unfold update_metrics in Hf'. cbn [functions] in Hf'.
  apply in_map_iff in Hf' as [f [<- Hf]].
  rewrite !executions_with_snoc. cbn [ex_function_id ex_status].
  rewrite !(executions_with_functions _ _ _ fns exs _ lgs).
  destruct (N.eqb (fn_id f) (fn_id fn_record)) eqn:E.
  - apply N.eqb_eq in E.
    cbn [fn_id execution_count execution_success_count execution_error_count].
    rewrite E, N.eqb_refl, I1, I2, I3. cbn [andb].
    destruct (success (cb_result c)); repeat split; reflexivity.
  - destruct (Inv f Hf) as [J1 [J2 J3]].
    rewrite (N.eqb_sym (fn_id fn_record)), E. cbn [andb].
    rewrite !Z.add_0_r. repeat split; assumption.
Qed.

(** X23: the counters of every function stay equal to the numbers of its
    execution rows (all, completed, failed) through any sequence of
    execution callbacks, accepted or not. *)
Theorem callbacks_keep_counters_in_step (cs : list callback) (d : database) :
  counters_match_history d ->
  counters_match_history (after_callbacks str_of cs d).
Proof.
  unfold after_callbacks. revert d.
  induction cs as [|c cs IH]; intros d Inv; [exact Inv|].
  cbn [fold_left]. apply IH. now apply callback_keeps_counters.
Qed.

End Callbacks.

(** [callbacks_keep_counters_in_step] on a function without history that
    receives a success, a failure, and a callback that the database
    refuses. *)
Lemma callbacks_keep_counters_in_step_witness :
  counters_match_history
    (after_callbacks (fun _ => [])
       [ mkCallback (py "hello")
                    (mkResult true [py "[WARN] slow"] (float_of 7 (-1)) None)
                    11 1000 None;
         mkCallback (py "hello") (mkResult false [] (float_of 3 0) None)
                    12 2000 None;
         mkCallback (py "hello") (mkResult true [] (float_of 1 70) None)
                    13 3000 (Some (py "integer out of range")) ]
       (mkDb [mkFunction 5 (py "hello") 1 0 0 0 None None] [] [])).
Proof.
  apply callbacks_keep_counters_in_step.
  intros f [<- | []]. repeat split; reflexivity.
Defined.

End CallbackFacts.

(** ** Download and delete on the worker *)

Module BlobFacts.

Import Storage Blobs.

Lemma firstn_nil_inv {A : Type} (n : nat) (l : list A) :
  0 < n -> firstn n l = [] -> l = [].
Proof.
  intros Hn H. destruct n; [lia|]. destruct l; [reflexivity | discriminate H].
Qed.

Lemma iterator_spec (chunk_size : nat) :
  0 < chunk_size ->
  forall (fuel : nat) (content : bytes),
    length content <= fuel ->
    let cs := async_file_iterator fuel chunk_size content in
    concat cs = content
    /\ Forall (fun c => 0 < length c <= chunk_size) cs
    /\ (forall i c, nth_error cs i = Some c -> S i < length cs ->
                    length c = chunk_size).
Proof.
  intros Hn. induction fuel as [|fuel IH]; intros content Hlen; cbv zeta.
  - destruct content; [|simpl in Hlen; lia].
    repeat split; [constructor|]. intros [|i] c H; discriminate H.
  - cbn [async_file_iterator].
    destruct (firstn chunk_size content) as [|b chunk] eqn:E.
    + apply firstn_nil_inv in E; [|exact Hn]. subst content.
      repeat split; [constructor|]. intros [|i] c H; discriminate H.
    + assert (Hpos : 0 < length content).
      { destruct content; [destruct chunk_size; discriminate E | simpl; lia]. }
      assert (Hrest : length (skipn chunk_size content) <= fuel).
      { rewrite length_skipn. lia. }
      destruct (IH _ Hrest) as [H1 [H2 H3]].
      set (rest := async_file_iterator fuel chunk_size (skipn chunk_size content)) in *.
      assert (Hl : length (b :: chunk) = Nat.min chunk_size (length content))
        by (rewrite <- E; apply length_firstn).
      split; [|split].
      * cbn [concat]. rewrite H1, <- E. apply firstn_skipn.
      * constructor; [|exact H2]. cbn beta. cbn [length] in Hl |- *. lia.
      * intros [|i] c Hc Hi; cbn [nth_error length] in *.
        -- injection Hc as <-. cbn [length] in Hl |- *. rewrite Hl.
           destruct rest as [|c1 rest'] eqn:R; [simpl in Hi; lia|].
           assert (Hne : skipn chunk_size content <> []).
           { intros Hnil. rewrite Hnil in H1. subst rest.
             destruct fuel; [discriminate R|].
             cbn [async_file_iterator] in R. rewrite Hnil in R.
             destruct chunk_size; discriminate R. }
           assert (chunk_size < length content).
           { apply Nat.nle_gt. intros Hle. apply Hne.
             apply skipn_all2. exact Hle. }
           lia.
        -- apply (H3 i c Hc). lia.
Qed.

(** X24: the chunks a download streams are the file cut into pieces of
    [chunk_size] bytes: put together they give the file back, none is
    empty, and all but the last are full. *)
Theorem file_iterator_reassembles (fuel chunk_size : nat) (content : bytes) :
  0 < chunk_size -> length content <= fuel ->
  let cs := async_file_iterator fuel chunk_size content in
  concat cs = content
  /\ Forall (fun c => 0 < length c <= chunk_size) cs
  /\ (forall i c, nth_error cs i = Some c -> S i < length cs ->
                  length c = chunk_size).
Proof. intros Hn Hf. now apply iterator_spec. Qed.

Lemma CHUNK_SIZE_pos : 0 < CHUNK_SIZE.
Proof. unfold CHUNK_SIZE. lia. Qed.

Lemma write_all_dirs (tmp : str) (cs : list bytes) :
  forall (total : Z) (w : world),
    fs_dirs (w_fs (snd (write_all tmp cs total w))) = fs_dirs (w_fs w).
Proof.
  induction cs as [|c cs IH]; intros total w; [reflexivity|].
  cbn [write_all]. now rewrite IH.
Qed.

Lemma write_until_empty_dirs (tmp : str) (cs : list bytes) :
  forall (total : Z) (w : world),
    fs_dirs (w_fs (snd (fst (write_until_empty tmp cs total w))))
    = fs_dirs (w_fs w).
Proof.
  induction cs as [|c cs IH]; intros total w; [reflexivity|].
  destruct c as [|b c]; [reflexivity|].
  cbn [write_until_empty]. now rewrite IH.
Qed.

Lemma sys_replace_dirs (src dst : str) (w : world) :
  fs_dirs (w_fs (sys_replace src dst w)) = fs_dirs (w_fs w).
Proof. unfold sys_replace. now destruct (_ !! src). Qed.

Section RoundTrips.

Variable BASE_PATH : str.
Variable safe_join : str -> str -> option str.
Variable dir_size : str -> Z.
Variable strerror : syscall -> str.

Abbreviation upload := (Storage.upload_file BASE_PATH safe_join strerror).
Abbreviation download := (download_file BASE_PATH safe_join dir_size).
Abbreviation erase := (delete_file BASE_PATH safe_join).

(** An upload never removes a directory. *)
Lemma upload_keeps_dirs (bucket path : str) (request : payload)
      (tmp_name : str) (dk : disk) (w0 : world) (d : str) :
  d ∈ fs_dirs (w_fs w0) ->
  d ∈ fs_dirs (w_fs (snd (upload bucket path request tmp_name dk w0))).
Proof.
  intros Hd. unfold Storage.upload_file.
  destruct (negb _); [exact Hd|].
  destruct (safe_join _ path) as [fp|]; [|exact Hd].
  destruct (if blocked _ _ then _ else _).
  { cbn [snd sys_makedirs_failed w_fs fs_dirs]. apply elem_of_union. now right. }
  set (w1 := sys_makedirs _ w0).
  assert (H1 : d ∈ fs_dirs (w_fs w1)).
  { subst w1. unfold sys_makedirs. cbn [w_fs fs_dirs].
    apply elem_of_union. now right. }
  set (isdir := is_directory w1 fp). clearbody isdir. clearbody w1.
  destruct (mkstemp_raises dk); [exact H1|].
  set (w2 := sys_mkstemp _ w1).
  assert (H2 : d ∈ fs_dirs (w_fs w2)) by exact H1.
  clearbody w2.
  destruct request as [b | [f|]].
  - pose proof (write_all_dirs (parent fp ++ py "/" ++ tmp_name) (chunks b) 0 w2) as E.
    destruct (write_all _ (chunks b) 0 w2) as [total w3]. cbn [snd] in E.
    rewrite <- E in H2.
    unfold cleanup, sys_failed.
    repeat match goal with
           | |- context [match ?c with Some _ => _ | None => _ end] => destruct c
           | |- context [if ?c then _ else _] => destruct c
           end; cbn [snd]; unfold sys_unlink; rewrite ?sys_replace_dirs;
      exact H2.
  - pose proof (write_until_empty_dirs (parent fp ++ py "/" ++ tmp_name)
                  (chunks f) 0 w2) as E.
    destruct (write_until_empty _ (chunks f) 0 w2) as [[total w3] eof].
    cbn [fst snd] in E. rewrite <- E in H2.
    unfold cleanup, sys_failed.
    repeat match goal with
           | |- context [match ?c with Some _ => _ | None => _ end] => destruct c
           | |- context [if ?c then _ else _] => destruct c
           end; cbn [snd]; unfold sys_unlink; rewrite ?sys_replace_dirs;
      exact H2.
  - exact H2.
Qed.

(** X25: what an upload stored is what a download of the same path
    returns: the body of the request, announced with its length and the
    file name the upload reported. *)
Theorem download_returns_uploaded_bytes
        (bucket path : str) (request : payload) (tmp_name : str)
        (dk : disk) (w0 : world) (meta : FileMetadata) :
  (forall file_path,
      safe_join (BASE_PATH ++ py "/" ++ bucket) path = Some file_path ->
      fs_files (w_fs w0) !! (parent file_path ++ py "/" ++ tmp_name) = None) ->
  fst (upload bucket path request tmp_name dk w0) = Return meta ->
  exists body r cs,
    complete_body request = Some body
    /\ download bucket path
                (snd (upload bucket path request tmp_name dk w0))
       = Return r
    /\ stream r = Some cs
    /\ concat cs = concat body
    /\ content_length r = m_size meta
    /\ filename r = m_name meta.
Proof.
  intros Hfresh Hret.
  destruct (StorageFacts.upload_outcomes BASE_PATH safe_join strerror bucket
              path request tmp_name dk w0 Hfresh) as [_ Hcases].
  cbv zeta in Hcases.
  pose proof (upload_keeps_dirs bucket path request tmp_name dk w0
                (BASE_PATH ++ py "/" ++ bucket)) as Hdirs.
  destruct (bool_decide (BASE_PATH ++ py "/" ++ bucket ∈ fs_dirs (w_fs w0)))
    eqn:Hb.
  2:{ unfold Storage.upload_file in Hret. rewrite Hb in Hret. discriminate Hret. }
  apply bool_decide_eq_true in Hb. specialize (Hdirs Hb).
  destruct (safe_join (BASE_PATH ++ py "/" ++ bucket) path) as [fp|] eqn:Hj.
  2:{ unfold Storage.upload_file in Hret.
      rewrite (bool_decide_eq_true_2 _ Hb), Hj in Hret. discriminate Hret. }
  specialize (Hcases fp Hb eq_refl). unfold outcome_of in Hcases.
  destruct (if blocked _ _ then _ else _); [destruct Hcases; congruence|].
  destruct (mkstemp_raises dk); [destruct Hcases; congruence|].
  destruct (complete_body request) as [body|].
  2:{ destruct Hcases as [E _]. rewrite E in Hret.
      destruct (body_error request); discriminate Hret. }
  destruct (size_of body =? 0)%Z; [destruct Hcases; congruence|].
  destruct (replace_raises dk || _); [destruct Hcases; congruence|].
  destruct Hcases as [Hr [_ Hfiles]].
  rewrite Hr in Hret. injection Hret as <-.
  exists body. unfold download_file.
  rewrite (bool_decide_eq_true_2 _ Hdirs), Hj, Hfiles, lookup_insert_eq.
  cbn [negb]. eexists. eexists. split; [reflexivity|].
  split; [reflexivity|]. cbn [stream content_length filename m_size m_name].
  split; [reflexivity|]. split; [|split; reflexivity].
  apply iterator_spec; [apply CHUNK_SIZE_pos | lia].
Qed.

(** X26: deleting a blob removes that blob and nothing else, and a second
    delete of the same path gives the same answer and leaves the store as
    the first one left it; a path that names no blob is answered like one
    that does.  After a delete that succeeded a download of the path is
    answered 404. *)
Theorem delete_file_is_idempotent (bucket path : str) (w : world) :
  consistent (w_fs w) ->
  let out := erase bucket path w in
  let again := erase bucket path (snd out) in
  fst again = fst out
  /\ w_fs (snd again) = w_fs (snd out)
  /\ (fst out = Return tt ->
      download bucket path (snd out)
      = HTTPException 404 (py "File not found"))
  /\ (forall p, safe_join (BASE_PATH ++ py "/" ++ bucket) path <> Some p ->
                fs_files (w_fs (snd out)) !! p = fs_files (w_fs w) !! p)
  /\ fs_dirs (w_fs (snd out)) = fs_dirs (w_fs w).
Proof.
  intros Hc. cbv zeta. destruct w as [[files dirs] tr].
  unfold delete_file, download_file. cbn [w_fs fs_files fs_dirs].
  destruct (bool_decide (BASE_PATH ++ py "/" ++ bucket ∈ dirs)) eqn:Hb;
    cbn [negb fst snd w_fs fs_files fs_dirs].
  2:{ rewrite Hb. cbn [negb fst snd]. repeat split. discriminate. }
  destruct (safe_join (BASE_PATH ++ py "/" ++ bucket) path) as [fp|] eqn:Hj;
    cbn [negb fst snd w_fs fs_files fs_dirs].
  2:{ rewrite Hb. cbn [negb fst snd]. repeat split. discriminate. }
  assert (Hother : forall p : str, Some fp <> Some p ->
                                   delete fp files !! p = files !! p).
  { intros p Hp. apply lookup_delete_ne. congruence. }
  destruct (files !! fp) as [content|] eqn:Hf;
    unfold sys_unlink; cbn [negb fst snd w_fs fs_files fs_dirs];
    rewrite ?Hb, ?lookup_delete_eq; cbn [negb fst snd w_fs fs_files fs_dirs];
    rewrite ?Hb, ?lookup_delete_eq, ?delete_delete_eq;
    cbn [negb fst snd w_fs fs_files fs_dirs].
  - assert (Hnd : bool_decide (fp ∈ dirs) = false).
    { apply bool_decide_eq_false. intros Hin. specialize (Hc fp Hin).
      assert (E : Some content = None) by (rewrite <- Hf; exact Hc).
      discriminate E. }
    rewrite ?Hnd. repeat split; exact Hother.
  - repeat split; try exact Hother.
    destruct (bool_decide (fp ∈ dirs)); [discriminate | reflexivity].
Qed.

End RoundTrips.

(** [file_iterator_reassembles] on five bytes read two at a time. *)
Lemma file_iterator_reassembles_witness :
  async_file_iterator 5 2 [Byte.x01; Byte.x02; Byte.x03; Byte.x04; Byte.x05]
  = [[Byte.x01; Byte.x02]; [Byte.x03; Byte.x04]; [Byte.x05]]
  /\ concat (async_file_iterator 5 2
               [Byte.x01; Byte.x02; Byte.x03; Byte.x04; Byte.x05])
     = [Byte.x01; Byte.x02; Byte.x03; Byte.x04; Byte.x05].
Proof.
  split; [reflexivity|].
  apply (file_iterator_reassembles 5 2
           [Byte.x01; Byte.x02; Byte.x03; Byte.x04; Byte.x05]); simpl; lia.
Defined.

(** [download_returns_uploaded_bytes] on an upload in two chunks that
    replaces the stored blob. *)
Lemma download_returns_uploaded_bytes_witness :
  exists body r cs,
    complete_body (Raw (mkBody [[Byte.x02]; [Byte.x03]] None)) = Some body
    /\ download_file (py "/data") sample_join (fun _ => 4096%Z)
         (py "docs") (py "doc.pdf")
         (snd (upload_file (py "/data") sample_join (fun _ => [])
                 (py "docs") (py "doc.pdf")
                 (Raw (mkBody [[Byte.x02]; [Byte.x03]] None))
                 (py "tmpabc.tmp") (mkDisk None false false) sample_world))
       = Return r
    /\ stream r = Some cs
    /\ concat cs = concat body
    /\ content_length r = 2%Z
    /\ filename r = py "doc.pdf".
Proof.
  apply (download_returns_uploaded_bytes (py "/data") sample_join
           (fun _ => 4096%Z) (fun _ => []) (py "docs") (py "doc.pdf")
           (Raw (mkBody [[Byte.x02]; [Byte.x03]] None)) (py "tmpabc.tmp")
           (mkDisk None false false)
           sample_world (mkMeta (py "doc.pdf") (py "doc.pdf") 2)).
  - intros file_path [= <-]. vm_compute. reflexivity.
  - vm_compute. reflexivity.
Defined.

(** [delete_file_is_idempotent] on the stored blob. *)
Lemma delete_file_is_idempotent_witness :
  download_file (py "/data") sample_join (fun _ => 4096%Z)
                (py "docs") (py "doc.pdf")
                (snd (delete_file (py "/data") sample_join (py "docs")
                                  (py "doc.pdf") sample_world))
  = HTTPException 404 (py "File not found").
Proof.
  apply (delete_file_is_idempotent (py "/data") sample_join (fun _ => 4096%Z)
           (py "docs") (py "doc.pdf") sample_world).
  - intros p Hp. unfold sample_world in *. cbn [w_fs fs_dirs fs_files] in *.
    apply elem_of_singleton in Hp. subst p. vm_compute. reflexivity.
  - vm_compute. reflexivity.
Defined.

End BlobFacts.

